(** * MT5 live candle updater: a shallow embedding and its properties

    The development follows three source files:
    - [live_updater.py]: the granularity catalog, the completion oracle, the
      reconciler [update_database], the interval policy and the scheduler
      loop of [main];
    - [AutoTrader/main.py]: the one-shot bulk loader [save_to_database];
    - [api_server.py]: the [/ohlc] projection [get_ohlc_data] and the
      other endpoints.

    Python integers are unbounded and are modelled by [Z]; the database
    holds 64-bit integers.  The two float
    constants the scheduler computes with ([0.05] and [0.1]) only ever meet
    integers and differences of clock readings; they are modelled by
    rationals.  Prices are copied, never computed with, and are kept as
    primitive floats; the database stores a NaN as NULL. *)

From Stdlib Require Import ZArith QArith Qminmax PrimFloat Ascii String.
From Stdlib Require Import List Lia.
From stdpp Require Import gmap strings list fin_maps sorting.

Local Open Scope string_scope.
Local Open Scope Z_scope.

(** ** Exceptions and results *)

(** The two exceptions that leave the functions of the updater and of the
    loader: [ValueError] from [int(str)], and [OverflowError] from a
    statement that is given an integer outside the range of the database. *)
Inductive exn : Type :=
| ValueError
| OverflowError.

Inductive result (A : Type) : Type :=
| Ok (a : A)
| Raise (e : exn).

Arguments Ok {A} a.
Arguments Raise {A} e.

(** Sequencing propagates the first exception; the instances give the
    [x ← r; k] notation. *)
#[export] Instance result_ret : MRet result := fun A a => Ok a.

#[export] Instance result_bind : MBind result := fun A B k r =>
  match r with
  | Ok a => k a
  | Raise e => Raise e
  end.

(** ** The builtin [int(str)]

    [int] strips surrounding white space, accepts one optional sign, and
    then a non-empty run of decimal digits in which single underscores may
    separate digits.  Anything else raises [ValueError].  The white space
    it strips is that of the C locale: tab, line feed, vertical tab, form
    feed, carriage return and space.  Labels are taken as ASCII strings;
    the digits and spaces of other scripts, which [int] also reads, are not
    modelled. *)

Module PyInt.

Definition is_space (c : ascii) : bool :=
  let n := Z.of_N (N_of_ascii c) in
  ((9 <=? n) && (n <=? 13)) || (n =? 32).

Definition digit_val (c : ascii) : option Z :=
  let n := Z.of_N (N_of_ascii c) in
  if (48 <=? n) && (n <=? 57) then Some (n - 48) else None.

Fixpoint lstrip (s : string) : string :=
  match s with
  | String c s' => if is_space c then lstrip s' else s
  | EmptyString => EmptyString
  end.

Definition strip (s : string) : string :=
  String.rev (lstrip (String.rev (lstrip s))).

(** [after_digit] records whether the previous character was a digit: an
    underscore is legal only between two digits. *)
Fixpoint digits (s : string) (acc : Z) (after_digit : bool) : option Z :=
  match s with
  | EmptyString => if after_digit then Some acc else None
  | String c s' =>
      if Ascii.eqb c "_"%char
      then (if after_digit then digits s' acc false else None)
      else match digit_val c with
           | Some d => digits s' (10 * acc + d) true
           | None => None
           end
  end.

Definition parse (s : string) : result Z :=
  let body (sign : Z) (t : string) :=
    match digits t 0 false with
    | Some n => Ok (sign * n)
    | None => Raise ValueError
    end in
  match strip s with
  | String "-"%char t => body (-1) t
  | String "+"%char t => body 1 t
  | t => body 1 t
  end.

End PyInt.

(** ** Granularity catalog *)

(** The native period identifiers of the terminal library. *)
Inductive mt5_timeframe : Type :=
| TIMEFRAME_M1 | TIMEFRAME_M2 | TIMEFRAME_M3 | TIMEFRAME_M4 | TIMEFRAME_M5
| TIMEFRAME_M6 | TIMEFRAME_M10 | TIMEFRAME_M12 | TIMEFRAME_M15
| TIMEFRAME_M20 | TIMEFRAME_M30
| TIMEFRAME_H1 | TIMEFRAME_H2 | TIMEFRAME_H3 | TIMEFRAME_H4 | TIMEFRAME_H6
| TIMEFRAME_H8 | TIMEFRAME_H12
| TIMEFRAME_D1 | TIMEFRAME_W1 | TIMEFRAME_MN1.

Definition timeframe_items : list (string * mt5_timeframe) :=
  [ ("M1", TIMEFRAME_M1); ("M2", TIMEFRAME_M2); ("M3", TIMEFRAME_M3);
    ("M4", TIMEFRAME_M4); ("M5", TIMEFRAME_M5); ("M6", TIMEFRAME_M6);
    ("M10", TIMEFRAME_M10); ("M12", TIMEFRAME_M12); ("M15", TIMEFRAME_M15);
    ("M20", TIMEFRAME_M20); ("M30", TIMEFRAME_M30);
    ("H1", TIMEFRAME_H1); ("H2", TIMEFRAME_H2); ("H3", TIMEFRAME_H3);
    ("H4", TIMEFRAME_H4); ("H6", TIMEFRAME_H6); ("H8", TIMEFRAME_H8);
    ("H12", TIMEFRAME_H12);
    ("D1", TIMEFRAME_D1); ("W1", TIMEFRAME_W1); ("MN1", TIMEFRAME_MN1) ].

Definition timeframe_dict : gmap string mt5_timeframe :=
  list_to_map timeframe_items.

(** [timeframe_dict.get(timeframe_str)] *)
Definition get_timeframe_constant (timeframe_str : string)
  : option mt5_timeframe :=
  timeframe_dict !! timeframe_str.

(** The branches are tried in the order of the source: the prefix tests come
    before the comparisons with ["D1"], ["W1"] and ["MN1"]. *)
Definition get_timeframe_seconds (timeframe_str : string)
  : result (option Z) :=
  match timeframe_str with
  | String "M"%char rest => n ← PyInt.parse rest; Ok (Some (n * 60))
  | String "H"%char rest => n ← PyInt.parse rest; Ok (Some (n * 3600))
  | _ =>
      if String.eqb timeframe_str "D1" then Ok (Some 86400)
      else if String.eqb timeframe_str "W1" then Ok (Some 604800)
      else if String.eqb timeframe_str "MN1" then Ok (Some 2592000)
      else Ok None
  end.

(** ** Completion oracle *)

Definition is_candle_complete (current_time candle_time : Z)
    (timeframe_str : string) : result bool :=
  timeframe_seconds ← get_timeframe_seconds timeframe_str;
  match timeframe_seconds with
  | None => Ok true
  | Some secs =>
      let candle_end_time := candle_time + secs in
      Ok (candle_end_time <=? current_time)
  end.

(** ** Interval policy *)

(** [max(a, b)] of the interpreter: the first argument unless the second is
    strictly larger. *)
Definition py_max (a b : Q) : Q := if Qle_bool b a then a else b.

(** The loop of [calculate_update_interval]; [None] stands for
    [float('inf')].  A label is taken into account when its period is
    truthy (neither [None] nor [0]) and below the running minimum. *)
Fixpoint min_interval_loop (timeframes : list string) (min_interval : option Z)
  : result (option Z) :=
  match timeframes with
  | [] => Ok min_interval
  | tf_str :: rest =>
      seconds ← get_timeframe_seconds tf_str;
      let below (s : Z) :=
        match min_interval with
        | None => true
        | Some m => s <? m
        end in
      match seconds with
      | Some s =>
          if negb (s =? 0) && below s
          then min_interval_loop rest (Some s)
          else min_interval_loop rest min_interval
      | None => min_interval_loop rest min_interval
      end
  end.

Definition calculate_update_interval (timeframes : list string) : result Q :=
  found ← min_interval_loop timeframes None;
  let min_interval := match found with None => 60 | Some m => m end in
  Ok (py_max (5 # 100) (inject_Z (Z.min 60 (min_interval / 4)))).

(** ** Rendering of timestamps

    [pd.to_datetime(t, unit='s')] followed by
    [strftime('%Y-%m-%d %H:%M:%S')]: the proleptic Gregorian calendar date
    and the time of day of the epoch second [t], in UTC.  The library
    represents timestamps between 1677 and 2262 only; [pandas_range] is that
    interval, rounded inwards to whole days. *)

Module Strftime.

(** Calendar date of a day number counted from 1970-01-01. *)
Definition civil_from_days (z : Z) : Z * Z * Z :=
  let z := z + 719468 in
  let era := z / 146097 in
  let doe := z - era * 146097 in
  let yoe := (doe - doe / 1460 + doe / 36524 - doe / 146096) / 365 in
  let y := yoe + era * 400 in
  let doy := doe - (365 * yoe + yoe / 4 - yoe / 100) in
  let mp := (5 * doy + 2) / 153 in
  let d := doy - (153 * mp + 2) / 5 + 1 in
  let m := if mp <? 10 then mp + 3 else mp - 9 in
  (if m <=? 2 then y + 1 else y, m, d).

Definition digit (d : Z) : ascii := ascii_of_N (Z.to_N (48 + d)).

Definition pad2 (n : Z) (k : string) : string :=
  String (digit (n / 10)) (String (digit (n mod 10)) k).

Definition pad4 (n : Z) (k : string) : string :=
  String (digit (n / 1000)) (String (digit (n / 100 mod 10))
    (String (digit (n / 10 mod 10)) (String (digit (n mod 10)) k))).

Definition format (t : Z) : string :=
  let days := t / 86400 in
  let secs := t mod 86400 in
  let '(y, m, d) := civil_from_days days in
  pad4 y (String "-" (pad2 m (String "-" (pad2 d (String " "
    (pad2 (secs / 3600) (String ":" (pad2 (secs mod 3600 / 60) (String ":"
      (pad2 (secs mod 60) EmptyString)))))))))).

Definition min_day : Z := -106751.
Definition max_day : Z := 106750.

Definition pandas_range (t : Z) : Prop :=
  min_day * 86400 <= t < (max_day + 1) * 86400.

(** The intermediate quantities of [civil_from_days]: the 400-year era,
    the year of the era, the day of the year (from March 1st) and the
    month counted from March. *)
Record civil_parts : Type := mkParts { era : Z; yoe : Z; doy : Z; mp : Z }.

Definition parts (z : Z) : civil_parts :=
  let z := z + 719468 in
  let era := z / 146097 in
  let doe := z - era * 146097 in
  let yoe := (doe - doe / 1460 + doe / 36524 - doe / 146096) / 365 in
  let doy := doe - (365 * yoe + yoe / 4 - yoe / 100) in
  let mp := (5 * doy + 2) / 153 in
  mkParts era yoe doy mp.

Definition month_of (mp : Z) : Z := if mp <? 10 then mp + 3 else mp - 9.

End Strftime.

(** The rendering is never unfolded by simplification. *)
Arguments Strftime.format : simpl never.

(** ** Bars and tables *)

(** One record of the array returned by [copy_rates_from_pos].  A missing
    or NaN [spread] / [real_volume] is [None]. *)
Module Rate.
Record t : Type := mk {
  time : Z;
  open : float;
  high : float;
  low : float;
  close : float;
  tick_volume : Z;
  spread : option Z;
  real_volume : option Z
}.
End Rate.

(** One row of a series table.  A price cell is [None] when it is NULL.
    [is_completed] is [None] when the table has no such column (tables
    created by the bulk loader) or the cell is NULL. *)
Module StoredRow.
Record t : Type := mk {
  id : Z;
  datetime : string;
  time : Z;
  open : option float;
  high : option float;
  low : option float;
  close : option float;
  tick_volume : Z;
  spread : Z;
  real_volume : Z;
  is_completed : option Z
}.
End StoredRow.

(** A table of the schema of [init_database]: [id INTEGER PRIMARY KEY
    AUTOINCREMENT, datetime TEXT UNIQUE, ...].  The two programs create the
    table with and without the [is_completed INTEGER DEFAULT 1] column. *)
Record Table : Type := mkTable {
  has_is_completed : bool;
  next_id : Z;
  rows : list StoredRow.t
}.

(** The database file: tables by name. *)
Abbreviation DB := (gmap string Table).

Definition table_name (symbol timeframe_str : string) : string :=
  symbol +:+ "_" +:+ timeframe_str.

(** The values bound to the placeholders of an INSERT or UPDATE; the flag
    is [None] in a statement that does not name the column. *)
Record Values : Type := mkValues {
  v_datetime : string;
  v_rate : Rate.t;
  v_is_completed : option Z
}.

Definition int_or_zero (x : option Z) : Z :=
  match x with Some n => n | None => 0 end.

(** A float bound to a REAL column: a NaN is stored as NULL. *)
Definition sql_real (x : float) : option float :=
  if PrimFloat.is_nan x then None else Some x.

(** An integer bound to a placeholder: the database holds 64-bit signed
    integers, and the driver refuses any other with [OverflowError]. *)
Definition sql_integer (z : Z) : bool :=
  (- 2 ^ 63 <=? z) && (z <? 2 ^ 63).

Definition binds (v : Values) : bool :=
  let r := v_rate v in
  sql_integer (Rate.time r) && sql_integer (Rate.tick_volume r)
  && sql_integer (int_or_zero (Rate.spread r))
  && sql_integer (int_or_zero (Rate.real_volume r))
  && match v_is_completed v with
     | Some c => sql_integer c
     | None => true
     end.

Definition row_of_values (i : Z) (flag : option Z) (v : Values) : StoredRow.t :=
  let r := v_rate v in
  StoredRow.mk i (v_datetime v) (Rate.time r) (sql_real (Rate.open r))
    (sql_real (Rate.high r)) (sql_real (Rate.low r)) (sql_real (Rate.close r))
    (Rate.tick_volume r) (int_or_zero (Rate.spread r))
    (int_or_zero (Rate.real_volume r)) flag.

Definition has_key (k : string) (tbl : Table) : bool :=
  bool_decide (k ∈ StoredRow.datetime <$> rows tbl).

(** [INSERT INTO t (...) VALUES (...)]; [None] is an [sqlite3.Error]: the
    UNIQUE constraint on [datetime] fails, or the statement names a column
    the table does not have.  An omitted flag takes the column default. *)
Definition sql_insert (v : Values) (tbl : Table) : option Table :=
  if has_key (v_datetime v) tbl then None
  else
    match v_is_completed v, has_is_completed tbl with
    | Some _, false => None
    | flag, has =>
        let stored :=
          match flag with
          | Some c => Some c
          | None => if has then Some 1 else None
          end in
        Some (mkTable has (next_id tbl + 1)
                (rows tbl ++ [row_of_values (next_id tbl) stored v]))
    end.

(** [UPDATE t SET time = ?, ..., is_completed = ? WHERE datetime = ?] *)
Definition sql_update (v : Values) (tbl : Table) : option Table :=
  if has_is_completed tbl then
    Some (mkTable true (next_id tbl)
            ((fun r =>
                if String.eqb (StoredRow.datetime r) (v_datetime v)
                then row_of_values (StoredRow.id r) (v_is_completed v) v
                else r) <$> rows tbl))
  else None.

(** [cursor.execute(statement, values)] on a statement the database can
    prepare: the values are bound, then the statement runs.  [Raise] is the
    [OverflowError] of the binding, which is no [sqlite3.Error]; [Ok None]
    is an [sqlite3.Error] of the statement. *)
Definition execute (statement : Values -> Table -> option Table)
    (v : Values) (tbl : Table) : result (option Table) :=
  if binds v then Ok (statement v tbl) else Raise OverflowError.

(** [SELECT datetime, is_completed FROM t], read into a dict. *)
Definition select_existing (tbl : Table) : option (gmap string (option Z)) :=
  if has_is_completed tbl then
    Some (foldl (fun d r =>
                   <[StoredRow.datetime r := StoredRow.is_completed r]> d)
            ∅ (rows tbl))
  else None.

(** ** The quote source *)

(** The two calls made on the terminal library.  A fetch yields [None] or a
    sequence of rates. *)
Record Terminal : Type := mkTerminal {
  symbol_select : string -> bool;
  copy_rates_from_pos :
    string -> mt5_timeframe -> Z -> Z -> option (list Rate.t)
}.

(** ** Reconciler: [update_database] *)

(** A row of the data frame: the rate with its [datetime_str] and
    [is_completed] columns. *)
Record Candle : Type := mkCandle {
  rate : Rate.t;
  datetime_str : string;
  is_completed : Z
}.

(** [df['time'].apply(lambda x: 1 if is_candle_complete(...) else 0)],
    together with the two datetime columns. *)
Fixpoint build_frame (current_time : Z) (timeframe_str : string)
    (rates : list Rate.t) : result (list Candle) :=
  match rates with
  | [] => Ok []
  | r :: rest =>
      complete ← is_candle_complete current_time (Rate.time r) timeframe_str;
      df ← build_frame current_time timeframe_str rest;
      Ok (mkCandle r (Strftime.format (Rate.time r))
            (if complete : bool then 1 else 0) :: df)
  end.

(** The frame in closed form, once the period [g] of the label is known. *)
Definition completed_flag (g : option Z) (now t : Z) : Z :=
  match g with
  | None => 1
  | Some secs => if t + secs <=? now then 1 else 0
  end.

Definition candle_of (g : option Z) (now : Z) (r : Rate.t) : Candle :=
  mkCandle r (Strftime.format (Rate.time r))
    (completed_flag g now (Rate.time r)).

Definition candle_values (c : Candle) : Values :=
  mkValues (datetime_str c) (rate c) (Some (is_completed c)).

(** [existing == 0 or existing != is_completed], on a cell that may be
    NULL. *)
Definition needs_update (existing : option Z) (is_completed : Z) : bool :=
  match existing with
  | Some e => (e =? 0) || negb (e =? is_completed)
  | None => true
  end.

(** The body of [for _, row in df.iterrows()]: the decision is taken on the
    dict read before the loop; a statement that fails with an
    [sqlite3.Error] is logged and not counted, and an [OverflowError] leaves
    the loop and the function. *)
Definition reconcile_row (existing_candles : gmap string (option Z))
    (st : Table * Z) (row : Candle) : result (Table * Z) :=
  let '(tbl, updated_count) := st in
  let counted (done : option Table) :=
    match done with
    | Some tbl' => (tbl', updated_count + 1)
    | None => (tbl, updated_count)
    end in
  match existing_candles !! datetime_str row with
  | Some existing =>
      if needs_update existing (is_completed row) then
        done ← execute sql_update (candle_values row) tbl;
        Ok (counted done)
      else Ok (tbl, updated_count)
  | None =>
      done ← execute sql_insert (candle_values row) tbl;
      Ok (counted done)
  end.

Fixpoint reconcile_rows (existing_candles : gmap string (option Z))
    (st : Table * Z) (df : list Candle) : result (Table * Z) :=
  match df with
  | [] => Ok st
  | row :: rest =>
      st' ← reconcile_row existing_candles st row;
      reconcile_rows existing_candles st' rest
  end.

(** The loop body once the values of the row are bound: the statement it
    runs, if any, and the count. *)
Definition process_candle (existing_candles : gmap string (option Z))
    (st : Table * Z) (row : Candle) : Table * Z :=
  let '(tbl, updated_count) := st in
  match existing_candles !! datetime_str row with
  | Some existing =>
      if needs_update existing (is_completed row) then
        match sql_update (candle_values row) tbl with
        | Some tbl' => (tbl', updated_count + 1)
        | None => (tbl, updated_count)
        end
      else (tbl, updated_count)
  | None =>
      match sql_insert (candle_values row) tbl with
      | Some tbl' => (tbl', updated_count + 1)
      | None => (tbl, updated_count)
      end
  end.

(** Whether the loop body runs a statement for the row, and whether the
    values bind in every statement the loop runs. *)
Definition runs_statement (existing_candles : gmap string (option Z))
    (row : Candle) : bool :=
  match existing_candles !! datetime_str row with
  | Some existing => needs_update existing (is_completed row)
  | None => true
  end.

Definition rows_bind (existing_candles : gmap string (option Z))
    (df : list Candle) : bool :=
  forallb (fun row => negb (runs_statement existing_candles row)
                      || binds (candle_values row)) df.

Definition update_database (mt5 : Terminal) (now : Z) (conn : option DB)
    (symbol : string) (timeframe_const : mt5_timeframe)
    (timeframe_str : string) (lookback : Z) : result (option DB * Z) :=
  match conn with
  | None => Ok (None, 0)
  | Some db =>
      if negb (symbol_select mt5 symbol) then Ok (conn, 0)
      else
        match copy_rates_from_pos mt5 symbol timeframe_const 0 lookback with
        | None | Some [] => Ok (conn, 0)
        | Some rates =>
            let current_time := now in
            df ← build_frame current_time timeframe_str rates;
            let name := table_name symbol timeframe_str in
            match db !! name ≫= (fun tbl =>
                    d ← select_existing tbl; Some (tbl, d)) with
            | None => Ok (conn, 0)
            | Some (tbl, existing_candles) =>
                '(tbl', updated_count) ←
                  reconcile_rows existing_candles (tbl, 0) df;
                Ok (Some (<[name := tbl']> db), updated_count)
            end
        end
  end.

Definition default_lookback : Z := 99999.

(** ** Names in the database file *)

(** [SELECT name FROM sqlite_master WHERE type='table'].  Besides the
    series tables the list holds [sqlite_sequence], the table SQLite keeps
    for AUTOINCREMENT keys once such a table exists.  The order of the
    result is not specified; the one of the map is taken. *)
Definition master_tables (db : DB) : list string :=
  if decide (db = ∅) then []
  else "sqlite_sequence" :: (map_to_list db).*1.

(** The table a request names: a series table, the internal table (on
    which every query of the API fails), or no table. *)
Inductive found_table : Type :=
| Series (tbl : Table)
| Internal
| Missing.

Definition find_table (db : DB) (name : string) : found_table :=
  match db !! name with
  | Some tbl => Series tbl
  | None =>
      if bool_decide (name ∈ master_tables db) then Internal else Missing
  end.

(** The characters SQLite accepts inside an unquoted identifier.  The
    index of a table is named [idx_<table>_datetime] without quotes, so a
    table name with any other character makes the statement fail. *)
Definition id_char (c : ascii) : bool :=
  let n := Z.of_N (N_of_ascii c) in
  ((48 <=? n) && (n <=? 57)) || ((65 <=? n) && (n <=? 90))
  || ((97 <=? n) && (n <=? 122)) || (n =? 95) || (n =? 36) || (128 <=? n).

Fixpoint identifier_safe (s : string) : bool :=
  match s with
  | EmptyString => true
  | String c s' => id_char c && identifier_safe s'
  end.

(** Names that begin with [sqlite_], in any ASCII case, are reserved:
    SQLite refuses to create a table so named. *)
Definition lower (c : ascii) : ascii :=
  let n := N_of_ascii c in
  if ((65 <=? n) && (n <=? 90))%N then ascii_of_N (n + 32) else c.

Fixpoint starts_nocase (prefix s : string) : bool :=
  match prefix, s with
  | EmptyString, _ => true
  | String p prefix', String c s' =>
      Ascii.eqb (lower p) (lower c) && starts_nocase prefix' s'
  | String _ _, EmptyString => false
  end.

Definition reserved_name (name : string) : bool :=
  starts_nocase "sqlite_" name.

Arguments reserved_name : simpl never.

(** The index both programs create with a table. *)
Definition index_name (table : string) : string :=
  "idx_" +:+ table +:+ "_datetime".

(** ** Bulk loader: [save_to_database] *)

(** [df.iloc[:-1]] *)
Definition drop_last {A} (l : list A) : list A := removelast l.

Definition new_table : Table := mkTable false 1 [].

(** [SELECT name FROM sqlite_master WHERE type="table" AND
    name="<table_name>"] has a row.  The name is put between double
    quotes: text so quoted that names no column is a string, as in the
    default configuration of SQLite, but [tbl_name] is a column of
    [sqlite_master] (the only one with an underscore, which every table
    name of the programs has), and the condition [name = tbl_name] holds of
    every table. *)
Definition table_exists (name : string) (db : DB) : bool :=
  if starts_nocase "tbl_name" name && (String.length name =? 8)%nat
  then negb (bool_decide (master_tables db = []))
  else bool_decide (name ∈ master_tables db).

(** Whether an index has the name.  The indexes of the file are those the
    programs create with their tables.  A table is without its index when
    the creation of the index failed: its name is no identifier, or a table
    has the name of the index; both remain so, since no table is ever
    dropped.  Here the name is that of no table. *)
Definition index_exists (name : string) (db : DB) : bool :=
  identifier_safe name
  && bool_decide (Exists (fun table => name = index_name table)
                    (map_to_list db).*1).

(** The [try] block that makes sure the table is there: [CREATE TABLE
    "<name>" (...)] and [CREATE INDEX idx_<name>_datetime ON "<name>"
    (datetime)] when the table is not found.  The boolean is [false] when
    one of the two statements fails with an [sqlite3.Error]: the first on a
    reserved name and when an index has the name, the second when its
    unquoted name is no identifier and when a table has the name.  Each
    statement is committed as it is run, so a table whose index fails
    stays. *)
Definition ensure_table (name : string) (db : DB) : DB * bool :=
  if table_exists name db then (db, true)
  else if reserved_name name || index_exists name db then (db, false)
  else
    let db' := <[name := new_table]> db in
    if negb (identifier_safe name)
       || bool_decide (is_Some (db !! index_name name))
    then (db', false)
    else (db', true).

(** The loop body once the values of the row are bound: insert when the
    key is not in the set read before the loop.  The statement names no
    [is_completed] column. *)
Definition insert_if_absent (existing_datetimes : gset string)
    (st : Table * Z) (r : Rate.t) : Table * Z :=
  let '(tbl, inserted_rows) := st in
  let key := Strftime.format (Rate.time r) in
  if decide (key ∈ existing_datetimes) then (tbl, inserted_rows)
  else
    match sql_insert (mkValues key r None) tbl with
    | Some tbl' => (tbl', inserted_rows + 1)
    | None => (tbl, inserted_rows)
    end.

Definition existing_keys (tbl : Table) : gset string :=
  list_to_set (StoredRow.datetime <$> rows tbl).

(** The loop as the source runs it: an [sqlite3.Error] of the INSERT is
    printed and the row not counted, an [OverflowError] leaves the loop and
    the function. *)
Definition insert_row (existing_datetimes : gset string)
    (st : Table * Z) (r : Rate.t) : result (Table * Z) :=
  let '(tbl, inserted_rows) := st in
  let key := Strftime.format (Rate.time r) in
  if decide (key ∈ existing_datetimes) then Ok (tbl, inserted_rows)
  else
    done ← execute sql_insert (mkValues key r None) tbl;
    match done with
    | Some tbl' => Ok (tbl', inserted_rows + 1)
    | None => Ok (tbl, inserted_rows)
    end.

Fixpoint insert_rows (existing_datetimes : gset string)
    (st : Table * Z) (df : list Rate.t) : result (Table * Z) :=
  match df with
  | [] => Ok st
  | r :: rest =>
      st' ← insert_row existing_datetimes st r;
      insert_rows existing_datetimes st' rest
  end.

(** Whether the values bind in every INSERT the loop runs. *)
Definition loads_bind (existing_datetimes : gset string)
    (df : list Rate.t) : bool :=
  forallb (fun r =>
             let key := Strftime.format (Rate.time r) in
             bool_decide (key ∈ existing_datetimes)
             || binds (mkValues key r None)) df.

(** The function returns [(0, 0)] when the table cannot be made sure of.
    When the check finds a table that is not the series table (the
    internal table, or any table under the name [tbl_name]), the SELECT of
    the keys and every INSERT fail with an [sqlite3.Error] before a value
    is bound, and nothing is inserted. *)
Definition save_to_database (conn : option DB) (symbol : string)
    (timeframe : mt5_timeframe) (timeframe_str : string)
    (data : option (list Rate.t)) : result (option DB * (Z * Z)) :=
  match conn, data with
  | None, _ | _, None | _, Some [] => Ok (conn, (0, 0))
  | Some db, Some data =>
      let df := drop_last data in
      match df with
      | [] => Ok (conn, (0, 0))
      | _ =>
          let name := table_name symbol timeframe_str in
          let '(db, created) := ensure_table name db in
          if negb created then Ok (Some db, (0, 0))
          else
            let total_rows := Z.of_nat (length df) in
            match db !! name with
            | None => Ok (Some db, (total_rows, 0))
            | Some tbl =>
                let existing_datetimes := existing_keys tbl in
                '(tbl', inserted_rows) ←
                  insert_rows existing_datetimes (tbl, 0) df;
                Ok (Some (<[name := tbl']> db), (total_rows, inserted_rows))
            end
      end
  end.

(** ** Scheduler: one iteration of the loop of [main] *)

(** The nested loops over symbols and timeframes.  Every call of
    [update_database] reads the clock itself; [clock] gives the reading
    taken in the call for a pair. *)
Fixpoint update_timeframes (mt5 : Terminal) (clock : string -> string -> Z)
    (conn : option DB) (symbol : string)
    (timeframes : list (mt5_timeframe * string)) (total_updates : Z)
  : result (option DB * Z) :=
  match timeframes with
  | [] => Ok (conn, total_updates)
  | (tf_const, tf_str) :: rest =>
      '(conn', updates) ← update_database mt5 (clock symbol tf_str) conn
                             symbol tf_const tf_str default_lookback;
      update_timeframes mt5 clock conn' symbol rest (total_updates + updates)
  end.

Fixpoint update_symbols (mt5 : Terminal) (clock : string -> string -> Z)
    (conn : option DB) (symbols : list string)
    (timeframes : list (mt5_timeframe * string)) (total_updates : Z)
  : result (option DB * Z) :=
  match symbols with
  | [] => Ok (conn, total_updates)
  | symbol :: rest =>
      '(conn', total) ← update_timeframes mt5 clock conn symbol timeframes
                          total_updates;
      update_symbols mt5 clock conn' rest timeframes total
  end.

(** What one iteration leaves behind: the database, the number of updates,
    the [sleep_time] it computes (and logs), and the argument it passes to
    [time.sleep]. *)
Record Cycle : Type := mkCycle {
  cycle_conn : option DB;
  total_updates : Z;
  sleep_time : Q;
  slept : Q
}.

(** [elapsed] is the difference of the two readings of [time.time()]
    around the nested loops. *)
Definition main_cycle (mt5 : Terminal) (clock : string -> string -> Z)
    (conn : option DB) (symbols : list string)
    (timeframes : list (mt5_timeframe * string))
    (update_interval elapsed : Q) : result Cycle :=
  '(conn', total) ← update_symbols mt5 clock conn symbols timeframes 0;
  let sleep_time := py_max (5 # 100) (update_interval - elapsed)%Q in
  Ok (mkCycle conn' total sleep_time (1 # 10)).

(** ** Read API: [get_ohlc_data] *)

(** What a client receives from an endpoint: the body of the answer, or
    the status of an error.  An [HTTPException] is answered with its
    status, a request that fails the validation of its parameters with
    422, and an exception that leaves the validation of the response
    with 500.  The body is the value the endpoint returns, before it is
    written as JSON: how a price that is infinite is written depends on
    the version of the framework, and is not modelled. *)
Inductive http (A : Type) : Type :=
| Body (body : A)
| Status (code : Z).

Arguments Body {A} body.
Arguments Status {A} code.

(** The answer of [/ohlc]; a NULL price is [None]. *)
Module Ohlc.
Record response : Type := mk {
  symbol : string;
  timeframe : string;
  t : list Z;
  o : list (option float);
  h : list (option float);
  l : list (option float);
  c : list (option float);
  v : list Z
}.
End Ohlc.

(** Python truthiness of an optional string. *)
Definition given (x : option string) : option string :=
  match x with
  | Some EmptyString | None => None
  | Some s => Some s
  end.

(** The WHERE clause assembled from the optional filters; text is compared
    byte-wise. *)
Definition matches (start_time end_time : option string)
    (completed_only : bool) (r : StoredRow.t) : bool :=
  match given start_time with
  | Some s => String.leb s (StoredRow.datetime r)
  | None => true
  end
  && match given end_time with
     | Some e => String.leb (StoredRow.datetime r) e
     | None => true
     end
  && (if completed_only
      then match StoredRow.is_completed r with Some 1 => true | _ => false end
      else true).

Definition time_desc (r1 r2 : StoredRow.t) : Prop :=
  StoredRow.time r2 <= StoredRow.time r1.

#[export] Instance time_desc_dec r1 r2 : Decision (time_desc r1 r2) :=
  Z_le_dec (StoredRow.time r2) (StoredRow.time r1).

(** [LIMIT n]: a negative bound is no bound. *)
Definition sql_limit {A} (n : Z) (l : list A) : list A :=
  if n <? 0 then l else take (Z.to_nat n) l.

(** [SELECT time, open, high, low, close, tick_volume FROM t WHERE ...
    ORDER BY time DESC LIMIT ?]; [None] is an [sqlite3.Error] (the filter
    names a column the table does not have). *)
Definition select_ohlc (tbl : Table) (start_time end_time : option string)
    (completed_only : bool) (limit : Z) : option (list StoredRow.t) :=
  if completed_only && negb (has_is_completed tbl) then None
  else
    Some (sql_limit limit
            (merge_sort time_desc
               (filter (fun r => matches start_time end_time completed_only r
                                 = true)
                       (rows tbl)))).

(** [/ohlc], with [limit] declared as [Query(default=100, le=100000)]: a
    larger limit is refused before the function is entered.  The table is
    looked for in [sqlite_master]; the query fails on the internal
    table. *)
Definition get_ohlc_data (db : DB) (symbol timeframe : string)
    (start_time end_time : option string) (limit : Z)
    (completed_only : bool) : http Ohlc.response :=
  if 100000 <? limit then Status 422
  else
    let name := table_name symbol timeframe in
    match find_table db name with
    | Missing => Status 404
    | Internal => Status 500
    | Series tbl =>
        match select_ohlc tbl start_time end_time completed_only limit with
        | None => Status 500
        | Some [] => Status 404
        | Some rows =>
            let times := (fun r => StoredRow.time r * 1000) <$> rows in
            let opens := StoredRow.open <$> rows in
            let highs := StoredRow.high <$> rows in
            let lows := StoredRow.low <$> rows in
            let closes := StoredRow.close <$> rows in
            let volumes := StoredRow.tick_volume <$> rows in
            Body (Ohlc.mk symbol timeframe (reverse times) (reverse opens)
                    (reverse highs) (reverse lows) (reverse closes)
                    (reverse volumes))
        end
    end.

(** ** Repeated reconciliation of one series

    The scheduler calls [update_database] for the same pair once per
    iteration; each call sees the terminal and the clock of its moment. *)
Fixpoint reconcile_cycles (cycles : list (Terminal * Z)) (conn : option DB)
    (symbol : string) (timeframe_const : mt5_timeframe)
    (timeframe_str : string) : result (option DB) :=
  match cycles with
  | [] => Ok conn
  | (mt5, now) :: rest =>
      '(conn', _) ← update_database mt5 now conn symbol timeframe_const
                       timeframe_str default_lookback;
      reconcile_cycles rest conn' symbol timeframe_const timeframe_str
  end.

(** ** Notions used in the statements *)

(** The stored row of a key. *)
Definition lookup_row (k : string) (tbl : Table) : option StoredRow.t :=
  find (fun r => String.eqb (StoredRow.datetime r) k) (rows tbl).

(** The row a fetched bar is stored as. *)
Definition candle_row (i : Z) (c : Candle) : StoredRow.t :=
  row_of_values i (Some (is_completed c)) (candle_values c).

(** The range of the integers of the database. *)
Definition int64 (z : Z) : Prop := - 2 ^ 63 <= z < 2 ^ 63.

(** A bar whose integers the database holds: its volumes and spread, and
    its open time. *)
Definition volumes_fit (r : Rate.t) : Prop :=
  int64 (Rate.tick_volume r) /\
  (forall s, Rate.spread r = Some s -> int64 s) /\
  (forall v, Rate.real_volume r = Some v -> int64 v).

Definition storable (r : Rate.t) : Prop :=
  int64 (Rate.time r) /\ volumes_fit r.

(** The cell of a price: the price itself, and NULL for a NaN. *)
Definition price_cell (x : float) (cell : option float) : Prop :=
  (PrimFloat.is_nan x = true /\ cell = None) \/
  (PrimFloat.is_nan x = false /\ cell = Some x).

(** All the fields of the row of a fetched bar, column by column: the key
    is the rendering of the open time, the prices and the tick volume are
    those of the bar, a missing spread or real volume is 0, and the flag is
    the given one. *)
Definition stores (row : StoredRow.t) (r : Rate.t) (flag : option Z) : Prop :=
  StoredRow.datetime row = Strftime.format (Rate.time r) /\
  StoredRow.time row = Rate.time r /\
  price_cell (Rate.open r) (StoredRow.open row) /\
  price_cell (Rate.high r) (StoredRow.high row) /\
  price_cell (Rate.low r) (StoredRow.low row) /\
  price_cell (Rate.close r) (StoredRow.close row) /\
  StoredRow.tick_volume row = Rate.tick_volume r /\
  StoredRow.spread row
  = match Rate.spread r with Some s => s | None => 0 end /\
  StoredRow.real_volume row
  = match Rate.real_volume r with Some v => v | None => 0 end /\
  StoredRow.is_completed row = flag.

(** A price every version of the framework writes into an answer: NULL,
    or a number that is not infinite. *)
Definition finite_cell (cell : option float) : Prop :=
  forall x, cell = Some x -> PrimFloat.is_infinity x = false.

Definition finite_prices (r : StoredRow.t) : Prop :=
  finite_cell (StoredRow.open r) /\ finite_cell (StoredRow.high r) /\
  finite_cell (StoredRow.low r) /\ finite_cell (StoredRow.close r).



(** The rows of a series, empty when its table does not exist yet. *)
Definition series_rows (db : DB) (name : string) : list StoredRow.t :=
  match db !! name with
  | Some tbl => rows tbl
  | None => []
  end.

(** What the schema and the two writers maintain: [datetime] is UNIQUE, and
    it is the rendering of [time]. *)
Definition table_wf (tbl : Table) : Prop :=
  NoDup (StoredRow.datetime <$> rows tbl) /\
  Forall (fun r => StoredRow.datetime r = Strftime.format (StoredRow.time r))
    (rows tbl).

Definition unique_open_times (tbl : Table) : Prop :=
  NoDup (StoredRow.time <$> rows tbl).

(** A fetched window whose open times are pairwise distinct and lie in the
    range the data frame library represents. *)
Definition clean_window (rates : list Rate.t) : Prop :=
  NoDup (Rate.time <$> rates) /\
  Forall (fun r => Strftime.pandas_range (Rate.time r)) rates.

(** The key of a frame row is the rendering of its open time. *)
Definition candle_wf (c : Candle) : Prop :=
  datetime_str c = Strftime.format (Rate.time (rate c)).

(** The three outcomes of the reconciler for one fetched bar, decided on
    the persisted state as the specification words it. *)
Inductive outcome : Type := Inserted | Updated | Untouched.

#[export] Instance outcome_eq_dec : EqDecision outcome.
Proof. solve_decision. Defined.

Definition spec_outcome (persisted : Table) (c : Candle) : outcome :=
  match lookup_row (datetime_str c) persisted with
  | None => Inserted
  | Some r =>
      if decide (StoredRow.is_completed r = Some 0 \/
                 StoredRow.is_completed r <> Some (is_completed c))
      then Updated else Untouched
  end.

Definition writes (persisted : Table) (c : Candle) : bool :=
  match spec_outcome persisted c with
  | Untouched => false
  | _ => true
  end.

(** The number of fetched bars that meet a given outcome. *)
Definition count_outcome (o : outcome) (persisted : Table)
    (df : list Candle) : Z :=
  Z.of_nat (length (filter (fun c => spec_outcome persisted c = o) df)).

(** The number of fetched bars that are inserted or updated. *)
Definition count_writes (persisted : Table) (df : list Candle) : Z :=
  Z.of_nat (length (filter (fun c => writes persisted c = true) df)).

(** The fetched bars whose period has not elapsed at a reference time. *)
Definition incomplete_at (now : Z) (timeframe_str : string) (r : Rate.t)
  : bool :=
  match is_candle_complete now (Rate.time r) timeframe_str with
  | Ok false => true
  | _ => false
  end.

Definition count_incomplete (now : Z) (timeframe_str : string)
    (rates : list Rate.t) : Z :=
  Z.of_nat (length (filter (fun r => incomplete_at now timeframe_str r = true)
                      rates)).

(** A stored row is truthful at a reference time when its open time is in
    the represented range and, if it is flagged complete, its period has
    elapsed by then.  A table is sound when it is well formed and all its
    rows are truthful: the empty table is, and every reconciliation leaves
    the table sound at its own reference time. *)
Definition row_truthful (now : Z) (timeframe_str : string) (r : StoredRow.t)
  : Prop :=
  Strftime.pandas_range (StoredRow.time r) /\
  (StoredRow.is_completed r = Some 1 ->
   is_candle_complete now (StoredRow.time r) timeframe_str = Ok true).

Definition sound (now : Z) (timeframe_str : string) (tbl : Table) : Prop :=
  table_wf tbl /\ Forall (row_truthful now timeframe_str) (rows tbl).

(** Every row flagged complete in [tbl] is still stored, under the same
    key and open time, and still flagged complete in [tbl']. *)
Definition keeps_complete (tbl tbl' : Table) : Prop :=
  forall r, r ∈ rows tbl -> StoredRow.is_completed r = Some 1 ->
    exists r', r' ∈ rows tbl' /\
               StoredRow.datetime r' = StoredRow.datetime r /\
               StoredRow.time r' = StoredRow.time r /\
               StoredRow.is_completed r' = Some 1.

(** The windows the terminal returns for the series lie in the represented
    range. *)
Definition window_in_range (mt5 : Terminal) (symbol : string)
    (timeframe_const : mt5_timeframe) : Prop :=
  forall rates,
    copy_rates_from_pos mt5 symbol timeframe_const 0 default_lookback
    = Some rates ->
    Forall (fun r => Strftime.pandas_range (Rate.time r)) rates.


(** The rows the bulk loader appends for a list of bars, numbered from
    [i]. *)
Fixpoint loaded_rows (i : Z) (flag : option Z) (df : list Rate.t)
  : list StoredRow.t :=
  match df with
  | [] => []
  | r :: rest =>
      row_of_values i flag (mkValues (Strftime.format (Rate.time r)) r None)
        :: loaded_rows (i + 1) flag rest
  end.

(** The table the bulk loader works on. *)
Definition series_table (db : DB) (name : string) : Table :=
  match db !! name with
  | Some tbl => tbl
  | None => new_table
  end.

(** [clamp(x, lo, hi)] of the specification. *)
Definition clamp (x lo hi : Q) : Q := Qmax lo (Qmin hi x).

(** The periods the configured labels resolve to, and the finest of them. *)
Definition resolves (label : string) : Prop :=
  exists r, get_timeframe_seconds label = Ok r.

Definition period_of (label : string) (s : Z) : Prop :=
  get_timeframe_seconds label = Ok (Some s).

Definition finest_period (timeframes : list string) (F : Z) : Prop :=
  (exists label, label ∈ timeframes /\ period_of label F) /\
  forall label s, label ∈ timeframes -> period_of label s -> F <= s.

(** The nominal duration of each catalog period, in seconds. *)
Definition catalog_seconds (c : mt5_timeframe) : Z :=
  match c with
  | TIMEFRAME_M1 => 60 | TIMEFRAME_M2 => 120 | TIMEFRAME_M3 => 180
  | TIMEFRAME_M4 => 240 | TIMEFRAME_M5 => 300 | TIMEFRAME_M6 => 360
  | TIMEFRAME_M10 => 600 | TIMEFRAME_M12 => 720 | TIMEFRAME_M15 => 900
  | TIMEFRAME_M20 => 1200 | TIMEFRAME_M30 => 1800
  | TIMEFRAME_H1 => 3600 | TIMEFRAME_H2 => 7200 | TIMEFRAME_H3 => 10800
  | TIMEFRAME_H4 => 14400 | TIMEFRAME_H6 => 21600 | TIMEFRAME_H8 => 28800
  | TIMEFRAME_H12 => 43200
  | TIMEFRAME_D1 => 86400 | TIMEFRAME_W1 => 604800
  | TIMEFRAME_MN1 => 2592000
  end.

(** ** The scenarios of the specification

    One series, ["EURUSD"] at ["M1"], its table created empty by
    [init_database]; the terminal returns a fixed window. *)
Module Scenario.

Definition bar (t : Z) (price : float) : Rate.t :=
  Rate.mk t price price price price 1 (Some 0) (Some 0).

Definition terminal (window : list Rate.t) : Terminal :=
  mkTerminal (fun _ => true) (fun _ _ _ _ => Some window).

Definition empty_db : DB := {[ "EURUSD_M1" := mkTable true 1 [] ]}.

Definition reconcile (window : list Rate.t) (now : Z) (conn : option DB)
  : result (option DB * Z) :=
  update_database (terminal window) now conn "EURUSD" TIMEFRAME_M1 "M1"
    default_lookback.

Definition window1 : list Rate.t := [bar 100 1.125; bar 160 1.25].
Definition window2 : list Rate.t := [bar 160 1.5; bar 220 1.75].

(** The stored form of a scenario bar. *)
Definition row (i t : Z) (price : float) (flag : Z) : StoredRow.t :=
  StoredRow.mk i (Strftime.format t) t (Some price) (Some price)
    (Some price) (Some price) 1 0 0 (Some flag).

Definition db_of (tbl : Table) : DB := {[ "EURUSD_M1" := tbl ]}.

(** The table after the first cycle (reference time 165), after the second
    (reference time 225) and after the third (reference time 226). *)
Definition table1 : Table :=
  mkTable true 3 [row 1 100 1.125 1; row 2 160 1.25 0].

Definition table2 : Table :=
  mkTable true 4 [row 1 100 1.125 1; row 2 160 1.5 1; row 3 220 1.75 0].

(** A window of [n] one-minute bars starting at [start]. *)
Definition minute_bars (start : Z) (n : nat) : list Rate.t :=
  (fun i => bar (start + 60 * Z.of_nat i) 1.5) <$> seq 0 n.

End Scenario.

(** * The rest of the three programs *)

(** ** Labels and identifiers *)

(** [get_timeframe_name]: the table from identifiers back to labels.  Its
    keys are all the identifiers of the terminal library, so the default
    ["Unknown_..."] of the lookup is never taken on one of them. *)
Definition get_timeframe_name (timeframe : mt5_timeframe) : string :=
  match timeframe with
  | TIMEFRAME_M1 => "M1" | TIMEFRAME_M2 => "M2" | TIMEFRAME_M3 => "M3"
  | TIMEFRAME_M4 => "M4" | TIMEFRAME_M5 => "M5" | TIMEFRAME_M6 => "M6"
  | TIMEFRAME_M10 => "M10" | TIMEFRAME_M12 => "M12" | TIMEFRAME_M15 => "M15"
  | TIMEFRAME_M20 => "M20" | TIMEFRAME_M30 => "M30"
  | TIMEFRAME_H1 => "H1" | TIMEFRAME_H2 => "H2" | TIMEFRAME_H3 => "H3"
  | TIMEFRAME_H4 => "H4" | TIMEFRAME_H6 => "H6" | TIMEFRAME_H8 => "H8"
  | TIMEFRAME_H12 => "H12"
  | TIMEFRAME_D1 => "D1" | TIMEFRAME_W1 => "W1" | TIMEFRAME_MN1 => "MN1"
  end.

(** The loop of both [main]s over [config["timeframes"]]: a label with an
    identifier is kept with it, any other label is skipped with a
    warning. *)
Fixpoint configured_timeframes (timeframe_strings : list string)
  : list (mt5_timeframe * string) :=
  match timeframe_strings with
  | [] => []
  | tf_str :: rest =>
      match get_timeframe_constant tf_str with
      | Some tf_const => (tf_const, tf_str) :: configured_timeframes rest
      | None => configured_timeframes rest
      end
  end.

(** ** Table creation: [init_database] *)

(** [init_database] either returns or lets an [sqlite3.OperationalError]
    escape; neither [main] catches it. *)
Inductive ddl_result : Type :=
| Initialized (conn : option DB)
| OperationalError.

(** [CREATE TABLE IF NOT EXISTS "<name>" (...)] followed by
    [CREATE INDEX IF NOT EXISTS idx_<name>_datetime ON "<name>" (datetime)];
    [None] is the error.  The first statement fails on a reserved name
    and, for a table that is not there yet, when an index has the name;
    the second fails when its unquoted name is no identifier and when a
    table has the name.  Every table of the database has the index the
    programs create with it.  Names are looked up as they are written, as
    everywhere in this model of the database, whereas SQLite folds their
    ASCII case: the model is that of databases and configurations in which
    no two names differ by case only. *)
Definition create_series_table (has_flag : bool) (name : string) (db : DB)
  : option DB :=
  if reserved_name name then None
  else
    let index_is_table := bool_decide (is_Some (db !! index_name name)) in
    match db !! name with
    | Some _ =>
        if negb (identifier_safe name) || index_is_table then None
        else Some db
    | None =>
        if bool_decide (Exists (fun table => name = index_name table)
                          (map_to_list db).*1)
        then None
        else if negb (identifier_safe name) || index_is_table then None
        else Some (<[name := mkTable has_flag 1 []]> db)
    end.

Fixpoint create_timeframes (has_flag : bool) (symbol : string)
    (timeframes : list string) (db : DB) : option DB :=
  match timeframes with
  | [] => Some db
  | timeframe :: rest =>
      db' ← create_series_table has_flag (table_name symbol timeframe) db;
      create_timeframes has_flag symbol rest db'
  end.

Fixpoint create_symbols (has_flag : bool) (symbols timeframes : list string)
    (db : DB) : option DB :=
  match symbols with
  | [] => Some db
  | symbol :: rest =>
      db' ← create_timeframes has_flag symbol timeframes db;
      create_symbols has_flag rest timeframes db'
  end.

(** [init_database] of the live updater: tables with the [is_completed]
    column. *)
Definition init_database (conn : option DB) (symbols timeframes : list string)
  : ddl_result :=
  match conn with
  | None => Initialized None
  | Some db =>
      match create_symbols true symbols timeframes db with
      | Some db' => Initialized (Some db')
      | None => OperationalError
      end
  end.

(** ** The bulk loader program *)

Module AutoTrader.

(** Its [init_database]: tables without the [is_completed] column. *)
Definition init_database (conn : option DB)
    (symbols timeframes : list string) : ddl_result :=
  match conn with
  | None => Initialized None
  | Some db =>
      match create_symbols false symbols timeframes db with
      | Some db' => Initialized (Some db')
      | None => OperationalError
      end
  end.

(** [download_data]: [None] unless the symbol can be selected and the
    terminal returns at least one rate. *)
Definition download_data (mt5 : Terminal) (symbol : string)
    (timeframe : mt5_timeframe) : option (list Rate.t) :=
  if negb (symbol_select mt5 symbol) then None
  else
    match copy_rates_from_pos mt5 symbol timeframe 0 99999 with
    | None | Some [] => None
    | Some rates => Some rates
    end.

(** The loops of [main] over symbols and timeframes, with the two running
    totals. *)
Fixpoint load_timeframes (mt5 : Terminal) (conn : option DB)
    (symbol : string) (timeframes : list (mt5_timeframe * string))
    (totals : Z * Z) : result (option DB * (Z * Z)) :=
  match timeframes with
  | [] => Ok (conn, totals)
  | (tf_const, tf_str) :: rest =>
      let data := download_data mt5 symbol tf_const in
      '(conn', totals') ←
        match data with
        | Some _ =>
            '(conn', (downloaded, inserted)) ←
              save_to_database conn symbol tf_const tf_str data;
            Ok (conn', (totals.1 + downloaded, totals.2 + inserted))
        | None => Ok (conn, totals)
        end;
      load_timeframes mt5 conn' symbol rest totals'
  end.

Fixpoint load_symbols (mt5 : Terminal) (conn : option DB)
    (symbols : list string) (timeframes : list (mt5_timeframe * string))
    (totals : Z * Z) : result (option DB * (Z * Z)) :=
  match symbols with
  | [] => Ok (conn, totals)
  | symbol :: rest =>
      '(conn', totals') ←
        load_timeframes mt5 conn symbol timeframes totals;
      load_symbols mt5 conn' rest timeframes totals'
  end.

(** [main] from the open connection on: the labels are filtered, the
    tables created, the series loaded.  [None] is the
    [sqlite3.OperationalError] of [init_database], which [main] does not
    catch, no more than the [OverflowError] of a load. *)
Definition main (mt5 : Terminal) (db : DB)
    (symbols timeframe_strings : list string)
  : option (result (option DB * (Z * Z))) :=
  let timeframes := configured_timeframes timeframe_strings in
  match init_database (Some db) symbols timeframes.*2 with
  | Initialized conn => Some (load_symbols mt5 conn symbols timeframes (0, 0))
  | OperationalError => None
  end.

End AutoTrader.

(** ** The other endpoints of the read API *)

(** [str.split('_')] and ['_'.join]. *)
Fixpoint split (sep : ascii) (s : string) : list string :=
  match s with
  | EmptyString => [EmptyString]
  | String c s' =>
      if Ascii.eqb c sep then EmptyString :: split sep s'
      else match split sep s' with
           | part :: parts => String c part :: parts
           | [] => [String c EmptyString]
           end
  end.

Fixpoint join (sep : ascii) (parts : list string) : string :=
  match parts with
  | [] => EmptyString
  | [part] => part
  | part :: rest => part +:+ String sep (join sep rest)
  end.

(** [parts[0]] and ['_'.join(parts[1:])] of a table name with at least two
    parts. *)
Definition name_parts (table : string) : option (string * string) :=
  match split "_" table with
  | symbol :: (_ :: _) as rest => Some (symbol, join "_" rest)
  | _ => None
  end.

(** [/symbols]: the first parts, as a sorted list without repetition. *)
Definition get_symbols (db : DB) : list string :=
  let symbols : gset string :=
    list_to_set (omap (fun table => fst <$> name_parts table)
                   (master_tables db)) in
  merge_sort String.le (elements symbols).

(** [/timeframes]: the remainders of the tables of a symbol, or 404. *)
Definition get_timeframes (db : DB) (symbol : string)
  : http (list string) :=
  let timeframes :=
    omap (fun table =>
            match name_parts table with
            | Some (s, timeframe) =>
                if String.eqb s symbol then Some timeframe else None
            | None => None
            end)
         (master_tables db) in
  match timeframes with
  | [] => Status 404
  | _ => Body timeframes
  end.

(** The response model [CandleData]: every field is required, so a row
    without a completion flag, or with a NULL price, does not pass the
    validation of the response.  The model has no [id]. *)
Module CandleData.
Record t : Type := mk {
  datetime : string;
  time : Z;
  open : float;
  high : float;
  low : float;
  close : float;
  tick_volume : Z;
  spread : Z;
  real_volume : Z;
  is_completed : Z
}.
End CandleData.

Definition candle_data (r : StoredRow.t) : option CandleData.t :=
  open ← StoredRow.open r;
  high ← StoredRow.high r;
  low ← StoredRow.low r;
  close ← StoredRow.close r;
  flag ← StoredRow.is_completed r;
  Some (CandleData.mk (StoredRow.datetime r) (StoredRow.time r)
          open high low close (StoredRow.tick_volume r) (StoredRow.spread r)
          (StoredRow.real_volume r) flag).

(** [/candles], with [limit] declared as [Query(default=100, le=100000)]:
    [SELECT * FROM t WHERE ... ORDER BY time DESC LIMIT ?], the rows as
    they are fetched, returned through [response_model=List[CandleData]].
    The filters are those of [/ohlc]. *)
Definition get_candles (db : DB) (symbol timeframe : string)
    (start_time end_time : option string) (limit : Z)
    (completed_only : bool) : http (list CandleData.t) :=
  if 100000 <? limit then Status 422
  else
    match find_table db (table_name symbol timeframe) with
    | Missing => Status 404
    | Internal => Status 500
    | Series tbl =>
        match select_ohlc tbl start_time end_time completed_only limit with
        | None => Status 500
        | Some rows =>
            match mapM candle_data rows with
            | Some result => Body result
            | None => Status 500
            end
        end
    end.

(** [/latest]: [SELECT * FROM t ORDER BY time DESC LIMIT 1], returned
    through [response_model=CandleData]. *)
Definition get_latest_candle (db : DB) (symbol timeframe : string)
  : http CandleData.t :=
  match find_table db (table_name symbol timeframe) with
  | Missing => Status 404
  | Internal => Status 500
  | Series tbl =>
      match sql_limit 1 (merge_sort time_desc (rows tbl)) with
      | [] => Status 404
      | row :: _ =>
          match candle_data row with
          | Some result => Body result
          | None => Status 500
          end
      end
  end.

(** [/info].  [symbols_dict] is a Python dict, which keeps the order in
    which its keys were inserted: a list of pairs with distinct keys. *)
Fixpoint add_timeframe (symbol timeframe : string)
    (symbols_dict : list (string * list string))
  : list (string * list string) :=
  match symbols_dict with
  | [] => [(symbol, [timeframe])]
  | (s, timeframes) :: rest =>
      if String.eqb s symbol then (s, (timeframes ++ [timeframe])%list) :: rest
      else (s, timeframes) :: add_timeframe symbol timeframe rest
  end.

Definition time_asc (r1 r2 : StoredRow.t) : Prop :=
  StoredRow.time r1 <= StoredRow.time r2.

#[export] Instance time_asc_dec r1 r2 : Decision (time_asc r1 r2) :=
  Z_le_dec (StoredRow.time r1) (StoredRow.time r2).

(** The tables of [sqlite_master] with what they hold: the internal table
    first, which has one row for every table that has had a row inserted,
    then the series tables.  No statement of the programs deletes a
    row. *)
Definition master_entries (db : DB) : list (string * option Table) :=
  if decide (db = ∅) then []
  else ("sqlite_sequence", None)
       :: ((fun p => (p.1, Some p.2)) <$> map_to_list db).

Definition sequence_rows (db : DB) : Z :=
  Z.of_nat (length (filter (fun p => rows p.2 <> []) (map_to_list db))).

(** The three statements run on a table inside the [try]: the count, and
    for a table with rows the two [ORDER BY time ... LIMIT 1] queries,
    which fail on the internal table. *)
Definition count_rows (db : DB) (entry : string * option Table) : Z :=
  match entry.2 with
  | Some tbl => Z.of_nat (length (rows tbl))
  | None => sequence_rows db
  end.

Definition oldest_newest (entry : string * option Table)
  : option (string * string) :=
  match entry.2 with
  | Some tbl =>
      match merge_sort time_asc (rows tbl), merge_sort time_desc (rows tbl)
      with
      | oldest :: _, newest :: _ =>
          Some (StoredRow.datetime oldest, StoredRow.datetime newest)
      | _, _ => None
      end
  | None => None
  end.

Module DatabaseInfo.
Record t : Type := mk {
  symbols : list (string * list string);
  total_tables : Z;
  total_candles : Z;
  oldest_candle : option string;
  newest_candle : option string
}.
End DatabaseInfo.

Definition get_database_info (db : DB) : DatabaseInfo.t :=
  let tables := master_entries db in
  let symbols_dict :=
    foldl (fun d table =>
             match name_parts table with
             | Some (symbol, timeframe) => add_timeframe symbol timeframe d
             | None => d
             end)
      [] tables.*1 in
  let '(total_candles, oldest_datetime, newest_datetime) :=
    foldl (fun '(total, oldest_datetime, newest_datetime) table =>
             let count := count_rows db table in
             let total := total + count in
             if 0 <? count then
               match oldest_newest table with
               | Some (oldest, newest) =>
                   (total,
                    match oldest_datetime with
                    | Some d => if String.ltb oldest d then Some oldest
                                else Some d
                    | None => Some oldest
                    end,
                    match newest_datetime with
                    | Some d => if String.ltb d newest then Some newest
                                else Some d
                    | None => Some newest
                    end)
               | None => (total, oldest_datetime, newest_datetime)
               end
             else (total, oldest_datetime, newest_datetime))
      (0, None, None) tables in
  DatabaseInfo.mk symbols_dict (Z.of_nat (length tables)) total_candles
    oldest_datetime newest_datetime.

(** ** Notions used in the further statements *)

(** What a successful creation leaves: the old tables as they were, and a
    fresh empty table for every pair that had none. *)
Definition created_from (has_flag : bool) (pairs : list (string * string))
    (db db' : DB) : Prop :=
  (forall name tbl, db !! name = Some tbl -> db' !! name = Some tbl) /\
  (forall p, p ∈ pairs -> is_Some (db' !! table_name p.1 p.2)) /\
  (forall name tbl, db' !! name = Some tbl ->
     db !! name = Some tbl \/
     (db !! name = None /\ tbl = mkTable has_flag 1 [] /\
      exists p, p ∈ pairs /\ name = table_name p.1 p.2)).

(** The pairs [init_database] goes through, in its order. *)
Definition all_pairs (symbols timeframes : list string)
  : list (string * string) :=
  symbols ≫= fun symbol => (fun tf => (symbol, tf)) <$> timeframes.

(** The identity of the stored rows: row id and key, in table order. *)
Definition identities (tbl : Table) : list (Z * string) :=
  (fun r => (StoredRow.id r, StoredRow.datetime r)) <$> rows tbl.

(** The name of a series table as the two [main]s form it: a symbol and
    a label of the catalog. *)
Definition series_name (name : string) : Prop :=
  exists symbol label,
    name = table_name symbol label /\ is_Some (get_timeframe_constant label).


Fixpoint last_char (s : string) : option ascii :=
  match s with
  | EmptyString => None
  | String c s' =>
      match last_char s' with
      | Some c' => Some c'
      | None => Some c
      end
  end.

(** What a successful creation settles for its pairs: each name can be
    created, and no table of the result has the name of its index. *)
Definition settled (pairs : list (string * string)) (db db' : DB) : Prop :=
  (forall p, p ∈ pairs ->
     identifier_safe (table_name p.1 p.2) = true /\
     reserved_name (table_name p.1 p.2) = false /\
     db' !! index_name (table_name p.1 p.2) = None) /\
  (forall table, is_Some (db !! table) ->
     db !! index_name table = None -> db' !! index_name table = None).

(** A database in which every stored row is kept as it is and in place:
    the tables of [db] are tables of [db'] with the same columns, and
    their rows come, unchanged and in order, before any added row. *)
Definition appended (db db' : DB) : Prop :=
  forall name tbl, db !! name = Some tbl ->
    exists tbl' added,
      db' !! name = Some tbl' /\
      rows tbl' = (rows tbl ++ added)%list /\
      has_is_completed tbl' = has_is_completed tbl.

(** A database in which every stored row keeps its identity: the same
    tables, with the same columns, and the ids and keys of their rows in
    place before those of any added row. *)
Definition extended (db db' : DB) : Prop :=
  forall name,
    match db !! name with
    | None => db' !! name = None
    | Some tbl =>
        exists tbl' added,
          db' !! name = Some tbl' /\
          identities tbl' = (identities tbl ++ added)%list /\
          has_is_completed tbl' = has_is_completed tbl
    end.

Fixpoint contains (c : ascii) (s : string) : bool :=
  match s with
  | EmptyString => false
  | String c' s' => Ascii.eqb c' c || contains c s'
  end.

(** A database every table of which has the completion column and a flag
    in every row, as the live updater writes them. *)
Definition flagged (tbl : Table) : Prop :=
  has_is_completed tbl = true /\
  Forall (fun r => is_Some (StoredRow.is_completed r)) (rows tbl).

Definition served (db : DB) : Prop :=
  forall name tbl, db !! name = Some tbl -> flagged tbl.



(** The number of stored candles. *)
Definition stored_rows (db : DB) : Z :=
  Z.of_nat (sum_list_with (fun p => length (rows p.2)) (map_to_list db)).

(** The value of a key of [symbols_dict]. *)
Fixpoint dict_lookup (symbols_dict : list (string * list string))
    (symbol : string) : option (list string) :=
  match symbols_dict with
  | [] => None
  | (s, timeframes) :: rest =>
      if String.eqb s symbol then Some timeframes
      else dict_lookup rest symbol
  end.

(** The labels [/timeframes] collects for a symbol from a list of
    tables. *)
Definition timeframes_of (symbol : string) (tables : list string)
  : list string :=
  omap (fun table =>
          match name_parts table with
          | Some (s, timeframe) =>
              if String.eqb s symbol then Some timeframe else None
          | None => None
          end)
       tables.

(** * Properties *)

(** ** Rendering of timestamps is injective on the represented range *)

Module StrftimeFacts.
Import Strftime.

Lemma digit_inj a b :
  0 <= a <= 9 -> 0 <= b <= 9 -> digit a = digit b -> a = b.
Proof.
  intros Ha Hb H. unfold digit in H.
  apply (f_equal N_of_ascii) in H.
  rewrite !N_ascii_embedding in H by lia. lia.
Qed.

Ltac divmod := Z.div_mod_to_equations; lia.

Lemma pad2_inj a b k k' :
  0 <= a < 100 -> 0 <= b < 100 -> pad2 a k = pad2 b k' -> a = b /\ k = k'.
Proof.
  intros Ha Hb H. unfold pad2 in H. injection H as H1 H2 H3.
  apply digit_inj in H1; [|divmod..].
  apply digit_inj in H2; [|divmod..].
  split; [divmod | assumption].
Qed.

Lemma pad4_inj a b k k' :
  0 <= a < 10000 -> 0 <= b < 10000 ->
  pad4 a k = pad4 b k' -> a = b /\ k = k'.
Proof.
  intros Ha Hb H. unfold pad4 in H. injection H as H1 H2 H3 H4 H5.
  apply digit_inj in H1; [|divmod..].
  apply digit_inj in H2; [|divmod..].
  apply digit_inj in H3; [|divmod..].
  apply digit_inj in H4; [|divmod..].
  split; [divmod | assumption].
Qed.

Lemma yoe_bounds doe :
  0 <= doe < 146097 ->
  let yoe := (doe - doe / 1460 + doe / 36524 - doe / 146096) / 365 in
  let doy := doe - (365 * yoe + yoe / 4 - yoe / 100) in
  0 <= yoe <= 399 /\ 0 <= doy <= 365.
Proof. intros H yoe doy. subst yoe doy. divmod. Qed.

Lemma month_bounds doy :
  0 <= doy <= 365 ->
  let mp := (5 * doy + 2) / 153 in
  let d := doy - (153 * mp + 2) / 5 + 1 in
  0 <= mp <= 11 /\ 1 <= d <= 31.
Proof. intros H mp d. subst mp d. divmod. Qed.

Lemma parts_spec z :
  let p := parts z in
  0 <= yoe p <= 399 /\ 0 <= doy p <= 365 /\ 0 <= mp p <= 11 /\
  1 <= doy p - (153 * mp p + 2) / 5 + 1 <= 31 /\
  z = era p * 146097 + (365 * yoe p + yoe p / 4 - yoe p / 100) + doy p
      - 719468 /\
  civil_from_days z =
    (if month_of (mp p) <=? 2
     then yoe p + era p * 400 + 1 else yoe p + era p * 400,
     month_of (mp p),
     doy p - (153 * mp p + 2) / 5 + 1).
Proof.
  intros p. subst p. unfold parts; cbn [era yoe doy mp].
  set (z' := z + 719468).
  set (e := z' / 146097).
  assert (Hdoe : 0 <= z' - e * 146097 < 146097) by (subst e; divmod).
  set (doe := z' - e * 146097) in *.
  pose proof (yoe_bounds doe Hdoe) as Hy. cbv zeta in Hy.
  set (y := (doe - doe / 1460 + doe / 36524 - doe / 146096) / 365) in *.
  destruct Hy as [Hy Hd].
  pose proof (month_bounds _ Hd) as Hm. cbv zeta in Hm.
  set (dy := doe - (365 * y + y / 4 - y / 100)) in *.
  destruct Hm as [Hm Hdd].
  repeat split; try lia.
Qed.

Lemma month_of_cases m :
  0 <= m <= 11 ->
  (month_of m = m + 3 /\ m < 10) \/ (month_of m = m - 9 /\ 10 <= m).
Proof. intros H. unfold month_of. destruct (m <? 10) eqn:E; lia. Qed.

Lemma civil_from_days_inj z1 z2 :
  civil_from_days z1 = civil_from_days z2 -> z1 = z2.
Proof.
  intros H.
  destruct (parts_spec z1) as (Hy1 & Hd1 & Hm1 & _ & Hz1 & E1).
  destruct (parts_spec z2) as (Hy2 & Hd2 & Hm2 & _ & Hz2 & E2).
  rewrite E1, E2 in H. clear E1 E2.
  destruct (parts z1) as [e1 y1 d1 m1], (parts z2) as [e2 y2 d2 m2].
  cbn [era yoe doy mp] in *.
  apply pair_equal_spec in H as [H Hd].
  apply pair_equal_spec in H as [Hy Hm].
  assert (m1 = m2)
    by (destruct (month_of_cases m1 Hm1), (month_of_cases m2 Hm2); lia).
  subst m2.
  assert (d1 = d2) by lia. subst d2.
  assert (y1 + e1 * 400 = y2 + e2 * 400)
    by (destruct (month_of m1 <=? 2); lia).
  assert (e1 = e2) by lia. subst e2.
  assert (y1 = y2) by lia. subst y2. lia.
Qed.

Lemma civil_range z y m d :
  min_day <= z <= max_day ->
  civil_from_days z = (y, m, d) ->
  0 <= y < 10000 /\ 0 <= m < 100 /\ 0 <= d < 100.
Proof.
  intros Hz H.
  destruct (parts_spec z) as (Hy1 & Hd1 & Hm1 & Hdd & Hz1 & E1).
  rewrite E1 in H. clear E1.
  assert (4 <= era (parts z) <= 5).
  { unfold parts, min_day, max_day in *; cbn [era]. divmod. }
  destruct (parts z) as [e1 y1 d1 m1].
  cbn [era yoe doy mp] in *.
  apply pair_equal_spec in H as [H Hd].
  apply pair_equal_spec in H as [Hy Hm].
  destruct (month_of_cases m1 Hm1); destruct (month_of m1 <=? 2); lia.
Qed.

Lemma sep_inj c s s' : String c s = String c s' -> s = s'.
Proof. intros H. injection H. auto. Qed.

(** Two epoch seconds of the represented range with the same rendering
    are equal. *)
Lemma format_inj t1 t2 :
  pandas_range t1 -> pandas_range t2 -> format t1 = format t2 -> t1 = t2.
Proof.
  unfold pandas_range, format. intros H1 H2 H.
  destruct (civil_from_days (t1 / 86400)) as [[y1 m1] d1] eqn:E1.
  destruct (civil_from_days (t2 / 86400)) as [[y2 m2] d2] eqn:E2.
  apply civil_range in E1 as R1;
    [|unfold min_day, max_day in *; divmod].
  apply civil_range in E2 as R2;
    [|unfold min_day, max_day in *; divmod].
  apply pad4_inj in H as [-> H]; [|lia..]. apply sep_inj in H.
  apply pad2_inj in H as [-> H]; [|lia..]. apply sep_inj in H.
  apply pad2_inj in H as [-> H]; [|lia..]. apply sep_inj in H.
  apply pad2_inj in H as [Hh H]; [|divmod..]. apply sep_inj in H.
  apply pad2_inj in H as [Hm H]; [|divmod..]. apply sep_inj in H.
  apply pad2_inj in H as [Hs _]; [|divmod..].
  assert (t1 / 86400 = t2 / 86400)
    by (apply civil_from_days_inj; congruence).
  divmod.
Qed.

End StrftimeFacts.

(** ** Granularity catalog *)

Lemma timeframe_items_NoDup : NoDup (timeframe_items.*1).
Proof. apply (bool_decide_unpack _). vm_compute. reflexivity. Qed.

Lemma get_timeframe_constant_items label c :
  get_timeframe_constant label = Some c <-> (label, c) ∈ timeframe_items.
Proof.
  unfold get_timeframe_constant, timeframe_dict. symmetry.
  apply elem_of_list_to_map, timeframe_items_NoDup.
Qed.

Lemma get_timeframe_seconds_catalog label c :
  (label, c) ∈ timeframe_items -> c <> TIMEFRAME_MN1 ->
  get_timeframe_seconds label = Ok (Some (catalog_seconds c)).
Proof.
  unfold timeframe_items. intros H Hc.
  repeat (apply elem_of_cons in H as [H|H];
          [injection H as -> ->; first [reflexivity | congruence]|]).
  by apply elem_of_nil in H.
Qed.





(** ** Completion oracle *)



Lemma is_candle_complete_unknown (R T : Z) (label : string) :
  get_timeframe_seconds label = Ok None ->
  is_candle_complete R T label = Ok true.
Proof. intros H. unfold is_candle_complete. rewrite H. reflexivity. Qed.

Lemma is_candle_complete_mono (R1 R2 T : Z) (label : string) :
  R1 <= R2 ->
  is_candle_complete R1 T label = Ok true ->
  is_candle_complete R2 T label = Ok true.
Proof.
  unfold is_candle_complete. intros HR.
  destruct (get_timeframe_seconds label) as [[G|]|e]; cbn; try done.
  intros [= H]. f_equal. apply Z.leb_le. apply Z.leb_le in H. lia.
Qed.

(** ** Interval policy *)

Lemma py_max_Qmax a b : (py_max a b == Qmax a b)%Q.
Proof.
  unfold py_max. destruct (Qle_bool b a) eqn:E.
  - apply Qle_bool_iff in E. symmetry. by apply Q.max_l.
  - assert (~ (b <= a)%Q) by (rewrite <- Qle_bool_iff, E; discriminate).
    symmetry. apply Q.max_r. apply Qlt_le_weak. by apply Qnot_le_lt.
Qed.

(** Every period is a whole number of minutes, so the floor division by
    four of the source is exact. *)
Lemma period_of_divisible label s : period_of label s -> (4 | s).
Proof.
  unfold period_of, get_timeframe_seconds. intros H.
  assert (Hrest :
    (if String.eqb label "D1" then Ok (Some 86400)
     else if String.eqb label "W1" then Ok (Some 604800)
     else if String.eqb label "MN1" then Ok (Some 2592000)
     else Ok None) = Ok (Some s) -> (4 | s)).
  { destruct (String.eqb label "D1"); [intros [= <-]; by exists 21600|].
    destruct (String.eqb label "W1"); [intros [= <-]; by exists 151200|].
    destruct (String.eqb label "MN1"); [intros [= <-]; by exists 648000|].
    discriminate. }
  assert (Hmul : forall rest k, (4 | k) ->
    (n ← PyInt.parse rest; Ok (Some (n * k))) = Ok (Some s) -> (4 | s)).
  { intros rest k [q ->] Hp. destruct (PyInt.parse rest) as [n|]; [|done].
    cbn in Hp. injection Hp as <-. exists (n * q). lia. }
  destruct label as [|a rest]; [by apply Hrest|].
  destruct a as [[] [] [] [] [] [] [] []]; try (by apply Hrest).
  - apply (Hmul rest 60); [by exists 15 | exact H].
  - apply (Hmul rest 3600); [by exists 900 | exact H].
Qed.

(** What the loop computes when no label raises: the least truthy period
    seen so far, starting from [acc]. *)
Lemma min_interval_loop_spec timeframes : forall acc,
  Forall resolves timeframes ->
  exists m, min_interval_loop timeframes acc = Ok m /\
    match m with
    | None => acc = None /\
              forall label s, label ∈ timeframes -> period_of label s -> s = 0
    | Some F =>
        (acc = Some F \/
         exists label, label ∈ timeframes /\ period_of label F /\ F <> 0) /\
        (forall a, acc = Some a -> F <= a) /\
        (forall label s, label ∈ timeframes -> period_of label s ->
                         s <> 0 -> F <= s)
    end.
Proof.
  induction timeframes as [|tf rest IH]; intros acc Hall.
  - exists acc. split; [reflexivity|].
    destruct acc as [a|].
    + split; [by left|]. split; [intros ? [= ->]; lia|].
      intros ? ? Hin. by apply elem_of_nil in Hin.
    + split; [done|]. intros ? ? Hin. by apply elem_of_nil in Hin.
  - apply Forall_cons in Hall as [[r Hr] Hall].
    cbn [min_interval_loop]. rewrite Hr. cbn.
    assert (Hkeep : forall acc',
      (acc' = acc \/ exists s, r = Some s /\ s <> 0 /\ acc' = Some s /\
                                forall a, acc = Some a -> s < a) ->
      (forall s, r = Some s -> s <> 0 ->
                 exists a', acc' = Some a' /\ a' <= s) ->
      exists m, min_interval_loop rest acc' = Ok m /\
        match m with
        | None => acc = None /\
            forall label s, label ∈ tf :: rest -> period_of label s -> s = 0
        | Some F =>
            (acc = Some F \/
             exists label, label ∈ tf :: rest /\ period_of label F /\ F <> 0)
            /\ (forall a, acc = Some a -> F <= a)
            /\ (forall label s, label ∈ tf :: rest -> period_of label s ->
                                s <> 0 -> F <= s)
        end).
    { intros acc' Hacc Hle. destruct (IH acc' Hall) as (m & Hm & Hspec).
      exists m. split; [exact Hm|]. destruct m as [F|].
      - destruct Hspec as (Hfrom & Hbelow & Hrest). split; [|split].
        + destruct Hfrom as [Hfrom|(l & Hl & Hp & Hnz)].
          * destruct Hacc as [->|(s & -> & Hs & -> & _)]; [by left|].
            injection Hfrom as <-. right. exists tf.
            split; [apply elem_of_cons; by left|]. by split.
          * right. exists l. split; [apply elem_of_cons; by right|]. by split.
        + intros a Ha. destruct Hacc as [->|(s & -> & Hs & -> & Hlt)].
          * by apply Hbelow.
          * specialize (Hbelow s eq_refl). specialize (Hlt a Ha). lia.
        + intros l s Hin Hp Hs. apply elem_of_cons in Hin as [->|Hin].
          * unfold period_of in Hp. rewrite Hr in Hp. injection Hp as ->.
            destruct (Hle s eq_refl Hs) as (a' & -> & Ha').
            specialize (Hbelow a' eq_refl). lia.
          * by apply (Hrest l).
      - destruct Hspec as (-> & Hrest).
        destruct Hacc as [<-|(s & _ & _ & [=] & _)].
        split; [done|]. intros l s Hin Hp.
        apply elem_of_cons in Hin as [->|Hin]; [|by apply (Hrest l)].
        unfold period_of in Hp. rewrite Hr in Hp. injection Hp as ->.
        destruct (decide (s = 0)) as [|Hs]; [done|].
        by destruct (Hle s eq_refl Hs) as (a' & [=] & _). }
    destruct r as [s|]; [|apply Hkeep; [by left | done]].
    destruct (s =? 0) eqn:Hz; cbn.
    { apply Hkeep; [by left|]. intros ? [= <-] ?. apply Z.eqb_eq in Hz. lia. }
    apply Z.eqb_neq in Hz.
    destruct acc as [a|]; cbn.
    + destruct (s <? a) eqn:Hlt.
      * apply Z.ltb_lt in Hlt. apply Hkeep.
        -- right. exists s. repeat split; try done. by intros ? [= <-].
        -- intros ? [= <-] _. exists s. split; [done | lia].
      * apply Z.ltb_ge in Hlt. apply Hkeep; [by left|].
        intros ? [= <-] _. exists a. by split.
    + apply Hkeep.
      * right. exists s. repeat split; done.
      * intros ? [= <-] _. exists s. split; [done | lia].
Qed.

Lemma calculate_update_interval_bounds timeframes I :
  calculate_update_interval timeframes = Ok I ->
  (5 # 100 <= I)%Q /\ (I <= 60)%Q.
Proof.
  unfold calculate_update_interval.
  destruct (min_interval_loop timeframes None) as [found|]; [|done].
  cbn. intros [= <-]. rewrite py_max_Qmax. split.
  - apply Q.le_max_l.
  - apply Q.max_lub; [done|].
    change 60%Q with (inject_Z 60). rewrite <- Zle_Qle. apply Z.le_min_l.
Qed.

Lemma clamp_quarter k :
  (py_max (5 # 100) (inject_Z (Z.min 60 k))
   == clamp (inject_Z (4 * k) / 4) (5 # 100) 60)%Q.
Proof.
  rewrite py_max_Qmax. unfold clamp.
  assert (Hk : (inject_Z (4 * k) / 4 == inject_Z k)%Q)
    by (rewrite inject_Z_mult; field).
  rewrite Hk.
  assert (Hmin : (inject_Z (Z.min 60 k) == Qmin 60 (inject_Z k))%Q).
  { destruct (Z.min_spec 60 k) as [[Hlt ->]|[Hle ->]].
    - symmetry. apply Q.min_l. change 60%Q with (inject_Z 60).
      rewrite <- Zle_Qle. lia.
    - symmetry. apply Q.min_r. change 60%Q with (inject_Z 60).
      by rewrite <- Zle_Qle. }
  by rewrite Hmin.
Qed.

(** The interval policy on every list of labels none of which raises: the
    interval is the clamp of a quarter of the finest period. *)
Lemma calculate_update_interval_clamp timeframes F :
  Forall resolves timeframes ->
  (forall label, label ∈ timeframes -> ~ period_of label 0) ->
  finest_period timeframes F ->
  exists I, calculate_update_interval timeframes = Ok I /\
            (5 # 100 <= I)%Q /\ (I <= 60)%Q /\
            (I == clamp (inject_Z F / 4) (5 # 100) 60)%Q.
Proof.
  intros Hall Hnz [(l & Hl & HF) Hleast].
  destruct (min_interval_loop_spec timeframes None Hall) as (m & Hm & Hspec).
  assert (m = Some F) as ->.
  { destruct m as [F'|].
    - destruct Hspec as ([[=]|(l' & Hl' & HF' & Hne)] & _ & Hmin).
      f_equal. apply Z.le_antisymm.
      + apply (Hmin l); [done..|]. intros ->. by apply (Hnz l).
      + by apply (Hleast l').
    - destruct Hspec as [_ Hzero]. specialize (Hzero l F Hl HF). subst F.
      by destruct (Hnz l Hl). }
  eexists. split; [unfold calculate_update_interval; rewrite Hm; reflexivity|].
  cbn beta iota.
  assert (HI : calculate_update_interval timeframes
               = Ok (py_max (5 # 100) (inject_Z (Z.min 60 (F / 4)))))
    by (unfold calculate_update_interval; rewrite Hm; reflexivity).
  destruct (calculate_update_interval_bounds _ _ HI) as [Hlo Hhi].
  split; [exact Hlo|]. split; [exact Hhi|].
  destruct (period_of_divisible l F HF) as [q ->].
  rewrite Z.div_mul by lia. rewrite (Z.mul_comm q 4). apply clamp_quarter.
Qed.

Lemma calculate_update_interval_clamp_example :
  exists I, calculate_update_interval ["H1"; "M5"; "D1"] = Ok I /\
            (5 # 100 <= I)%Q /\ (I <= 60)%Q /\
            (I == clamp (inject_Z 300 / 4) (5 # 100) 60)%Q.
Proof.
  apply calculate_update_interval_clamp.
  - repeat constructor; eexists; reflexivity.
  - intros label Hin.
    repeat (apply elem_of_cons in Hin as [->|Hin]; [discriminate|]).
    by apply elem_of_nil in Hin.
  - split.
    + exists "M5". split; [|reflexivity]. set_solver.
    + intros label s Hin.
      repeat (apply elem_of_cons in Hin as [->|Hin];
              [intros [= <-]; lia|]).
      by apply elem_of_nil in Hin.
Defined.

(** C4 at a configuration that names the monthly period: the prefix test
    for ['M'] sends ["MN1"] to the integer parser, and the interval is not
    computed at all, although ["MN1"] is a catalog label and ["M1"] alone
    would give a finest period of 60 seconds. *)
Theorem calculate_update_interval_MN1 :
  get_timeframe_constant "MN1" = Some TIMEFRAME_MN1 /\
  get_timeframe_seconds "MN1" = Raise ValueError /\
  calculate_update_interval ["M1"] = Ok 15%Q /\
  calculate_update_interval ["M1"; "MN1"] = Raise ValueError.
Proof. repeat split; reflexivity. Qed.

(** ** Scheduler *)

Lemma main_cycle_sleep mt5 clock conn symbols timeframes interval elapsed c :
  main_cycle mt5 clock conn symbols timeframes interval elapsed = Ok c ->
  sleep_time c = py_max (5 # 100) (interval - elapsed)%Q /\
  slept c = (1 # 10)%Q.
Proof.
  unfold main_cycle.
  destruct (update_symbols _ _ _ _ _ _) as [[conn' total]|]; [|done].
  cbn. intros [= <-]. by split.
Qed.

(** C5 at a cycle that took one second of a fifteen-second interval: the
    remaining time is computed (fourteen seconds) but the loop sleeps a
    tenth of a second, whatever the interval and the elapsed time. *)
Theorem main_cycle_sleeps_a_tenth :
  exists c,
    main_cycle (Scenario.terminal []) (fun _ _ => 0) (Some Scenario.empty_db)
      ["EURUSD"] [(TIMEFRAME_M1, "M1")] 15 1 = Ok c /\
    (sleep_time c == Qmax (5 # 100) (15 - 1))%Q /\
    (sleep_time c == 14)%Q /\
    (slept c == 1 # 10)%Q /\
    ~ (slept c == Qmax (5 # 100) (15 - 1))%Q.
Proof.
  eexists. split; [reflexivity|]. cbn. repeat split; done.
Qed.

(** ** Names in the database file *)

Lemma string_length_app s t :
  String.length (s +:+ t) = (String.length s + String.length t)%nat.
Proof.
  induction s as [|c s IH]; [done|].
  change (String c s +:+ t) with (String c (s +:+ t)). cbn. by rewrite IH.
Qed.

Lemma index_name_neq table : table <> index_name table.
Proof.
  intros H. apply (f_equal String.length) in H. unfold index_name in H.
  rewrite !string_length_app in H. cbn in H. lia.
Qed.

Lemma last_char_None s : last_char s = None -> s = "".
Proof. destruct s as [|c s]; [done|]. cbn. by destruct (last_char s). Qed.

Lemma last_char_app s t : t <> "" -> last_char (s +:+ t) = last_char t.
Proof.
  intros Ht. induction s as [|c s IH]; [done|].
  change (String c s +:+ t) with (String c (s +:+ t)).
  cbn [last_char]. rewrite IH. destruct (last_char t) eqn:E; [done|].
  by apply last_char_None in E.
Qed.


Lemma get_timeframe_constant_name label c :
  get_timeframe_constant label = Some c -> get_timeframe_name c = label.
Proof.
  intros H. apply get_timeframe_constant_items in H.
  unfold timeframe_items in H.
  repeat (apply elem_of_cons in H as [H|H];
          [injection H as -> ->; reflexivity|]).
  by apply elem_of_nil in H.
Qed.


Lemma elem_of_tables (db : DB) name :
  name ∈ (map_to_list db).*1 <-> is_Some (db !! name).
Proof.
  rewrite list_elem_of_fmap. split.
  - intros ([k t] & -> & H). apply elem_of_map_to_list in H. by eexists.
  - intros [t H]. exists (name, t). split; [done|].
    by apply elem_of_map_to_list.
Qed.

(** What a successful creation has checked and done. *)
Lemma create_series_table_Some has_flag name db db' :
  create_series_table has_flag name db = Some db' ->
  identifier_safe name = true /\ reserved_name name = false /\
  db' = match db !! name with
        | Some _ => db
        | None => <[name := mkTable has_flag 1 []]> db
        end /\
  db' !! index_name name = None /\
  (forall table, is_Some (db !! table) ->
     db' !! index_name table = db !! index_name table).
Proof.
  unfold create_series_table.
  destruct (reserved_name name); [done|].
  destruct (bool_decide (is_Some (db !! index_name name))) eqn:Hidx.
  { rewrite orb_true_r. destruct (db !! name); [done|]. by case_match. }
  apply bool_decide_eq_false in Hidx.
  assert (Hfree : db !! index_name name = None).
  { destruct (db !! index_name name); [|done]. destruct Hidx. by eexists. }
  rewrite orb_false_r.
  destruct (db !! name) as [t|] eqn:Hname.
  - destruct (identifier_safe name); [|done]. intros [= <-]. by repeat split.
  - destruct (bool_decide (Exists _ _)) eqn:Hex; [done|].
    apply bool_decide_eq_false in Hex.
    destruct (identifier_safe name); [|done]. intros [= <-].
    split; [done|]. split; [done|]. split; [done|]. split.
    + rewrite lookup_insert_ne; [done|]. apply index_name_neq.
    + intros table Htable. rewrite lookup_insert_ne; [done|].
      intros ->. apply Hex. apply Exists_exists. exists table.
      split; [by apply elem_of_tables | done].
Qed.

Lemma elem_of_master_tables (db : DB) name :
  name ∈ master_tables db <->
  db <> ∅ /\ (name = "sqlite_sequence" \/ is_Some (db !! name)).
Proof.
  unfold master_tables. destruct (decide (db = ∅)) as [->|Hne].
  - split; [by intros ?%elem_of_nil | by intros [? _]].
  - rewrite elem_of_cons, elem_of_tables. tauto.
Qed.

Lemma create_series_table_is_Some has_flag name db :
  is_Some (create_series_table has_flag name db) ->
  reserved_name name = false /\ identifier_safe name = true /\
  db !! index_name name = None /\
  (db !! name = None ->
   ~ Exists (fun table => name = index_name table) (map_to_list db).*1).
Proof.
  unfold create_series_table.
  destruct (reserved_name name); [by intros [? ?]|].
  destruct (bool_decide (is_Some (db !! index_name name))) eqn:Hidx.
  { rewrite orb_true_r. destruct (db !! name); [by intros [? ?]|].
    case_match; by intros [? ?]. }
  apply bool_decide_eq_false in Hidx.
  assert (Hfree : db !! index_name name = None).
  { destruct (db !! index_name name); [|done]. destruct Hidx. by eexists. }
  rewrite orb_false_r.
  destruct (db !! name) as [t|] eqn:Hname.
  - destruct (identifier_safe name); [|by intros [? ?]]. by intros _.
  - destruct (bool_decide (Exists _ _)) eqn:Hex; [by intros [? ?]|].
    apply bool_decide_eq_false in Hex.
    destruct (identifier_safe name); [|by intros [? ?]]. by intros _.
Qed.

(** A name that passes for the column [tbl_name] ends with an [e]; the
    name of a series ends with a digit. *)
Lemma master_column_last name :
  starts_nocase "tbl_name" name && (String.length name =? 8)%nat = true ->
  exists c, last_char name = Some c /\ lower c = "e"%char.
Proof.
  intros H. apply andb_true_iff in H as [Hpre Hlen].
  apply Nat.eqb_eq in Hlen.
  do 8 (destruct name as [|? name]; [done|]).
  destruct name; [|done]. cbn in Hpre.
  repeat (apply andb_true_iff in Hpre as [? Hpre]).
  eexists. split; [reflexivity|].
  match goal with H : Ascii.eqb _ (lower ?c) = true |- lower ?c = _ =>
    apply Ascii.eqb_eq in H; by rewrite <- H end.
Qed.

Lemma series_name_last name :
  series_name name ->
  exists c, last_char name = Some c /\ is_Some (PyInt.digit_val c).
Proof.
  intros (symbol & label & -> & [c Hc]).
  unfold table_name. rewrite (last_char_app symbol) by done.
  apply get_timeframe_constant_name in Hc as <-.
  destruct c; vm_compute; eexists; split; try reflexivity; by eexists.
Qed.

Lemma series_name_not_internal name :
  series_name name -> name <> "sqlite_sequence".
Proof.
  intros H ->. apply series_name_last in H as (c & [= <-] & [d Hd]).
  vm_compute in Hd. discriminate.
Qed.

Lemma table_exists_series name db :
  series_name name ->
  table_exists name db = bool_decide (name ∈ master_tables db).
Proof.
  intros Hname. unfold table_exists.
  destruct (starts_nocase _ _ && _) eqn:E; [|done].
  apply master_column_last in E as (ch & Hlast & Hlow).
  apply series_name_last in Hname as (c & Hc & [d Hd]).
  rewrite Hlast in Hc. injection Hc as <-. unfold PyInt.digit_val in Hd.
  destruct ch as [[] [] [] [] [] [] [] []]; vm_compute in Hd, Hlow;
    discriminate.
Qed.

Lemma table_exists_lookup name db :
  series_name name ->
  table_exists name db = bool_decide (is_Some (db !! name)).
Proof.
  intros Hname. rewrite table_exists_series by done.
  apply bool_decide_ext. rewrite elem_of_master_tables. split.
  - intros (_ & [->|?]); [by apply series_name_not_internal in Hname | done].
  - intros [tbl Htbl]. split; [|by right; eexists].
    intros ->. by rewrite lookup_empty in Htbl.
Qed.

Lemma table_exists_false name db :
  table_exists name db = false -> db !! name = None.
Proof.
  unfold table_exists. destruct (starts_nocase _ _ && _).
  - rewrite negb_false_iff, bool_decide_eq_true. unfold master_tables.
    destruct (decide (db = ∅)) as [->|]; [|done]. intros _. apply lookup_empty.
  - rewrite bool_decide_eq_false, elem_of_master_tables. intros H.
    destruct (db !! name) as [tbl|] eqn:Htbl; [|done]. destruct H.
    split; [|right; by eexists]. intros ->. by rewrite lookup_empty in Htbl.
Qed.

(** Every way the [try] block ends: the database is as it was, or the
    table was missing and has been created. *)
Lemma ensure_table_cases name db db1 created :
  ensure_table name db = (db1, created) ->
  db1 = db \/ db !! name = None /\ db1 = <[name := new_table]> db.
Proof.
  unfold ensure_table.
  destruct (table_exists name db) eqn:Hex; [intros [= <- _]; by left|].
  apply table_exists_false in Hex.
  destruct (_ || _); [intros [= <- _]; by left|].
  destruct (_ || _); intros [= <- _]; by right.
Qed.

(** On the name of a series that exists or can be created the block
    succeeds; on the name of a series that is missing and cannot be
    created it fails. *)
Lemma ensure_table_series name db :
  series_name name ->
  is_Some (db !! name) \/ is_Some (create_series_table false name db) ->
  ensure_table name db
  = (match db !! name with
     | Some _ => db
     | None => <[name := new_table]> db
     end, true).
Proof.
  intros Hname Hcr.
  unfold ensure_table. rewrite table_exists_lookup by done.
  destruct (db !! name) as [tbl|] eqn:Htbl.
  - by rewrite bool_decide_eq_true_2.
  - rewrite bool_decide_eq_false_2 by by intros [? ?].
    destruct Hcr as [[? ?]|Hcr]; [done|].
    apply create_series_table_is_Some in Hcr as (Hres & Hsafe & Hidx & Hex).
    rewrite Hres. unfold index_exists.
    rewrite (bool_decide_eq_false_2 (Exists _ _)) by auto.
    rewrite andb_false_r, Hsafe, Hidx. cbn [orb negb].
    rewrite bool_decide_eq_false_2; [done|]. by intros [? ?].
Qed.


(** ** Store operations *)

Lemma lookup_row_None k tbl :
  lookup_row k tbl = None <-> k ∉ StoredRow.datetime <$> rows tbl.
Proof.
  unfold lookup_row. induction (rows tbl) as [|r l IH]; cbn.
  - split; [intros _ H; by apply elem_of_nil in H | done].
  - rewrite not_elem_of_cons.
    destruct (String.eqb (StoredRow.datetime r) k) eqn:E.
    + apply String.eqb_eq in E. split; [done | intros [H _]; congruence].
    + apply String.eqb_neq in E. rewrite IH.
      split; [intros H; split; congruence |].
      by intros [_ H].
Qed.

Lemma lookup_row_Some k tbl r :
  lookup_row k tbl = Some r -> r ∈ rows tbl /\ StoredRow.datetime r = k.
Proof.
  unfold lookup_row. induction (rows tbl) as [|r' l IH]; cbn; [done|].
  destruct (String.eqb (StoredRow.datetime r') k) eqn:E.
  - intros [= ->]. apply String.eqb_eq in E. split; [left | done].
  - intros H. destruct (IH H). split; [by right | done].
Qed.

Lemma lookup_row_elem r tbl :
  NoDup (StoredRow.datetime <$> rows tbl) -> r ∈ rows tbl ->
  lookup_row (StoredRow.datetime r) tbl = Some r.
Proof.
  unfold lookup_row. induction (rows tbl) as [|r' l IH]; cbn.
  - intros _ H. by apply elem_of_nil in H.
  - intros Hnd Hin. apply NoDup_cons in Hnd as [Hr' Hnd].
    destruct (String.eqb (StoredRow.datetime r') (StoredRow.datetime r)) eqn:E.
    + apply String.eqb_eq in E. apply elem_of_cons in Hin as [->|Hin]; [done|].
      destruct Hr'. rewrite E. by apply list_elem_of_fmap_2.
    + apply String.eqb_neq in E. apply elem_of_cons in Hin as [->|Hin]; [done|].
      by apply IH.
Qed.

Lemma has_key_false k tbl : has_key k tbl = false <-> lookup_row k tbl = None.
Proof.
  unfold has_key. rewrite bool_decide_eq_false. symmetry.
  apply lookup_row_None.
Qed.

Lemma find_app_l {A} (f : A -> bool) l1 l2 x :
  find f l1 = Some x -> find f (l1 ++ l2) = Some x.
Proof.
  induction l1 as [|a l1 IH]; cbn; [done|]. destruct (f a); [done | exact IH].
Qed.

Lemma find_app_r {A} (f : A -> bool) l1 l2 :
  find f l1 = None -> find f (l1 ++ l2) = find f l2.
Proof.
  induction l1 as [|a l1 IH]; cbn; [done|]. destruct (f a); [done | exact IH].
Qed.

(** A successful INSERT of a flagged row: the key was free, and it now
    holds the new row; nothing else changes. *)
Lemma sql_insert_Some v tbl c :
  v_is_completed v = Some c -> has_is_completed tbl = true ->
  lookup_row (v_datetime v) tbl = None ->
  sql_insert v tbl
  = Some (mkTable true (next_id tbl + 1)
            (rows tbl ++ [row_of_values (next_id tbl) (Some c) v])).
Proof.
  intros Hc Hcol Hfree. unfold sql_insert.
  apply has_key_false in Hfree. rewrite Hfree, Hc, Hcol. reflexivity.
Qed.

Lemma sql_insert_None v tbl :
  lookup_row (v_datetime v) tbl <> None -> sql_insert v tbl = None.
Proof.
  intros H. unfold sql_insert.
  destruct (has_key (v_datetime v) tbl) eqn:E; [done|].
  by apply has_key_false in E.
Qed.

Lemma lookup_row_snoc k tbl has n r :
  lookup_row k (mkTable has n (rows tbl ++ [r]))
  = match lookup_row k tbl with
    | Some r' => Some r'
    | None => if String.eqb (StoredRow.datetime r) k then Some r else None
    end.
Proof.
  unfold lookup_row. cbn [rows].
  destruct (find _ (rows tbl)) as [r'|] eqn:E.
  - by apply find_app_l.
  - rewrite find_app_r by done. reflexivity.
Qed.

Lemma lookup_row_update k v tbl tbl' :
  sql_update v tbl = Some tbl' ->
  lookup_row k tbl'
  = if String.eqb (v_datetime v) k
    then (fun r => row_of_values (StoredRow.id r) (v_is_completed v) v)
           <$> lookup_row k tbl
    else lookup_row k tbl.
Proof.
  unfold sql_update. destruct (has_is_completed tbl); [|done].
  intros [= <-]. unfold lookup_row. cbn [rows].
  induction (rows tbl) as [|r l IH]; cbn.
  - by destruct (String.eqb _ _).
  - destruct (String.eqb (StoredRow.datetime r) (v_datetime v)) eqn:E1.
    + apply String.eqb_eq in E1. cbn. rewrite E1.
      destruct (String.eqb (v_datetime v) k) eqn:E2; [done|].
      rewrite IH. reflexivity.
    + destruct (String.eqb (StoredRow.datetime r) k) eqn:E2.
      * apply String.eqb_eq in E2. rewrite <- E2.
        apply String.eqb_neq in E1.
        assert (String.eqb (v_datetime v) (StoredRow.datetime r) = false) as ->
          by (apply String.eqb_neq; congruence).
        reflexivity.
      * exact IH.
Qed.

Lemma sql_update_has v tbl tbl' :
  sql_update v tbl = Some tbl' -> has_is_completed tbl' = true.
Proof.
  unfold sql_update. destruct (has_is_completed tbl); [|done].
  by intros [= <-].
Qed.

Lemma sql_update_keys v tbl tbl' :
  sql_update v tbl = Some tbl' ->
  StoredRow.datetime <$> rows tbl' = StoredRow.datetime <$> rows tbl.
Proof.
  unfold sql_update. destruct (has_is_completed tbl); [|done].
  intros [= <-]. cbn [rows]. rewrite <- list_fmap_compose.
  apply list_fmap_ext. intros _ r _. cbn.
  destruct (String.eqb (StoredRow.datetime r) (v_datetime v)) eqn:E; [|done].
  apply String.eqb_eq in E. by rewrite E.
Qed.

(** The dict read before the loop holds the flag of every stored key. *)
Lemma select_existing_lookup tbl d k :
  NoDup (StoredRow.datetime <$> rows tbl) ->
  select_existing tbl = Some d ->
  d !! k = StoredRow.is_completed <$> lookup_row k tbl.
Proof.
  unfold select_existing, lookup_row.
  destruct (has_is_completed tbl); [|done]. intros Hnd [= <-]. revert Hnd.
  induction (rows tbl) as [|r l IH] using rev_ind; intros Hnd; [done|].
  rewrite foldl_app. cbn [foldl].
  rewrite fmap_app in Hnd. apply NoDup_app in Hnd as (Hl & Hr & _).
  specialize (IH Hl).
  destruct (decide (StoredRow.datetime r = k)) as [<-|Hne].
  - rewrite lookup_insert_eq.
    rewrite find_app_r.
    + cbn. by rewrite String.eqb_refl.
    + change (lookup_row (StoredRow.datetime r) (mkTable true 0 l) = None).
      apply lookup_row_None. cbn [rows]. intros Hin. apply (Hr _ Hin). left.
  - rewrite lookup_insert_ne by done. rewrite IH.
    destruct (find _ l) as [r'|] eqn:E.
    + by rewrite (find_app_l _ _ _ _ E).
    + rewrite find_app_r by done. cbn.
      apply String.eqb_neq in Hne. by rewrite Hne.
Qed.

Lemma needs_update_spec e c :
  needs_update e c = true <-> (e = Some 0 \/ e <> Some c).
Proof.
  unfold needs_update. destruct e as [e|]; [|split; [by right | done]].
  rewrite orb_true_iff, negb_true_iff, Z.eqb_eq, Z.eqb_neq.
  split; intros [H|H]; [left; congruence | right; congruence
                       | left; congruence | right; congruence].
Qed.

Lemma spec_outcome_needs persisted c r :
  lookup_row (datetime_str c) persisted = Some r ->
  spec_outcome persisted c
  = if needs_update (StoredRow.is_completed r) (is_completed c)
    then Updated else Untouched.
Proof.
  intros H. unfold spec_outcome. rewrite H.
  destruct (needs_update _ _) eqn:E.
  - apply needs_update_spec in E. by rewrite decide_True.
  - rewrite decide_False; [done|]. rewrite <- needs_update_spec, E. done.
Qed.

(** ** Reconciler *)

Lemma build_frame_map now timeframe_str g rates :
  get_timeframe_seconds timeframe_str = Ok g ->
  build_frame now timeframe_str rates = Ok (candle_of g now <$> rates).
Proof.
  intros Hg. induction rates as [|r rest IH]; [reflexivity|].
  cbn [build_frame]. unfold is_candle_complete at 1. rewrite Hg, IH.
  cbn. unfold candle_of, completed_flag. destruct g as [G|]; reflexivity.
Qed.

Lemma build_frame_raise now timeframe_str e r rest :
  get_timeframe_seconds timeframe_str = Raise e ->
  build_frame now timeframe_str (r :: rest) = Raise e.
Proof.
  intros He. cbn [build_frame]. unfold is_candle_complete. by rewrite He.
Qed.

Lemma build_frame_inv now timeframe_str rates df :
  build_frame now timeframe_str rates = Ok df ->
  rates = [] /\ df = [] \/
  exists g, get_timeframe_seconds timeframe_str = Ok g /\
            df = candle_of g now <$> rates.
Proof.
  intros H. destruct rates as [|r rest]; [cbn in H; left; split; congruence|].
  right. destruct (get_timeframe_seconds timeframe_str) as [g|e] eqn:Hg.
  - exists g. split; [done|].
    rewrite (build_frame_map _ _ g) in H by done. congruence.
  - by rewrite (build_frame_raise _ _ e) in H.
Qed.

Lemma candle_of_flag now timeframe_str g t :
  get_timeframe_seconds timeframe_str = Ok g ->
  is_candle_complete now t timeframe_str
  = Ok (bool_decide (completed_flag g now t = 1)).
Proof.
  intros Hg. unfold is_candle_complete, completed_flag. rewrite Hg. cbn.
  destruct g as [G|]; [|done]. by destruct (t + G <=? now).
Qed.

(** Distinct open times of the represented range have distinct keys. *)
Lemma clean_window_keys g now rates :
  clean_window rates -> NoDup (datetime_str <$> (candle_of g now <$> rates)).
Proof.
  intros [Hnd Hrange]. rewrite <- list_fmap_compose.
  induction rates as [|r rest IH]; [constructor|].
  cbn. apply NoDup_cons in Hnd as [Hr Hnd].
  apply Forall_cons in Hrange as [Hrr Hrange].
  apply NoDup_cons. split; [|by apply IH].
  intros Hin. apply list_elem_of_fmap in Hin as (r' & Heq & Hin').
  cbn in Heq. apply Hr. apply list_elem_of_fmap. exists r'. split; [|done].
  apply StrftimeFacts.format_inj; [done| |done].
  by apply (proj1 (Forall_forall _ _) Hrange).
Qed.

Lemma process_candle_has existing tbl n c tbl' n' :
  has_is_completed tbl = true ->
  process_candle existing (tbl, n) c = (tbl', n') ->
  has_is_completed tbl' = true.
Proof.
  intros Hcol. unfold process_candle.
  destruct (existing !! datetime_str c) as [e|].
  - destruct (needs_update e (is_completed c)); [|by intros [= <- _]].
    destruct (sql_update _ tbl) as [t|] eqn:E; intros [= <- _]; [|done].
    by apply sql_update_has in E.
  - unfold sql_insert. destruct (has_key _ tbl); [by intros [= <- _]|].
    cbn. rewrite Hcol. by intros [= <- _].
Qed.

(** One step of the loop on a table that still agrees with the dict at
    the bar's key. *)
Lemma process_candle_step existing tbl0 tbl n c :
  (forall k, existing !! k = StoredRow.is_completed <$> lookup_row k tbl0) ->
  has_is_completed tbl = true ->
  lookup_row (datetime_str c) tbl = lookup_row (datetime_str c) tbl0 ->
  exists tbl',
    process_candle existing (tbl, n) c
    = (tbl', n + (if writes tbl0 c then 1 else 0)) /\
    (forall k, k <> datetime_str c -> lookup_row k tbl' = lookup_row k tbl) /\
    match spec_outcome tbl0 c with
    | Inserted =>
        exists i, lookup_row (datetime_str c) tbl' = Some (candle_row i c)
    | Updated =>
        exists r, lookup_row (datetime_str c) tbl0 = Some r /\
                  lookup_row (datetime_str c) tbl'
                  = Some (candle_row (StoredRow.id r) c)
    | Untouched =>
        lookup_row (datetime_str c) tbl' = lookup_row (datetime_str c) tbl0
    end.
Proof.
  intros Hdict Hcol Hagree. unfold process_candle.
  rewrite Hdict. unfold writes.
  destruct (lookup_row (datetime_str c) tbl0) as [r|] eqn:Hrow;
    cbn [fmap option_fmap option_map].
  - rewrite (spec_outcome_needs _ _ r Hrow).
    destruct (needs_update _ _) eqn:Hneed.
    + destruct (sql_update (candle_values c) tbl) as [tbl'|] eqn:Hup.
      * exists tbl'. split; [done|]. split.
        -- intros k Hk. rewrite (lookup_row_update _ _ _ _ Hup).
           cbn [v_datetime candle_values].
           apply not_eq_sym, String.eqb_neq in Hk. by rewrite Hk.
        -- exists r. split; [done|].
           rewrite (lookup_row_update _ _ _ _ Hup).
           cbn [v_datetime candle_values].
           rewrite String.eqb_refl, Hagree. reflexivity.
      * unfold sql_update in Hup. by rewrite Hcol in Hup.
    + exists tbl. rewrite Z.add_0_r. repeat split; done.
  - assert (spec_outcome tbl0 c = Inserted) as ->
      by (unfold spec_outcome; by rewrite Hrow).
    rewrite (sql_insert_Some _ _ (is_completed c)) by done.
    eexists. split; [reflexivity|]. split.
    + intros k Hk. rewrite lookup_row_snoc.
      destruct (lookup_row k tbl); [done|].
      cbn [row_of_values StoredRow.datetime v_datetime candle_values].
      apply not_eq_sym, String.eqb_neq in Hk. by rewrite Hk.
    + exists (next_id tbl). rewrite lookup_row_snoc, Hagree.
      cbn [row_of_values StoredRow.datetime v_datetime candle_values].
      by rewrite String.eqb_refl.
Qed.

Lemma count_writes_cons persisted c df :
  count_writes persisted (c :: df)
  = (if writes persisted c then 1 else 0) + count_writes persisted df.
Proof.
  unfold count_writes. destruct (writes persisted c) eqn:E.
  - rewrite filter_cons_True by done. cbn [length]. lia.
  - rewrite filter_cons_False by (rewrite E; done). lia.
Qed.

(** The whole loop over a frame with pairwise distinct keys. *)
Lemma process_candles_fold existing tbl0 :
  (forall k, existing !! k = StoredRow.is_completed <$> lookup_row k tbl0) ->
  forall df tbl n,
    NoDup (datetime_str <$> df) ->
    has_is_completed tbl = true ->
    (forall c, c ∈ df ->
       lookup_row (datetime_str c) tbl = lookup_row (datetime_str c) tbl0) ->
    exists tbl',
      foldl (process_candle existing) (tbl, n) df
      = (tbl', n + count_writes tbl0 df) /\
      has_is_completed tbl' = true /\
      (forall k, k ∉ datetime_str <$> df ->
                 lookup_row k tbl' = lookup_row k tbl) /\
      (forall c, c ∈ df ->
         match spec_outcome tbl0 c with
         | Inserted =>
             exists i, lookup_row (datetime_str c) tbl' = Some (candle_row i c)
         | Updated =>
             exists r, lookup_row (datetime_str c) tbl0 = Some r /\
                       lookup_row (datetime_str c) tbl'
                       = Some (candle_row (StoredRow.id r) c)
         | Untouched =>
             lookup_row (datetime_str c) tbl'
             = lookup_row (datetime_str c) tbl0
         end).
Proof.
  intros Hdict df. induction df as [|c df IH]; intros tbl n Hnd Hcol Hagree.
  - exists tbl. cbn. unfold count_writes. cbn. rewrite Z.add_0_r.
    repeat split; try done. intros c Hc. by apply elem_of_nil in Hc.
  - rewrite fmap_cons in Hnd. apply NoDup_cons in Hnd as [Hc Hnd].
    destruct (process_candle_step existing tbl0 tbl n c Hdict Hcol)
      as (tbl1 & Hstep & Hother & Hout).
    { apply Hagree. left. }
    assert (Hcol1 : has_is_completed tbl1 = true)
      by (eapply process_candle_has; eauto).
    destruct (IH tbl1 (n + (if writes tbl0 c then 1 else 0)) Hnd Hcol1)
      as (tbl' & Hfold & Hcol' & Hrest & Houts).
    { intros c' Hc'. rewrite Hother; [apply Hagree; by right|].
      intros Heq. apply Hc. rewrite <- Heq. by apply list_elem_of_fmap_2. }
    exists tbl'. cbn [foldl]. rewrite Hstep, Hfold, count_writes_cons.
    split; [f_equal; lia|]. split; [done|].
    assert (Hkeep : lookup_row (datetime_str c) tbl'
                    = lookup_row (datetime_str c) tbl1) by by apply Hrest.
    split.
    + intros k Hk. rewrite fmap_cons in Hk.
      apply not_elem_of_cons in Hk as [Hk1 Hk2].
      rewrite Hrest by done. by apply Hother.
    + intros c' Hc'. apply elem_of_cons in Hc' as [->|Hc']; [|by apply Houts].
      rewrite Hkeep. by destruct (spec_outcome tbl0 c).
Qed.

(** The loop leaves with [OverflowError] at the first statement whose
    values do not bind; otherwise it is the fold of the bound loop body. *)
Lemma reconcile_row_bound existing st row :
  reconcile_row existing st row
  = if negb (runs_statement existing row) || binds (candle_values row)
    then Ok (process_candle existing st row)
    else Raise OverflowError.
Proof.
  destruct st as [tbl n].
  unfold reconcile_row, process_candle, runs_statement, execute.
  destruct (existing !! datetime_str row) as [e|];
    [destruct (needs_update e (is_completed row))|];
    cbn [negb orb]; try reflexivity;
    destruct (binds (candle_values row)); reflexivity.
Qed.

Lemma reconcile_rows_bound existing df : forall st,
  reconcile_rows existing st df
  = if rows_bind existing df
    then Ok (foldl (process_candle existing) st df)
    else Raise OverflowError.
Proof.
  unfold rows_bind.
  induction df as [|row df IH]; intros st; [reflexivity|].
  cbn [reconcile_rows forallb foldl]. rewrite reconcile_row_bound.
  destruct (negb _ || _); cbn [mbind result_bind andb]; [apply IH | done].
Qed.

(** The call once the symbol is selected and the fetch is not empty. *)
Lemma update_database_fetched mt5 now db symbol timeframe_const
    timeframe_str lookback rates :
  symbol_select mt5 symbol = true ->
  copy_rates_from_pos mt5 symbol timeframe_const 0 lookback = Some rates ->
  rates <> [] ->
  update_database mt5 now (Some db) symbol timeframe_const timeframe_str
    lookback
  = (df ← build_frame now timeframe_str rates;
     let name := table_name symbol timeframe_str in
     match db !! name ≫= (fun tbl => d ← select_existing tbl; Some (tbl, d))
     with
     | None => Ok (Some db, 0)
     | Some (tbl, existing_candles) =>
         if rows_bind existing_candles df then
           let '(tbl', updated_count) :=
             foldl (process_candle existing_candles) (tbl, 0) df in
           Ok (Some (<[name := tbl']> db), updated_count)
         else Raise OverflowError
     end).
Proof.
  intros Hsel Hrates Hne. unfold update_database. rewrite Hsel, Hrates.
  destruct rates; [done|]. cbn [negb].
  destruct (build_frame _ _ _) as [df|]; [|done]. cbn [mbind result_bind].
  destruct (db !! _ ≫= _) as [[tbl existing]|]; [|done].
  rewrite reconcile_rows_bound.
  destruct (rows_bind existing df); [|done].
  by destruct (foldl _ _ _).
Qed.

(** The call when nothing is fetched. *)
Lemma update_database_idle mt5 now db symbol timeframe_const timeframe_str
    lookback :
  symbol_select mt5 symbol = false \/
  copy_rates_from_pos mt5 symbol timeframe_const 0 lookback = None \/
  copy_rates_from_pos mt5 symbol timeframe_const 0 lookback = Some [] ->
  update_database mt5 now (Some db) symbol timeframe_const timeframe_str
    lookback = Ok (Some db, 0).
Proof.
  intros H. unfold update_database.
  destruct (symbol_select mt5 symbol); [|done]. cbn [negb].
  by destruct H as [H|[->| ->]].
Qed.

(** Every way in which the call returns: nothing is done, or the loop
    runs to its end on the frame, every statement binding its values. *)
Lemma update_database_inv mt5 now db symbol timeframe_const timeframe_str
    lookback conn' n :
  update_database mt5 now (Some db) symbol timeframe_const timeframe_str
    lookback = Ok (conn', n) ->
  conn' = Some db /\ n = 0 \/
  exists rates df tbl existing tbl',
    symbol_select mt5 symbol = true /\
    copy_rates_from_pos mt5 symbol timeframe_const 0 lookback = Some rates /\
    rates <> [] /\
    build_frame now timeframe_str rates = Ok df /\
    db !! table_name symbol timeframe_str = Some tbl /\
    select_existing tbl = Some existing /\
    rows_bind existing df = true /\
    foldl (process_candle existing) (tbl, 0) df = (tbl', n) /\
    conn' = Some (<[table_name symbol timeframe_str := tbl']> db).
Proof.
  destruct (symbol_select mt5 symbol) eqn:Hsel;
    [|rewrite update_database_idle by auto; intros [= <- <-]; by left].
  destruct (copy_rates_from_pos mt5 symbol timeframe_const 0 lookback)
    as [rates|] eqn:Hrates;
    [|rewrite update_database_idle by auto; intros [= <- <-]; by left].
  destruct (decide (rates = [])) as [->|Hne];
    [rewrite update_database_idle by auto; intros [= <- <-]; by left|].
  rewrite (update_database_fetched _ _ _ _ _ _ _ rates) by done.
  destruct (build_frame _ _ _) as [df|] eqn:Hdf; [|done].
  cbn [mbind result_bind].
  destruct (db !! table_name symbol timeframe_str) as [tbl|] eqn:Htbl;
    cbn [mbind option_bind]; [|intros [= <- <-]; by left].
  destruct (select_existing tbl) as [existing|] eqn:Hex;
    cbn [mbind option_bind]; [|intros [= <- <-]; by left].
  destruct (rows_bind existing df) eqn:Hbind; [|done].
  destruct (foldl _ _ _) as [tbl' n'] eqn:Hfold. intros [= <- <-].
  right. by exists rates, df, tbl, existing, tbl'.
Qed.

Lemma sql_integer_int64 z : sql_integer z = true <-> int64 z.
Proof.
  unfold sql_integer, int64. rewrite andb_true_iff, Z.leb_le, Z.ltb_lt. done.
Qed.

Lemma binds_storable v :
  binds v = true <->
  storable (v_rate v) /\
  (forall c, v_is_completed v = Some c -> int64 c).
Proof.
  unfold binds, storable, volumes_fit.
  rewrite !andb_true_iff, !sql_integer_int64.
  assert (Hopt : forall x : option Z,
    int64 (int_or_zero x) <-> forall s, x = Some s -> int64 s).
  { intros [s|]; cbn; [|split; [done | intros _; unfold int64; lia]].
    split; [by intros ? ? [= <-] | auto]. }
  rewrite !Hopt.
  assert (Hflag : match v_is_completed v with
                  | Some c => sql_integer c
                  | None => true
                  end = true <-> forall c, v_is_completed v = Some c -> int64 c).
  { destruct (v_is_completed v) as [c|]; [|done].
    rewrite sql_integer_int64. split; [by intros ? ? [= <-] | auto]. }
  rewrite Hflag. tauto.
Qed.

Lemma flag_int64 g now t : int64 (completed_flag g now t).
Proof.
  unfold completed_flag, int64.
  destruct g as [G|]; [destruct (t + G <=? now)|]; lia.
Qed.

Lemma binds_candle g now r :
  binds (candle_values (candle_of g now r)) = true <-> storable r.
Proof.
  rewrite binds_storable. cbn. split; [by intros [? _]|].
  intros H. split; [done|]. intros c [= <-]. apply flag_int64.
Qed.

Lemma runs_statement_writes existing tbl c :
  (forall k, existing !! k = StoredRow.is_completed <$> lookup_row k tbl) ->
  runs_statement existing c = writes tbl c.
Proof.
  intros Hdict. unfold runs_statement, writes. rewrite Hdict.
  destruct (lookup_row (datetime_str c) tbl) as [r|] eqn:Hrow; cbn.
  - rewrite (spec_outcome_needs _ _ r Hrow). by destruct (needs_update _ _).
  - unfold spec_outcome. by rewrite Hrow.
Qed.

(** The loop runs to its end exactly when every bar it writes is one the
    database holds. *)
Lemma rows_bind_storable existing tbl g now rates :
  (forall k, existing !! k = StoredRow.is_completed <$> lookup_row k tbl) ->
  rows_bind existing (candle_of g now <$> rates) = true <->
  forall r, r ∈ rates -> writes tbl (candle_of g now r) = true -> storable r.
Proof.
  intros Hdict. unfold rows_bind. rewrite forallb_forall.
  split.
  - intros H r Hr Hw. apply (binds_candle g now).
    specialize (H (candle_of g now r)).
    rewrite (runs_statement_writes _ tbl), Hw in H by done.
    apply H. apply list_elem_of_In. by apply list_elem_of_fmap_2.
  - intros H c Hc. apply list_elem_of_In, list_elem_of_fmap in Hc
      as (r & -> & Hr).
    rewrite (runs_statement_writes _ tbl) by done.
    destruct (writes tbl (candle_of g now r)) eqn:Hw; [|done].
    cbn [negb orb]. apply binds_candle. by apply H.
Qed.

(** The reconciler on a clean window, in full: the result, the fate of
    every fetched bar, and the rows it leaves alone. *)
Lemma update_database_spec mt5 now db symbol timeframe_const
    timeframe_str lookback tbl rates df :
  db !! table_name symbol timeframe_str = Some tbl ->
  has_is_completed tbl = true ->
  table_wf tbl ->
  symbol_select mt5 symbol = true ->
  copy_rates_from_pos mt5 symbol timeframe_const 0 lookback = Some rates ->
  clean_window rates ->
  build_frame now timeframe_str rates = Ok df ->
  (forall c, c ∈ df -> writes tbl c = true -> storable (rate c)) ->
  exists tbl',
    update_database mt5 now (Some db) symbol timeframe_const timeframe_str
      lookback
    = Ok (Some (<[table_name symbol timeframe_str := tbl']> db),
          count_writes tbl df) /\
    (forall c, c ∈ df ->
       let k := datetime_str c in
       match lookup_row k tbl with
       | None =>
           spec_outcome tbl c = Inserted /\
           exists i, lookup_row k tbl' = Some (candle_row i c)
       | Some r =>
           if decide (StoredRow.is_completed r = Some 0 \/
                      StoredRow.is_completed r <> Some (is_completed c))
           then spec_outcome tbl c = Updated /\
                lookup_row k tbl' = Some (candle_row (StoredRow.id r) c)
           else spec_outcome tbl c = Untouched /\
                lookup_row k tbl' = Some r
       end) /\
    (forall k, k ∉ datetime_str <$> df ->
               lookup_row k tbl' = lookup_row k tbl).
Proof.
  intros Htbl Hcol [Hnd Hfmt] Hsel Hrates Hclean Hdf Hfit.
  destruct (decide (rates = [])) as [->|Hne].
  { rewrite update_database_idle by auto. cbn in Hdf. injection Hdf as <-.
    exists tbl. rewrite insert_id by done. unfold count_writes. cbn.
    split; [done|]. split; [|done]. intros c Hc. by apply elem_of_nil in Hc. }
  destruct (build_frame_inv _ _ _ _ Hdf) as [[-> _]|(g & Hg & ->)]; [done|].
  rewrite (update_database_fetched _ _ _ _ _ _ _ rates) by done.
  rewrite Hdf. cbn [mbind result_bind]. rewrite Htbl.
  cbn [mbind option_bind].
  destruct (select_existing tbl) as [existing|] eqn:Hex;
    [|unfold select_existing in Hex; by rewrite Hcol in Hex].
  assert (Hbind : rows_bind existing (candle_of g now <$> rates) = true).
  { apply (rows_bind_storable _ tbl).
    - intros k. by apply select_existing_lookup.
    - intros r Hr Hw.
      apply (Hfit (candle_of g now r)); [by apply list_elem_of_fmap_2 | done]. }
  cbn [mbind option_bind]. rewrite Hbind.
  destruct (process_candles_fold existing tbl
              (fun k => select_existing_lookup tbl existing k Hnd Hex)
              (candle_of g now <$> rates) tbl 0
              (clean_window_keys g now rates Hclean) Hcol
              (fun _ _ => eq_refl))
    as (tbl' & Hfold & _ & Hrest & Houts).
  exists tbl'. cbn [mbind option_bind]. rewrite Hfold, Z.add_0_l.
  split; [done|]. split; [|exact Hrest].
  intros c Hc. specialize (Houts c Hc). cbv zeta.
  unfold spec_outcome in *.
  destruct (lookup_row (datetime_str c) tbl) as [r|] eqn:Hrow.
  - destruct (decide _).
    + destruct Houts as (r' & [= <-] & Hr'). by split.
    + by split.
  - by split.
Qed.

(** A call that returns has written only bars the database holds. *)
Lemma update_database_returned mt5 now db symbol timeframe_const
    timeframe_str lookback tbl rates df x :
  db !! table_name symbol timeframe_str = Some tbl ->
  has_is_completed tbl = true ->
  table_wf tbl ->
  symbol_select mt5 symbol = true ->
  copy_rates_from_pos mt5 symbol timeframe_const 0 lookback = Some rates ->
  build_frame now timeframe_str rates = Ok df ->
  update_database mt5 now (Some db) symbol timeframe_const timeframe_str
    lookback = Ok x ->
  forall c, c ∈ df -> writes tbl c = true -> storable (rate c).
Proof.
  intros Htbl Hcol [Hnd Hfmt] Hsel Hrates Hdf Hcall.
  destruct (build_frame_inv _ _ _ _ Hdf) as [[-> ->]|(g & Hg & ->)].
  { intros c Hc. by apply elem_of_nil in Hc. }
  destruct (decide (rates = [])) as [->|Hne].
  { intros c Hc. by apply elem_of_nil in Hc. }
  rewrite (update_database_fetched _ _ _ _ _ _ _ rates) in Hcall by done.
  rewrite Hdf in Hcall. cbn [mbind result_bind] in Hcall.
  rewrite Htbl in Hcall. cbn [mbind option_bind] in Hcall.
  destruct (select_existing tbl) as [existing|] eqn:Hex;
    [|unfold select_existing in Hex; by rewrite Hcol in Hex].
  cbn [mbind option_bind] in Hcall.
  destruct (rows_bind existing _) eqn:Hbind; [|done].
  intros c Hc Hw. apply list_elem_of_fmap in Hc as (r & -> & Hr).
  eapply (proj1 (rows_bind_storable existing tbl g now rates
                   (fun k => select_existing_lookup tbl existing k Hnd Hex)));
    done.
Qed.

Lemma count_writes_split persisted df :
  count_writes persisted df
  = count_outcome Inserted persisted df + count_outcome Updated persisted df.
Proof.
  unfold count_writes, count_outcome, writes.
  induction df as [|c df IH]; [done|].
  rewrite !filter_cons.
  destruct (spec_outcome persisted c) eqn:E;
    repeat (destruct (decide _); try done); cbn [length]; lia.
Qed.

Lemma build_frame_wf now timeframe_str rates df :
  build_frame now timeframe_str rates = Ok df -> Forall candle_wf df.
Proof.
  intros H. destruct (build_frame_inv _ _ _ _ H) as [[_ ->]|(g & _ & ->)].
  - constructor.
  - apply Forall_fmap, Forall_forall. by intros r _.
Qed.

(** The frame row by row: each row carries its bar, the rendering of the
    bar's open time as its key, and the answer of the oracle as its
    flag. *)
Lemma build_frame_rows now timeframe_str rates df :
  build_frame now timeframe_str rates = Ok df ->
  Forall2 (fun c r =>
             rate c = r /\
             datetime_str c = Strftime.format (Rate.time r) /\
             (is_completed c = 0 \/ is_completed c = 1) /\
             is_candle_complete now (Rate.time r) timeframe_str
             = Ok (bool_decide (is_completed c = 1))) df rates.
Proof.
  intros H. destruct (build_frame_inv _ _ _ _ H) as [[-> ->]|(g & Hg & ->)];
    [constructor|].
  apply Forall2_fmap_l, Forall_Forall2_diag, Forall_forall. intros r _.
  cbn. repeat split.
  - unfold completed_flag. destruct g as [G|]; [|by right].
    destruct (_ <=? _); [by right | by left].
  - by apply candle_of_flag.
Qed.

Lemma sql_real_cell x : price_cell x (sql_real x).
Proof.
  unfold price_cell, sql_real. destruct (PrimFloat.is_nan x); [left | right]; done.
Qed.

(** The row written for a frame row holds the bar in all its fields. *)
Lemma candle_row_stores i c :
  candle_wf c ->
  StoredRow.id (candle_row i c) = i /\
  stores (candle_row i c) (rate c) (Some (is_completed c)).
Proof.
  intros Hwf. split; [reflexivity|]. unfold stores, candle_row, row_of_values.
  cbn [StoredRow.datetime StoredRow.time StoredRow.open StoredRow.high
       StoredRow.low StoredRow.close StoredRow.tick_volume StoredRow.spread
       StoredRow.real_volume StoredRow.is_completed candle_values v_rate
       v_datetime].
  repeat split; try apply sql_real_cell; try done.
Qed.

(** C1.  On a series whose table exists with the completion column, and a
    fetched window of pairwise distinct open times in which every bar to
    be written has integers the database holds, [update_database] returns
    normally, and every fetched bar meets exactly one of three outcomes,
    decided on the state persisted before the call: a bar whose key is
    absent is inserted; a bar whose key is present is rewritten in place,
    in all its fields, when the persisted flag is false or differs from
    the fresh one; otherwise its row is left as it was.  The fields of a
    written row are spelled out by [stores]; the fresh flag is the answer
    of the oracle.  Rows of other keys are untouched, and the returned
    count is the number of bars inserted plus the number of bars
    updated. *)
Theorem update_database_outcomes mt5 now db symbol timeframe_const
    timeframe_str lookback tbl rates df :
  db !! table_name symbol timeframe_str = Some tbl ->
  has_is_completed tbl = true ->
  table_wf tbl ->
  symbol_select mt5 symbol = true ->
  copy_rates_from_pos mt5 symbol timeframe_const 0 lookback = Some rates ->
  clean_window rates ->
  build_frame now timeframe_str rates = Ok df ->
  (forall c, c ∈ df -> writes tbl c = true -> storable (rate c)) ->
  exists tbl',
    update_database mt5 now (Some db) symbol timeframe_const timeframe_str
      lookback
    = Ok (Some (<[table_name symbol timeframe_str := tbl']> db),
          count_outcome Inserted tbl df + count_outcome Updated tbl df) /\
    Forall2 (fun c r =>
               rate c = r /\
               datetime_str c = Strftime.format (Rate.time r) /\
               (is_completed c = 0 \/ is_completed c = 1) /\
               is_candle_complete now (Rate.time r) timeframe_str
               = Ok (bool_decide (is_completed c = 1))) df rates /\
    (forall c, c ∈ df ->
       let k := Strftime.format (Rate.time (rate c)) in
       match lookup_row k tbl with
       | None =>
           spec_outcome tbl c = Inserted /\
           exists row, lookup_row k tbl' = Some row /\
                       stores row (rate c) (Some (is_completed c))
       | Some r =>
           if decide (StoredRow.is_completed r = Some 0 \/
                      StoredRow.is_completed r <> Some (is_completed c))
           then spec_outcome tbl c = Updated /\
                exists row, lookup_row k tbl' = Some row /\
                            StoredRow.id row = StoredRow.id r /\
                            stores row (rate c) (Some (is_completed c))
           else spec_outcome tbl c = Untouched /\
                lookup_row k tbl' = Some r
       end) /\
    (forall k, k ∉ (fun r => Strftime.format (Rate.time r)) <$> rates ->
               lookup_row k tbl' = lookup_row k tbl).
Proof.
  intros Htbl Hcol Hwf Hsel Hrates Hclean Hdf Hfit.
  destruct (update_database_spec mt5 now db symbol timeframe_const
              timeframe_str lookback tbl rates df
              Htbl Hcol Hwf Hsel Hrates Hclean Hdf Hfit)
    as (tbl' & Hcall & Houts & Hrest).
  pose proof (build_frame_rows _ _ _ _ Hdf) as Hrows.
  assert (Hkeys : datetime_str <$> df
                  = (fun r => Strftime.format (Rate.time r)) <$> rates).
  { clear -Hrows. induction Hrows as [|c r df rates (_ & Hk & _) _ IH];
      [done|]. cbn. by rewrite Hk, IH. }
  exists tbl'. rewrite <- count_writes_split.
  split; [done|]. split; [done|]. split; [|by rewrite <- Hkeys].
  intros c Hc.
  assert (Hcwf : candle_wf c).
  { by apply (proj1 (Forall_forall _ _) (build_frame_wf _ _ _ _ Hdf)). }
  specialize (Houts c Hc). cbv zeta in *. rewrite <- Hcwf.
  destruct (lookup_row (datetime_str c) tbl) as [r|].
  - destruct (decide _); [|done].
    destruct Houts as [Hout Hrow]. split; [done|].
    eexists. split; [exact Hrow|]. by apply candle_row_stores.
  - destruct Houts as [Hout [i Hrow]]. split; [done|].
    eexists. split; [exact Hrow|]. by apply candle_row_stores.
Qed.

(** ** Key uniqueness *)

Lemma table_wf_unique_times tbl : table_wf tbl -> unique_open_times tbl.
Proof.
  intros [Hnd Hfmt]. unfold unique_open_times.
  apply (NoDup_fmap_1 Strftime.format). rewrite <- list_fmap_compose.
  erewrite list_fmap_ext; [exact Hnd|].
  intros i r Hr. cbn. symmetry.
  apply (proj1 (Forall_forall _ _) Hfmt). by eapply list_elem_of_lookup_2.
Qed.

Lemma sql_insert_wf v tbl tbl' :
  table_wf tbl ->
  v_datetime v = Strftime.format (Rate.time (v_rate v)) ->
  sql_insert v tbl = Some tbl' ->
  table_wf tbl'.
Proof.
  intros [Hnd Hfmt] Hv. unfold sql_insert.
  destruct (has_key (v_datetime v) tbl) eqn:Hkey; [done|].
  apply has_key_false, lookup_row_None in Hkey.
  assert (Hwf : forall has n flag,
    table_wf (mkTable has n
                (rows tbl ++ [row_of_values (next_id tbl) flag v]))).
  { intros has n flag. split; cbn [rows].
    - rewrite fmap_app. apply NoDup_app. split; [done|]. split.
      + intros k Hk Hin. cbn in Hin. apply list_elem_of_singleton in Hin.
        by subst k.
      + cbn. apply NoDup_singleton.
    - apply Forall_app. split; [done|]. by repeat constructor. }
  destruct (v_is_completed v), (has_is_completed tbl);
    try done; intros [= <-]; apply Hwf.
Qed.

Lemma sql_update_wf v tbl tbl' :
  table_wf tbl ->
  v_datetime v = Strftime.format (Rate.time (v_rate v)) ->
  sql_update v tbl = Some tbl' ->
  table_wf tbl'.
Proof.
  intros [Hnd Hfmt] Hv Hup. split.
  - by rewrite (sql_update_keys _ _ _ Hup).
  - unfold sql_update in Hup. destruct (has_is_completed tbl); [|done].
    injection Hup as <-. cbn [rows]. apply Forall_fmap.
    eapply Forall_impl; [exact Hfmt|]. intros r Hr. cbn.
    by destruct (String.eqb (StoredRow.datetime r) (v_datetime v)).
Qed.

Lemma process_candle_wf existing tbl n c tbl' n' :
  table_wf tbl -> candle_wf c ->
  process_candle existing (tbl, n) c = (tbl', n') ->
  table_wf tbl'.
Proof.
  intros Hwf Hc. unfold process_candle.
  destruct (existing !! datetime_str c) as [e|].
  - destruct (needs_update e (is_completed c)); [|by intros [= <- _]].
    destruct (sql_update _ tbl) as [t|] eqn:E; intros [= <- _]; [|done].
    eapply sql_update_wf; [exact Hwf| |exact E]. exact Hc.
  - destruct (sql_insert _ tbl) as [t|] eqn:E; intros [= <- _]; [|done].
    eapply sql_insert_wf; [exact Hwf| |exact E]. exact Hc.
Qed.

Lemma process_candles_wf existing df : forall tbl n tbl' n',
  table_wf tbl -> Forall candle_wf df ->
  foldl (process_candle existing) (tbl, n) df = (tbl', n') ->
  table_wf tbl'.
Proof.
  induction df as [|c df IH]; intros tbl n tbl' n' Hwf Hdf; cbn [foldl].
  - by intros [= <- _].
  - apply Forall_cons in Hdf as [Hc Hdf].
    destruct (process_candle existing (tbl, n) c) as [tbl1 n1] eqn:E.
    apply (IH tbl1 n1); [|done]. by eapply process_candle_wf.
Qed.

Lemma insert_if_absent_wf existing tbl n r tbl' n' :
  table_wf tbl ->
  insert_if_absent existing (tbl, n) r = (tbl', n') ->
  table_wf tbl'.
Proof.
  intros Hwf. unfold insert_if_absent.
  destruct (decide _); [by intros [= <- _]|].
  destruct (sql_insert _ tbl) as [t|] eqn:E; intros [= <- _]; [|done].
  eapply sql_insert_wf; [exact Hwf| |exact E]. reflexivity.
Qed.

Lemma insert_all_wf existing df : forall tbl n tbl' n',
  table_wf tbl ->
  foldl (insert_if_absent existing) (tbl, n) df = (tbl', n') ->
  table_wf tbl'.
Proof.
  induction df as [|c df IH]; intros tbl n tbl' n' Hwf; cbn [foldl].
  - by intros [= <- _].
  - destruct (insert_if_absent existing (tbl, n) c) as [tbl1 n1] eqn:E.
    apply (IH tbl1 n1). by eapply insert_if_absent_wf.
Qed.

Lemma new_table_wf : table_wf new_table.
Proof. split; constructor. Qed.

Lemma update_database_wf mt5 now db symbol timeframe_const timeframe_str
    lookback db' n :
  map_Forall (fun _ tbl => table_wf tbl) db ->
  update_database mt5 now (Some db) symbol timeframe_const timeframe_str
    lookback = Ok (Some db', n) ->
  map_Forall (fun _ tbl => table_wf tbl) db'.
Proof.
  intros Hdb H.
  apply update_database_inv in H
    as [[[= ->] _]|(rates & df & tbl & existing & tbl' & _ & _ & _ & Hdf
                    & Htbl & _ & _ & Hfold & [= ->])]; [done|].
  apply map_Forall_insert_2; [|done].
  eapply process_candles_wf; [by apply (Hdb _ _ Htbl)| |exact Hfold].
  by eapply build_frame_wf.
Qed.

(** The loop of the loader leaves with [OverflowError] at the first INSERT
    whose values do not bind; otherwise it is the fold of the bound loop
    body. *)
Lemma insert_row_bound existing st r :
  insert_row existing st r
  = if bool_decide (Strftime.format (Rate.time r) ∈ existing)
       || binds (mkValues (Strftime.format (Rate.time r)) r None)
    then Ok (insert_if_absent existing st r)
    else Raise OverflowError.
Proof.
  destruct st as [tbl n]. unfold insert_row, insert_if_absent, execute.
  destruct (decide _) as [Hin|Hnot].
  - by rewrite bool_decide_eq_true_2.
  - rewrite bool_decide_eq_false_2 by done. cbn [orb].
    destruct (binds _); [|done]. cbn [mbind result_bind].
    by destruct (sql_insert _ tbl).
Qed.

Lemma insert_rows_bound existing df : forall st,
  insert_rows existing st df
  = if loads_bind existing df
    then Ok (foldl (insert_if_absent existing) st df)
    else Raise OverflowError.
Proof.
  unfold loads_bind.
  induction df as [|r df IH]; intros st; [reflexivity|].
  cbn [insert_rows forallb foldl]. rewrite insert_row_bound.
  destruct (_ || _); cbn [mbind result_bind andb]; [apply IH | done].
Qed.


(** Every way in which the loader returns: nothing is done; or the table
    is created and its index fails; or the loop runs to its end on the
    bars but the last, every INSERT binding its values. *)
Lemma save_to_database_inv db symbol timeframe timeframe_str data conn'
    total inserted :
  save_to_database (Some db) symbol timeframe timeframe_str data
  = Ok (conn', (total, inserted)) ->
  let name := table_name symbol timeframe_str in
  let df := drop_last (default [] data) in
  (conn' = Some db /\ inserted = 0 /\
   (total = 0 \/ total = Z.of_nat (length df))) \/
  (db !! name = None /\ conn' = Some (<[name := new_table]> db) /\
   total = 0 /\ inserted = 0) \/
  (exists tbl tbl',
     df <> [] /\
     (db !! name = Some tbl \/ db !! name = None /\ tbl = new_table) /\
     loads_bind (existing_keys tbl) df = true /\
     foldl (insert_if_absent (existing_keys tbl)) (tbl, 0) df
     = (tbl', inserted) /\
     conn' = Some (<[name := tbl']> db) /\
     total = Z.of_nat (length df)).
Proof.
  intros H name df. subst name df.
  set (name := table_name symbol timeframe_str) in *.
  unfold save_to_database in H.
  destruct data as [[|r0 data]|]; cbn [from_option id].
  1,3: injection H as <- <- <-; left; by auto.
  destruct (drop_last (r0 :: data)) as [|d df] eqn:Hdf.
  { injection H as <- <- <-. left. by auto. }
  fold name in H.
  destruct (ensure_table name db) as [db1 created] eqn:Hens.
  apply ensure_table_cases in Hens as Hcases.
  destruct created; cbn [negb] in H.
  2: { injection H as <- <- <-.
       destruct Hcases as [->|[Hnone ->]]; [left; by auto | right; left; done]. }
  destruct (db1 !! name) as [tbl|] eqn:Htbl.
  2: { injection H as <- <- <-. destruct Hcases as [->|[_ ->]].
       - left. by auto.
       - by rewrite lookup_insert_eq in Htbl. }
  rewrite insert_rows_bound in H.
  destruct (loads_bind (existing_keys tbl) (d :: df)) eqn:Hbind; [|done].
  cbn [mbind result_bind] in H.
  destruct (foldl _ _ _) as [tbl' n'] eqn:Hfold. injection H as <- <- <-.
  right. right. exists tbl, tbl'. split; [done|].
  destruct Hcases as [->|[Hnone ->]].
  - by auto 10.
  - rewrite lookup_insert_eq in Htbl. injection Htbl as <-.
    rewrite insert_insert_eq. by auto 10.
Qed.

(** The loader on the name of a series that exists or can be created. *)
Lemma save_to_database_series db symbol timeframe timeframe_str data :
  is_Some (get_timeframe_constant timeframe_str) ->
  is_Some (db !! table_name symbol timeframe_str) \/
  is_Some (create_series_table false (table_name symbol timeframe_str) db) ->
  save_to_database (Some db) symbol timeframe timeframe_str data
  = let name := table_name symbol timeframe_str in
    let df := drop_last (default [] data) in
    let tbl := series_table db name in
    match df with
    | [] => Ok (Some db, (0, 0))
    | _ =>
        if loads_bind (existing_keys tbl) df then
          let '(tbl', inserted) :=
            foldl (insert_if_absent (existing_keys tbl)) (tbl, 0) df in
          Ok (Some (<[name := tbl']> db), (Z.of_nat (length df), inserted))
        else Raise OverflowError
    end.
Proof.
  intros Hlabel Hcr. cbv zeta. unfold save_to_database, series_table.
  set (name := table_name symbol timeframe_str) in *.
  destruct data as [[|r0 data]|]; cbn [from_option id]; try reflexivity.
  destruct (drop_last (r0 :: data)) as [|d df] eqn:Hdf; [reflexivity|].
  rewrite ensure_table_series by (done || by eexists _, _).
  cbn [negb].
  destruct (db !! name) as [tbl|] eqn:Htbl.
  - rewrite Htbl, insert_rows_bound.
    destruct (loads_bind _ _); [|done]. cbn [mbind result_bind].
    by destruct (foldl _ _ _).
  - rewrite lookup_insert_eq, insert_rows_bound.
    destruct (loads_bind _ _); [|done]. cbn [mbind result_bind].
    destruct (foldl _ _ _). by rewrite insert_insert_eq.
Qed.

Lemma save_to_database_wf db symbol timeframe timeframe_str data db' counts :
  map_Forall (fun _ tbl => table_wf tbl) db ->
  save_to_database (Some db) symbol timeframe timeframe_str data
  = Ok (Some db', counts) ->
  map_Forall (fun _ tbl => table_wf tbl) db'.
Proof.
  intros Hdb H. destruct counts as [total inserted].
  apply save_to_database_inv in H
    as [([= ->] & _)|[(_ & [= ->] & _)
                     |(tbl & tbl' & _ & Htbl & _ & Hfold & [= ->] & _)]].
  - done.
  - apply map_Forall_insert_2; [apply new_table_wf | done].
  - apply map_Forall_insert_2; [|done].
    eapply insert_all_wf; [|exact Hfold].
    destruct Htbl as [Htbl|[_ ->]]; [by apply (Hdb _ _ Htbl)|].
    apply new_table_wf.
Qed.

(** C8.  The UNIQUE key and its agreement with the open time are kept by
    the reconciler and by the bulk loader, in every table of the database;
    hence no two stored bars of a series share an open time. *)
Theorem key_uniqueness_preserved mt5 now db symbol timeframe_const
    timeframe_str lookback data :
  map_Forall (fun _ tbl => table_wf tbl) db ->
  (forall db' n,
     update_database mt5 now (Some db) symbol timeframe_const timeframe_str
       lookback = Ok (Some db', n) ->
     map_Forall (fun _ tbl => table_wf tbl /\ unique_open_times tbl) db') /\
  (forall db' counts,
     save_to_database (Some db) symbol timeframe_const timeframe_str data
     = Ok (Some db', counts) ->
     map_Forall (fun _ tbl => table_wf tbl /\ unique_open_times tbl) db').
Proof.
  intros Hdb. split.
  - intros db' n H. apply update_database_wf in H; [|done].
    intros name tbl Htbl. specialize (H name tbl Htbl). cbn in H.
    split; [done | by apply table_wf_unique_times].
  - intros db' counts H. apply save_to_database_wf in H; [|done].
    intros name tbl Htbl. specialize (H name tbl Htbl). cbn in H.
    split; [done | by apply table_wf_unique_times].
Qed.

(** ** Reconciling the same window again *)

(** What one call does to the table of its series. *)
Lemma update_database_series mt5 now db symbol timeframe_const timeframe_str
    lookback tbl db' n :
  db !! table_name symbol timeframe_str = Some tbl ->
  table_wf tbl ->
  update_database mt5 now (Some db) symbol timeframe_const timeframe_str
    lookback = Ok (Some db', n) ->
  exists tbl',
    db' = <[table_name symbol timeframe_str := tbl']> db /\
    table_wf tbl' /\
    has_is_completed tbl' = has_is_completed tbl.
Proof.
  intros Htbl Hwf H.
  apply update_database_inv in H
    as [[[= ->] _]|(rates & df & tbl0 & existing & tbl' & _ & _ & _ & Hdf
                    & Htbl0 & Hex & _ & Hfold & [= ->])].
  { exists tbl. by rewrite insert_id. }
  rewrite Htbl in Htbl0. injection Htbl0 as <-. revert Hfold.
  generalize n as n'. intros n' Hfold.
  exists tbl'. split; [done|]. split.
  - eapply process_candles_wf; [exact Hwf| |exact Hfold].
    by eapply build_frame_wf.
  - assert (Hcol : has_is_completed tbl = true).
    { unfold select_existing in Hex. by destruct (has_is_completed tbl). }
    rewrite Hcol. clear Hdf Hex Htbl Hwf.
    revert tbl n' Hcol Hfold. generalize 0.
    induction df as [|c df IH]; intros n0 tbl n' Hcol; cbn [foldl].
    + by intros [= <- _].
    + destruct (process_candle existing (tbl, n0) c) as [t1 n1] eqn:E.
      apply IH. by eapply process_candle_has.
Qed.

(** After a call, every fetched bar is stored with the flag computed by
    that call. *)
Lemma update_database_flags mt5 now db symbol timeframe_const timeframe_str
    lookback tbl rates g tbl' n :
  db !! table_name symbol timeframe_str = Some tbl ->
  has_is_completed tbl = true ->
  table_wf tbl ->
  symbol_select mt5 symbol = true ->
  copy_rates_from_pos mt5 symbol timeframe_const 0 lookback = Some rates ->
  clean_window rates ->
  get_timeframe_seconds timeframe_str = Ok g ->
  update_database mt5 now (Some db) symbol timeframe_const timeframe_str
    lookback
  = Ok (Some (<[table_name symbol timeframe_str := tbl']> db), n) ->
  forall r, r ∈ rates ->
    exists row,
      lookup_row (Strftime.format (Rate.time r)) tbl' = Some row /\
      StoredRow.is_completed row = Some (completed_flag g now (Rate.time r)).
Proof.
  intros Htbl Hcol Hwf Hsel Hrates Hclean Hg Hcall r Hr.
  destruct (update_database_spec mt5 now db symbol timeframe_const
              timeframe_str lookback tbl rates (candle_of g now <$> rates)
              Htbl Hcol Hwf Hsel Hrates Hclean (build_frame_map _ _ _ _ Hg)
              (update_database_returned _ _ _ _ _ _ _ _ _ _ _ Htbl Hcol Hwf
                 Hsel Hrates (build_frame_map _ _ _ _ Hg) Hcall))
    as (tbl1 & Hcall1 & Houts & _).
  rewrite Hcall1 in Hcall. injection Hcall as Hdb _.
  assert (tbl1 = tbl') as ->.
  { apply (f_equal (fun m => m !! table_name symbol timeframe_str)) in Hdb.
    rewrite !lookup_insert_eq in Hdb. congruence. }
  specialize (Houts (candle_of g now r) (list_elem_of_fmap_2 _ _ _ Hr)).
  cbn [datetime_str candle_of is_completed] in Houts.
  destruct (lookup_row (Strftime.format (Rate.time r)) tbl) as [row|].
  - destruct (decide _) as [Hd|Hd].
    + destruct Houts as [_ Hrow]. eexists. split; [exact Hrow|reflexivity].
    + destruct Houts as [_ Hrow]. exists row. split; [exact Hrow|].
      destruct (decide (StoredRow.is_completed row
                        = Some (completed_flag g now (Rate.time r))));
        [done|]. destruct Hd. by right.
  - destruct Houts as [_ [i Hrow]]. eexists. split; [exact Hrow|reflexivity].
Qed.

Lemma completed_flag_mono g now1 now2 t :
  now1 <= now2 -> completed_flag g now1 t = 1 -> completed_flag g now2 t = 1.
Proof.
  unfold completed_flag. destruct g as [G|]; [|done].
  intros Hle. destruct (t + G <=? now1) eqn:E1; [|done].
  apply Z.leb_le in E1. intros _.
  destruct (t + G <=? now2) eqn:E2; [done|]. apply Z.leb_gt in E2. lia.
Qed.

Lemma completed_flag_cases g now t :
  completed_flag g now t = 0 \/ completed_flag g now t = 1.
Proof.
  unfold completed_flag. destruct g as [G|]; [|by right].
  destruct (t + G <=? now); auto.
Qed.

Lemma length_filter_fmap_ext {A B} (P : B -> Prop) (Q : A -> Prop)
    `{!forall x, Decision (P x)} `{!forall x, Decision (Q x)}
    (f : A -> B) (l : list A) :
  (forall x, x ∈ l -> P (f x) <-> Q x) ->
  length (filter P (f <$> l)) = length (filter Q l).
Proof.
  induction l as [|x l IH]; intros Hext; [done|].
  rewrite fmap_cons, !filter_cons.
  assert (HPQ : P (f x) <-> Q x) by (apply Hext; left).
  assert (IH' : length (filter P (f <$> l)) = length (filter Q l))
    by (apply IH; intros y Hy; apply Hext; by right).
  destruct (decide (P (f x))), (decide (Q x)); cbn [length]; tauto || lia.
Qed.

(** The first two scenarios of the specification: two inserts, then one
    update and one insert. *)
Example scenario_cycle1 :
  Scenario.reconcile Scenario.window1 165 (Some Scenario.empty_db)
  = Ok (Some (Scenario.db_of Scenario.table1), 2).
Proof. vm_compute. reflexivity. Qed.

Example scenario_cycle2 :
  Scenario.reconcile Scenario.window2 225
    (Some (Scenario.db_of Scenario.table1))
  = Ok (Some (Scenario.db_of Scenario.table2), 2).
Proof. vm_compute. reflexivity. Qed.

(** The third scenario as the specification states it fails on the code:
    with bar 160 persisted complete and bar 220 persisted incomplete, the
    identical fetch at reference time 226 rewrites bar 220 and returns 1. *)
Lemma scenario_cycle3_updates_one :
  (StoredRow.is_completed <$> lookup_row (Strftime.format 160) Scenario.table2)
  = Some (Some 1) /\
  (StoredRow.is_completed <$> lookup_row (Strftime.format 220) Scenario.table2)
  = Some (Some 0) /\
  Scenario.reconcile Scenario.window2 226
    (Some (Scenario.db_of Scenario.table2))
  = Ok (Some (Scenario.db_of Scenario.table2), 1) /\
  ~ exists conn,
      Scenario.reconcile Scenario.window2 226
        (Some (Scenario.db_of Scenario.table2)) = Ok (conn, 0).
Proof.
  assert (H : Scenario.reconcile Scenario.window2 226
                (Some (Scenario.db_of Scenario.table2))
              = Ok (Some (Scenario.db_of Scenario.table2), 1))
    by (vm_compute; reflexivity).
  repeat split; try (vm_compute; reflexivity).
  intros [conn Hc]. rewrite H in Hc. discriminate.
Qed.

(** A bar that is not complete is written, whatever is stored. *)
Lemma writes_incomplete tbl c : is_completed c = 0 -> writes tbl c = true.
Proof.
  intros H. unfold writes, spec_outcome.
  destruct (lookup_row (datetime_str c) tbl) as [r|]; [|done].
  rewrite H. destruct (decide _) as [|Hn]; [done|]. destruct Hn.
  destruct (decide (StoredRow.is_completed r = Some 0)); [by left | by right].
Qed.

Lemma writes_after_pass g now1 now2 tbl1 r row :
  now1 <= now2 ->
  lookup_row (Strftime.format (Rate.time r)) tbl1 = Some row ->
  StoredRow.is_completed row = Some (completed_flag g now1 (Rate.time r)) ->
  writes tbl1 (candle_of g now2 r) = true <->
  completed_flag g now1 (Rate.time r) = 0.
Proof.
  intros Hle Hrow Hflag. unfold writes, spec_outcome.
  cbn [datetime_str candle_of is_completed]. rewrite Hrow, Hflag.
  pose proof (completed_flag_mono g now1 now2 (Rate.time r) Hle) as Hmono.
  destruct (completed_flag_cases g now1 (Rate.time r)) as [H0|H1].
  - rewrite decide_True; [done | left; by rewrite H0].
  - rewrite decide_False; [split; [done | lia]|].
    rewrite H1, (Hmono H1). intros [[=]|Hne]; by apply Hne.
Qed.

Lemma incomplete_at_flag g now timeframe_str r :
  get_timeframe_seconds timeframe_str = Ok g ->
  incomplete_at now timeframe_str r = true <->
  completed_flag g now (Rate.time r) = 0.
Proof.
  intros Hg. unfold incomplete_at. rewrite (candle_of_flag _ _ g) by done.
  destruct (completed_flag_cases g now (Rate.time r)) as [->| ->];
    by vm_compute.
Qed.

(** C2 (as amended).  Reconciling the same window again rewrites exactly
    the bars the first call stored as incomplete: with a wall clock that
    does not go back, the second call returns the number of fetched bars
    whose period had not elapsed at the reference time of the first. *)
Theorem second_reconcile_count mt5 now1 now2 db symbol timeframe_const
    timeframe_str lookback tbl rates conn1 n1 :
  db !! table_name symbol timeframe_str = Some tbl ->
  has_is_completed tbl = true ->
  table_wf tbl ->
  symbol_select mt5 symbol = true ->
  copy_rates_from_pos mt5 symbol timeframe_const 0 lookback = Some rates ->
  clean_window rates ->
  now1 <= now2 ->
  update_database mt5 now1 (Some db) symbol timeframe_const timeframe_str
    lookback = Ok (conn1, n1) ->
  exists conn2,
    update_database mt5 now2 conn1 symbol timeframe_const timeframe_str
      lookback
    = Ok (conn2, count_incomplete now1 timeframe_str rates).
Proof.
  intros Htbl Hcol Hwf Hsel Hrates Hclean Hle Hfirst.
  destruct (decide (rates = [])) as [->|Hne].
  { rewrite update_database_idle in Hfirst by auto.
    injection Hfirst as <- _. exists (Some db).
    by rewrite update_database_idle by auto. }
  assert (exists g, get_timeframe_seconds timeframe_str = Ok g) as [g Hg].
  { rewrite (update_database_fetched _ _ _ _ _ _ _ rates) in Hfirst by done.
    destruct (build_frame now1 timeframe_str rates) as [df|] eqn:Hdf;
      [|done].
    destruct (build_frame_inv _ _ _ _ Hdf) as [[? _]|(g & Hg & _)]; [done|].
    by exists g. }
  pose proof (update_database_returned _ _ _ _ _ _ _ _ _ _ _ Htbl Hcol Hwf
                Hsel Hrates (build_frame_map _ _ _ _ Hg) Hfirst) as Hfit1.
  destruct (update_database_spec mt5 now1 db symbol timeframe_const
              timeframe_str lookback tbl rates (candle_of g now1 <$> rates)
              Htbl Hcol Hwf Hsel Hrates Hclean (build_frame_map _ _ _ _ Hg)
              Hfit1)
    as (tbl1 & Hcall1 & _).
  pose proof (update_database_flags _ _ _ _ _ _ _ _ _ _ _ _
                Htbl Hcol Hwf Hsel Hrates Hclean Hg Hcall1) as Hflags.
  destruct (update_database_series _ _ _ _ _ _ _ _ _ _ Htbl Hwf Hcall1)
    as (tbl1' & Hdb1 & Hwf1 & Hcol1).
  assert (tbl1' = tbl1) as ->.
  { apply (f_equal (fun m => m !! table_name symbol timeframe_str)) in Hdb1.
    rewrite !lookup_insert_eq in Hdb1. congruence. }
  rewrite Hcol in Hcol1. rewrite Hcall1 in Hfirst. injection Hfirst as <- _.
  assert (Hfit2 : forall c, c ∈ candle_of g now2 <$> rates ->
                    writes tbl1 c = true -> storable (rate c)).
  { intros c Hc Hw. apply list_elem_of_fmap in Hc as (r & -> & Hr).
    destruct (Hflags r Hr) as (row & Hrow & Hflag).
    apply (writes_after_pass g now1 now2 tbl1 r row) in Hw; [|done..].
    apply (Hfit1 (candle_of g now1 r)); [by apply list_elem_of_fmap_2|].
    by apply writes_incomplete. }
  destruct (update_database_spec mt5 now2
              (<[table_name symbol timeframe_str := tbl1]> db) symbol
              timeframe_const timeframe_str lookback tbl1 rates
              (candle_of g now2 <$> rates)
              (lookup_insert_eq _ _ _) Hcol1 Hwf1 Hsel Hrates Hclean
              (build_frame_map _ _ _ _ Hg) Hfit2)
    as (tbl2 & Hcall2 & _).
  eexists. rewrite Hcall2. do 2 f_equal.
  unfold count_writes, count_incomplete. f_equal.
  apply length_filter_fmap_ext. intros r Hr.
  destruct (Hflags r Hr) as (row & Hrow & Hflag).
  rewrite (writes_after_pass g now1 now2 tbl1 r row) by done.
  symmetry. by apply incomplete_at_flag.
Qed.

Lemma second_reconcile_count_witness :
  exists conn2,
    Scenario.reconcile Scenario.window2 226
      (Some (Scenario.db_of Scenario.table2))
    = Ok (conn2, count_incomplete 225 "M1" Scenario.window2).
Proof.
  apply (second_reconcile_count (Scenario.terminal Scenario.window2) 225 226
           (Scenario.db_of Scenario.table1) "EURUSD" TIMEFRAME_M1 "M1"
           default_lookback Scenario.table1 Scenario.window2
           (Some (Scenario.db_of Scenario.table2)) 2).
  - reflexivity.
  - reflexivity.
  - split.
    + apply (bool_decide_unpack _). vm_compute. reflexivity.
    + repeat constructor.
  - reflexivity.
  - reflexivity.
  - split.
    + apply (bool_decide_unpack _). vm_compute. reflexivity.
    + repeat constructor; vm_compute; discriminate.
  - lia.
  - vm_compute. reflexivity.
Defined.

Lemma scenario_table1_wf : table_wf Scenario.table1.
Proof.
  split.
  - apply (bool_decide_unpack _). vm_compute. reflexivity.
  - repeat constructor.
Qed.

Lemma scenario_window2_clean : clean_window Scenario.window2.
Proof.
  split.
  - apply (bool_decide_unpack _). vm_compute. reflexivity.
  - repeat constructor; vm_compute; discriminate.
Qed.

Lemma scenario_table1_lookup :
  Scenario.db_of Scenario.table1 !! table_name "EURUSD" "M1"
  = Some Scenario.table1.
Proof. vm_compute. reflexivity. Qed.

Lemma scenario_bar_storable t price : int64 t -> storable (Scenario.bar t price).
Proof.
  intros [? ?]. unfold storable, volumes_fit, int64. cbn.
  repeat split; try lia; simplify_eq; lia.
Qed.

(** The second scenario through the theorem: bar 160 is updated in place
    (it keeps its row id 2), bar 220 is inserted, bar 100 is untouched. *)
Lemma update_database_outcomes_witness : exists tbl',
    Scenario.reconcile Scenario.window2 225
      (Some (Scenario.db_of Scenario.table1))
    = Ok (Some (<["EURUSD_M1" := tbl']> (Scenario.db_of Scenario.table1)), 2)
    /\ (exists row, lookup_row (Strftime.format 160) tbl' = Some row /\
                    StoredRow.id row = 2 /\
                    stores row (Scenario.bar 160 1.5) (Some 1))
    /\ (exists row, lookup_row (Strftime.format 220) tbl' = Some row /\
                    stores row (Scenario.bar 220 1.75) (Some 0))
    /\ lookup_row (Strftime.format 100) tbl'
       = Some (Scenario.row 1 100 1.125 1).
Proof.
  assert (Hframe : build_frame 225 "M1" Scenario.window2
                   = Ok [candle_of (Some 60) 225 (Scenario.bar 160 1.5);
                         candle_of (Some 60) 225 (Scenario.bar 220 1.75)])
    by (vm_compute; reflexivity).
  assert (Hsel : symbol_select (Scenario.terminal Scenario.window2) "EURUSD"
                 = true) by reflexivity.
  assert (Hcol : has_is_completed Scenario.table1 = true) by reflexivity.
  assert (Hfetch : copy_rates_from_pos (Scenario.terminal Scenario.window2)
                     "EURUSD" TIMEFRAME_M1 0 default_lookback
                   = Some Scenario.window2) by reflexivity.
  assert (Hfit : forall c,
    c ∈ [candle_of (Some 60) 225 (Scenario.bar 160 1.5);
         candle_of (Some 60) 225 (Scenario.bar 220 1.75)] ->
    writes Scenario.table1 c = true -> storable (rate c)).
  { intros c Hc _.
    apply elem_of_cons in Hc as [->|Hc];
      [apply scenario_bar_storable; unfold int64; lia|].
    apply list_elem_of_singleton in Hc as ->.
    apply scenario_bar_storable; unfold int64; lia. }
  destruct (update_database_outcomes (Scenario.terminal Scenario.window2) 225
              (Scenario.db_of Scenario.table1) "EURUSD" TIMEFRAME_M1 "M1"
              default_lookback Scenario.table1 Scenario.window2 _
              scenario_table1_lookup Hcol scenario_table1_wf Hsel
              Hfetch scenario_window2_clean Hframe Hfit)
    as (tbl' & Hcall & _ & Houts & Hrest).
  exists tbl'. split; [exact Hcall|].
  pose proof (Houts (candle_of (Some 60) 225 (Scenario.bar 160 1.5))) as H160.
  pose proof (Houts (candle_of (Some 60) 225 (Scenario.bar 220 1.75))) as H220.
  split; [|split].
  - vm_compute in H160. apply H160. left.
  - vm_compute in H220. apply H220. right. left.
  - (rewrite Hrest; [vm_compute; reflexivity|]). intros H.
    (apply elem_of_cons in H as [H|H]; [vm_compute in H; discriminate|]).
    apply elem_of_cons in H as [H|H]; [vm_compute in H; discriminate|].
    by apply elem_of_nil in H.
Defined.

Lemma key_uniqueness_preserved_witness :
  (forall db' n,
     Scenario.reconcile Scenario.window2 225
       (Some (Scenario.db_of Scenario.table1)) = Ok (Some db', n) ->
     map_Forall (fun _ tbl => table_wf tbl /\ unique_open_times tbl) db') /\
  (forall db' counts,
     save_to_database (Some (Scenario.db_of Scenario.table1)) "EURUSD"
       TIMEFRAME_M1 "M1" (Some Scenario.window2) = Ok (Some db', counts) ->
     map_Forall (fun _ tbl => table_wf tbl /\ unique_open_times tbl) db').
Proof.
  apply (key_uniqueness_preserved (Scenario.terminal Scenario.window2) 225
           (Scenario.db_of Scenario.table1) "EURUSD" TIMEFRAME_M1 "M1"
           default_lookback (Some Scenario.window2)).
  apply map_Forall_singleton. exact scenario_table1_wf.
Defined.

(** ** Completion is monotone *)

Lemma sound_later now1 now2 timeframe_str tbl :
  now1 <= now2 -> sound now1 timeframe_str tbl -> sound now2 timeframe_str tbl.
Proof.
  intros Hle [Hwf Hrows]. split; [done|].
  eapply Forall_impl; [exact Hrows|]. intros r [Hrange Hflag].
  split; [done|]. intros H1. eapply is_candle_complete_mono; eauto.
Qed.

Lemma keeps_complete_refl tbl : keeps_complete tbl tbl.
Proof. intros r Hr H1. by exists r. Qed.

Lemma keeps_complete_trans t1 t2 t3 :
  keeps_complete t1 t2 -> keeps_complete t2 t3 -> keeps_complete t1 t3.
Proof.
  intros H12 H23 r Hr H1.
  destruct (H12 r Hr H1) as (r2 & Hr2 & Hk2 & Ht2 & Hf2).
  destruct (H23 r2 Hr2 Hf2) as (r3 & Hr3 & Hk3 & Ht3 & Hf3).
  exists r3. repeat split; congruence.
Qed.

Lemma candle_row_truthful now timeframe_str g r i :
  get_timeframe_seconds timeframe_str = Ok g ->
  Strftime.pandas_range (Rate.time r) ->
  row_truthful now timeframe_str (candle_row i (candle_of g now r)).
Proof.
  intros Hg Hrange. split; [exact Hrange|]. cbn. intros [= H1].
  rewrite (candle_of_flag _ _ g) by done. by rewrite H1.
Qed.

Lemma process_candle_sound existing now timeframe_str g tbl n r tbl' n' :
  get_timeframe_seconds timeframe_str = Ok g ->
  Strftime.pandas_range (Rate.time r) ->
  sound now timeframe_str tbl ->
  process_candle existing (tbl, n) (candle_of g now r) = (tbl', n') ->
  sound now timeframe_str tbl' /\ keeps_complete tbl tbl'.
Proof.
  intros Hg Hrange [Hwf Hrows] Hstep.
  assert (Hwf' : table_wf tbl')
    by (eapply process_candle_wf; [exact Hwf| |exact Hstep]; reflexivity).
  assert (Hsame : sound now timeframe_str tbl /\ keeps_complete tbl tbl)
    by (split; [by split | apply keeps_complete_refl]).
  unfold process_candle in Hstep.
  destruct (existing !! _) as [e|].
  - destruct (needs_update e _); [|by injection Hstep as <- _].
    destruct (sql_update _ tbl) as [t|] eqn:Hup;
      [|by injection Hstep as <- _].
    injection Hstep as -> _. unfold sql_update in Hup.
    destruct (has_is_completed tbl); [|done]. injection Hup as <-.
    cbn [v_datetime candle_values datetime_str candle_of] in *.
    split; [split; [done|]|].
    + cbn [rows]. apply Forall_fmap.
      eapply Forall_impl; [exact Hrows|]. intros r0 Hr0. cbn.
      destruct (String.eqb (StoredRow.datetime r0) _); [|done].
      by apply (candle_row_truthful now timeframe_str g r).
    + intros r0 Hr0 H1. cbn [rows].
      destruct (String.eqb (StoredRow.datetime r0)
                  (Strftime.format (Rate.time r))) eqn:E.
      * apply String.eqb_eq in E.
        destruct (proj1 (Forall_forall _ _) Hrows r0 Hr0) as [Hrange0 Hdone].
        assert (Hfmt0 : StoredRow.datetime r0
                        = Strftime.format (StoredRow.time r0))
          by (apply (proj1 (Forall_forall _ _) (proj2 Hwf)); done).
        assert (Ht : StoredRow.time r0 = Rate.time r)
          by (apply StrftimeFacts.format_inj; [done..|congruence]).
        specialize (Hdone H1). rewrite Ht in Hdone.
        rewrite (candle_of_flag _ _ g) in Hdone by done.
        injection Hdone as Hdone. apply bool_decide_eq_true in Hdone.
        exists (candle_row (StoredRow.id r0) (candle_of g now r)).
        split; [|split; [exact (eq_sym E)|split;
                   [exact (eq_sym Ht) | exact (f_equal Some Hdone)]]].
        apply list_elem_of_fmap. exists r0. split; [|done].
        cbv beta. apply String.eqb_eq in E. by rewrite E.
      * exists r0. split; [|done].
        apply list_elem_of_fmap. exists r0. split; [|done].
        cbv beta. by rewrite E.
  - destruct (sql_insert _ tbl) as [t|] eqn:Hins;
      [|by injection Hstep as <- _].
    injection Hstep as -> _. unfold sql_insert in Hins.
    destruct (has_key _ tbl); [done|]. cbn in Hins.
    destruct (has_is_completed tbl); [|done]. injection Hins as <-.
    split; [split; [done|]|].
    + cbn [rows]. apply Forall_app. split; [done|].
      apply Forall_singleton.
      by apply (candle_row_truthful now timeframe_str g r).
    + intros r0 Hr0 H1. exists r0. split; [|done].
      cbn [rows]. apply elem_of_app. by left.
Qed.

Lemma process_candles_sound existing now timeframe_str g rates :
  get_timeframe_seconds timeframe_str = Ok g ->
  Forall (fun r => Strftime.pandas_range (Rate.time r)) rates ->
  forall tbl n tbl' n',
    sound now timeframe_str tbl ->
    foldl (process_candle existing) (tbl, n) (candle_of g now <$> rates)
    = (tbl', n') ->
    sound now timeframe_str tbl' /\ keeps_complete tbl tbl'.
Proof.
  intros Hg Hrange. induction Hrange as [|r rates Hr Hrates IH];
    intros tbl n tbl' n' Hsound; cbn [fmap list_fmap foldl].
  - intros [= <- _]. split; [done | apply keeps_complete_refl].
  - destruct (process_candle existing (tbl, n) (candle_of g now r))
      as [tbl1 n1] eqn:E.
    destruct (process_candle_sound _ _ _ _ _ _ _ _ _ Hg Hr Hsound E)
      as [Hsound1 Hkeep1].
    intros Hfold. destruct (IH tbl1 n1 tbl' n' Hsound1 Hfold) as [Hs Hk].
    split; [done|]. by eapply keeps_complete_trans.
Qed.

Lemma update_database_sound mt5 now db symbol timeframe_const timeframe_str
    tbl db' n :
  db !! table_name symbol timeframe_str = Some tbl ->
  sound now timeframe_str tbl ->
  window_in_range mt5 symbol timeframe_const ->
  update_database mt5 now (Some db) symbol timeframe_const timeframe_str
    default_lookback = Ok (Some db', n) ->
  exists tbl',
    db' !! table_name symbol timeframe_str = Some tbl' /\
    sound now timeframe_str tbl' /\ keeps_complete tbl tbl'.
Proof.
  intros Htbl Hsound Hwin H.
  apply update_database_inv in H
    as [[[= ->] _]|(rates & df & tbl0 & existing & tbl' & _ & Hrates & Hne
                    & Hdf & Htbl0 & _ & _ & Hfold & [= ->])].
  { exists tbl. split; [done|]. split; [done | apply keeps_complete_refl]. }
  specialize (Hwin _ Hrates).
  destruct (build_frame_inv _ _ _ _ Hdf) as [[? _]|(g & Hg & ->)]; [done|].
  rewrite Htbl in Htbl0. injection Htbl0 as <-.
  exists tbl'. split; [by rewrite lookup_insert_eq|].
  by eapply process_candles_sound.
Qed.

Lemma update_database_Some mt5 now db symbol timeframe_const timeframe_str
    lookback conn n :
  update_database mt5 now (Some db) symbol timeframe_const timeframe_str
    lookback = Ok (conn, n) ->
  exists db', conn = Some db'.
Proof.
  intros H. apply update_database_inv in H as [[-> _]|H]; [eauto|].
  destruct H as (? & ? & ? & ? & ? & _ & _ & _ & _ & _ & _ & _ & _ & ->).
  eauto.
Qed.

Lemma last_cons_default {A} (l : list A) : forall z d d',
  List.last (z :: l) d = List.last (z :: l) d'.
Proof.
  induction l as [|y l IH]; intros z d d'; [reflexivity|].
  change (List.last (y :: l) d = List.last (y :: l) d'). apply IH.
Qed.

Lemma reconcile_cycles_sound symbol timeframe_const timeframe_str cycles :
  forall now0 db tbl db',
    db !! table_name symbol timeframe_str = Some tbl ->
    sound now0 timeframe_str tbl ->
    Sorted Z.le (now0 :: cycles.*2) ->
    Forall (fun c => window_in_range c.1 symbol timeframe_const) cycles ->
    reconcile_cycles cycles (Some db) symbol timeframe_const timeframe_str
    = Ok (Some db') ->
    exists tbl',
      db' !! table_name symbol timeframe_str = Some tbl' /\
      sound (List.last cycles.*2 now0) timeframe_str tbl' /\
      keeps_complete tbl tbl'.
Proof.
  induction cycles as [|[mt5 now] cycles IH];
    intros now0 db tbl db' Htbl Hsound Hclock Hwin; cbn [reconcile_cycles].
  - intros [= <-]. exists tbl.
    split; [done|split; [done|apply keeps_complete_refl]].
  - apply Forall_cons in Hwin as [Hwin0 Hwin].
    rewrite fmap_cons in Hclock. cbn [snd] in Hclock.
    apply Sorted_inv in Hclock as [Hclock Hhd].
    assert (Hle : now0 <= now) by (by inversion Hhd).
    destruct (update_database mt5 now (Some db) _ _ _ _)
      as [[conn1 n1]|] eqn:Hcall; [|done].
    cbn [mbind result_bind].
    assert (exists db1, conn1 = Some db1) as [db1 ->].
    { by eapply update_database_Some. }
    destruct (update_database_sound _ _ _ _ _ _ _ _ _ Htbl
                (sound_later _ _ _ _ Hle Hsound) Hwin0 Hcall)
      as (tbl1 & Htbl1 & Hsound1 & Hkeep1).
    intros Hrest.
    destruct (IH now db1 tbl1 db' Htbl1 Hsound1 Hclock Hwin Hrest)
      as (tbl' & Htbl' & Hsound' & Hkeep').
    exists tbl'. split; [done|]. split.
    + rewrite fmap_cons. cbn [snd].
      destruct (cycles.*2) as [|z l]; [exact Hsound'|].
      change (List.last (now :: z :: l) now0) with (List.last (z :: l) now0).
      by rewrite (last_cons_default l z now0 now).
    + by eapply keeps_complete_trans.
Qed.

(** C7.  Starting from a sound table, and with reference times that never
    go back, no sequence of reconciliations of the series reverts a flag:
    every bar that is flagged complete is still stored under the same open
    time and still flagged complete afterwards, and the table is sound
    again at the last reference time, so the same holds from every
    intermediate state onwards. *)
Theorem completion_monotone symbol timeframe_const timeframe_str cycles
    now0 db tbl db' :
  db !! table_name symbol timeframe_str = Some tbl ->
  sound now0 timeframe_str tbl ->
  Sorted Z.le (now0 :: cycles.*2) ->
  Forall (fun c => window_in_range c.1 symbol timeframe_const) cycles ->
  reconcile_cycles cycles (Some db) symbol timeframe_const timeframe_str
  = Ok (Some db') ->
  exists tbl',
    db' !! table_name symbol timeframe_str = Some tbl' /\
    (forall r, r ∈ rows tbl -> StoredRow.is_completed r = Some 1 ->
       exists r', r' ∈ rows tbl' /\
                  StoredRow.datetime r' = StoredRow.datetime r /\
                  StoredRow.time r' = StoredRow.time r /\
                  StoredRow.is_completed r' = Some 1) /\
    sound (List.last cycles.*2 now0) timeframe_str tbl'.
Proof.
  intros Htbl Hsound Hclock Hwin Hrun.
  destruct (reconcile_cycles_sound _ _ _ _ _ _ _ _ Htbl Hsound Hclock Hwin
              Hrun) as (tbl' & Htbl' & Hsound' & Hkeep).
  exists tbl'. split; [done|]. split; [exact Hkeep | exact Hsound'].
Qed.

(** ** Bulk loader *)


Lemma loaded_rows_keys i flag df :
  StoredRow.datetime <$> loaded_rows i flag df
  = (fun r => Strftime.format (Rate.time r)) <$> df.
Proof.
  revert i. induction df as [|r df IH]; intros i; [done|].
  cbn. by rewrite IH.
Qed.

Lemma loaded_rows_flag i flag df r :
  r ∈ loaded_rows i flag df -> StoredRow.is_completed r = flag.
Proof.
  revert i. induction df as [|r0 df IH]; intros i Hr; cbn in Hr.
  - by apply elem_of_nil in Hr.
  - apply elem_of_cons in Hr as [->|Hr]; [done | by eapply IH].
Qed.







(** The specification's bulk-load scenario fails on the code for a series
    whose table is missing and cannot be created: of three fetched bars
    none is inserted and the counts are both 0, where two rows are
    expected.  SQLite refuses the name of the first series, which it
    reserves; the second is that of a symbol with a dot, whose table is
    created and whose index, named without quotes, is refused. *)
Lemma save_to_database_uncreatable :
  save_to_database (Some ∅) "sqlite" TIMEFRAME_M1 "M1"
    (Some (Scenario.minute_bars 0 3))
  = Ok (Some ∅, (0, 0)) /\
  save_to_database (Some ∅) "EURUSD.m" TIMEFRAME_M1 "M1"
    (Some (Scenario.minute_bars 0 3))
  = Ok (Some {[ "EURUSD.m_M1" := new_table ]}, (0, 0)) /\
  ~ exists conn,
      save_to_database (Some ∅) "sqlite" TIMEFRAME_M1 "M1"
        (Some (Scenario.minute_bars 0 3)) = Ok (conn, (2, 2)).
Proof.
  assert (H : save_to_database (Some ∅) "sqlite" TIMEFRAME_M1 "M1"
                (Some (Scenario.minute_bars 0 3))
              = Ok (Some ∅, (0, 0))) by (vm_compute; reflexivity).
  split; [exact H|]. split; [vm_compute; reflexivity|].
  intros [conn Hc]. rewrite H in Hc. discriminate.
Qed.





(** ** Read API *)

Lemma time_desc_trans : Transitive time_desc.
Proof. intros a b c. unfold time_desc. lia. Qed.

Lemma time_desc_total : Total time_desc.
Proof. intros a b. unfold time_desc. lia. Qed.

#[local] Existing Instances time_desc_trans time_desc_total.

Lemma sql_limit_sublist {A} n (l : list A) : sql_limit n l `sublist_of` l.
Proof. unfold sql_limit. destruct (n <? 0); [done | apply sublist_take]. Qed.

Lemma StronglySorted_sublist {A} (R : relation A) l1 l2 :
  l1 `sublist_of` l2 -> StronglySorted R l2 -> StronglySorted R l1.
Proof.
  induction 1 as [|x l1 l2 Hsub IH|x l1 l2 Hsub IH]; intros Hs.
  - constructor.
  - apply StronglySorted_inv in Hs as [Hs Hall]. constructor; [by apply IH|].
    eapply Forall_forall. intros y Hy.
    apply (proj1 (Forall_forall _ _) Hall). by eapply sublist_subseteq.
  - apply StronglySorted_inv in Hs as [Hs _]. by apply IH.
Qed.

(** Non-increasing distinct times are decreasing. *)
Lemma time_desc_strict l :
  StronglySorted time_desc l -> NoDup (StoredRow.time <$> l) ->
  StronglySorted (fun r1 r2 => StoredRow.time r2 < StoredRow.time r1) l.
Proof.
  induction 1 as [|r l Hs IH Hall]; intros Hnd; [constructor|].
  rewrite fmap_cons in Hnd. apply NoDup_cons in Hnd as [Hr Hnd].
  constructor; [by apply IH|].
  apply Forall_forall. intros r' Hr'.
  pose proof (proj1 (Forall_forall _ _) Hall r' Hr') as Hle.
  unfold time_desc in Hle.
  assert (StoredRow.time r' <> StoredRow.time r).
  { intros Heq. apply Hr. rewrite <- Heq. by apply list_elem_of_fmap_2. }
  lia.
Qed.

Lemma select_ohlc_sorted tbl start_time end_time completed_only limit sel :
  unique_open_times tbl ->
  select_ohlc tbl start_time end_time completed_only limit = Some sel ->
  sel ⊆ rows tbl /\
  StronglySorted (fun r1 r2 => StoredRow.time r2 < StoredRow.time r1) sel.
Proof.
  unfold select_ohlc, unique_open_times. intros Hnd.
  destruct (completed_only && negb (has_is_completed tbl)); [done|].
  intros [= <-].
  set (kept := filter _ (rows tbl)).
  assert (Hperm : merge_sort time_desc kept ≡ₚ kept)
    by apply merge_sort_Permutation.
  split.
  - intros r Hr. apply (sublist_subseteq _ _ (sql_limit_sublist _ _)) in Hr.
    rewrite Hperm in Hr. subst kept.
    by apply list_elem_of_filter in Hr as [_ ?].
  - apply time_desc_strict.
    + eapply StronglySorted_sublist; [apply sql_limit_sublist|].
      apply StronglySorted_merge_sort; apply _.
    + apply (sublist_NoDup _ (StoredRow.time <$> merge_sort time_desc kept));
        [|apply fmap_sublist, sql_limit_sublist].
      rewrite Hperm. subst kept.
      apply (sublist_NoDup _ (StoredRow.time <$> rows tbl));
        [done | apply fmap_sublist, sublist_filter].
Qed.

Lemma descending_reverse_ascending (l : list Z) :
  StronglySorted (fun a b => b < a) l -> StronglySorted Z.lt (reverse l).
Proof.
  intros Hs. apply Sorted_StronglySorted; [apply _|].
  apply StronglySorted_Sorted, Sorted_reverse in Hs. exact Hs.
Qed.

Lemma find_table_series (db : DB) name tbl :
  db !! name = Some tbl -> find_table db name = Series tbl.
Proof. intros H. unfold find_table. by rewrite H. Qed.

(** C10.  Whenever the limit is one the endpoint accepts and the query
    selects at least one row, of prices that are finite or NULL, the
    endpoint answers, and its six arrays are the columns of the selected
    rows in reverse order of selection: they have the same length, the
    times are the stored times multiplied by 1000 and are strictly
    ascending, whereas the rows are selected in descending order of
    time. *)
Theorem get_ohlc_data_ascending db symbol timeframe start_time end_time
    limit completed_only tbl sel :
  limit <= 100000 ->
  db !! table_name symbol timeframe = Some tbl ->
  table_wf tbl ->
  select_ohlc tbl start_time end_time completed_only limit = Some sel ->
  sel <> [] ->
  Forall finite_prices sel ->
  exists resp,
    get_ohlc_data db symbol timeframe start_time end_time limit completed_only
    = Body resp /\
    sel ⊆ rows tbl /\
    StronglySorted (fun r1 r2 => StoredRow.time r2 < StoredRow.time r1) sel /\
    Ohlc.t resp = (fun r => StoredRow.time r * 1000) <$> reverse sel /\
    Ohlc.o resp = StoredRow.open <$> reverse sel /\
    Ohlc.h resp = StoredRow.high <$> reverse sel /\
    Ohlc.l resp = StoredRow.low <$> reverse sel /\
    Ohlc.c resp = StoredRow.close <$> reverse sel /\
    Ohlc.v resp = StoredRow.tick_volume <$> reverse sel /\
    StronglySorted Z.lt (Ohlc.t resp) /\
    Forall (fun n => n = length sel)
      [length (Ohlc.t resp); length (Ohlc.o resp); length (Ohlc.h resp);
       length (Ohlc.l resp); length (Ohlc.c resp); length (Ohlc.v resp)].
Proof.
  intros Hlimit Htbl Hwf Hsel Hne _.
  destruct (select_ohlc_sorted _ _ _ _ _ _ (table_wf_unique_times _ Hwf) Hsel)
    as [Hsub Hdesc].
  unfold get_ohlc_data.
  rewrite (proj2 (Z.ltb_ge _ _) Hlimit), (find_table_series _ _ _ Htbl), Hsel.
  destruct sel as [|r0 sel']; [done|].
  eexists. split; [reflexivity|].
  cbn [Ohlc.t Ohlc.o Ohlc.h Ohlc.l Ohlc.c Ohlc.v].
  rewrite !fmap_reverse.
  repeat (split; [done|]). split.
  - apply descending_reverse_ascending.
    eapply (StronglySorted_fmap _ _ (fun a b => b < a)); [|exact Hdesc].
    intros x y Hxy. cbv beta in *. lia.
  - repeat constructor; by rewrite length_reverse, length_fmap.
Qed.

Lemma scenario_table2_wf : table_wf Scenario.table2.
Proof.
  split.
  - apply (bool_decide_unpack _). vm_compute. reflexivity.
  - repeat constructor.
Qed.

Lemma scenario_table2_lookup :
  Scenario.db_of Scenario.table2 !! table_name "EURUSD" "M1"
  = Some Scenario.table2.
Proof. vm_compute. reflexivity. Qed.

Lemma scenario_row_finite i t flag :
  finite_prices (Scenario.row i t 1.125 flag) /\
  finite_prices (Scenario.row i t 1.5 flag) /\
  finite_prices (Scenario.row i t 1.75 flag).
Proof. repeat split; intros x [= <-]; reflexivity. Qed.

(** The stored series of the scenario, read back: three bars, oldest
    first, times in milliseconds. *)
Lemma get_ohlc_data_ascending_witness :
  exists resp,
    get_ohlc_data (Scenario.db_of Scenario.table2) "EURUSD" "M1" None None
      100 false = Body resp /\
    Ohlc.t resp = [100000; 160000; 220000] /\
    StronglySorted Z.lt (Ohlc.t resp).
Proof.
  assert (Hsel : select_ohlc Scenario.table2 None None false 100
                 = Some [Scenario.row 3 220 1.75 0; Scenario.row 2 160 1.5 1;
                         Scenario.row 1 100 1.125 1])
    by (vm_compute; reflexivity).
  assert (Hlimit : 100 <= 100000) by lia.
  destruct (get_ohlc_data_ascending (Scenario.db_of Scenario.table2) "EURUSD"
              "M1" None None 100 false Scenario.table2 _ Hlimit
              scenario_table2_lookup scenario_table2_wf Hsel)
    as (resp & Hcall & _ & _ & Ht & _ & _ & _ & _ & _ & Hasc & _).
  - discriminate.
  - repeat constructor; apply scenario_row_finite.
  - exists resp. split; [exact Hcall|]. split; [|exact Hasc].
    rewrite Ht. vm_compute. reflexivity.
Defined.

Lemma scenario_table1_sound : sound 165 "M1" Scenario.table1.
Proof.
  split; [exact scenario_table1_wf|].
  repeat constructor;
    try (unfold Strftime.pandas_range, Strftime.min_day, Strftime.max_day;
         cbn; lia);
    try (intros _; vm_compute; reflexivity); try discriminate.
Qed.

Lemma scenario_window2_in_range :
  window_in_range (Scenario.terminal Scenario.window2) "EURUSD" TIMEFRAME_M1.
Proof.
  intros rates [= <-].
  repeat constructor;
    unfold Strftime.pandas_range, Strftime.min_day, Strftime.max_day;
    cbn; lia.
Qed.

(** The second and third cycles of the scenario: bar 100, complete after
    the first cycle, stays complete. *)
Lemma completion_monotone_witness :
  exists tbl',
    Scenario.db_of Scenario.table2 !! table_name "EURUSD" "M1" = Some tbl' /\
    (forall r, r ∈ rows Scenario.table1 ->
               StoredRow.is_completed r = Some 1 ->
       exists r', r' ∈ rows tbl' /\
                  StoredRow.datetime r' = StoredRow.datetime r /\
                  StoredRow.time r' = StoredRow.time r /\
                  StoredRow.is_completed r' = Some 1) /\
    sound 226 "M1" tbl'.
Proof.
  apply (completion_monotone "EURUSD" TIMEFRAME_M1 "M1"
           [(Scenario.terminal Scenario.window2, 225);
            (Scenario.terminal Scenario.window2, 226)]
           165 (Scenario.db_of Scenario.table1) Scenario.table1
           (Scenario.db_of Scenario.table2)).
  - exact scenario_table1_lookup.
  - exact scenario_table1_sound.
  - cbn [fmap list_fmap snd].
    repeat first [apply Sorted_cons | apply Sorted_nil
                 | apply HdRel_cons | apply HdRel_nil]; lia.
  - repeat first [apply Forall_cons_2 | apply Forall_nil_2];
      exact scenario_window2_in_range.
  - vm_compute. reflexivity.
Defined.

(** * Further properties *)

Local Open Scope list_scope.

(** ** Labels and identifiers *)

(** X1.  The two tables of the catalog are inverse to each other: the
    label of an identifier maps back to it, and a label that has an
    identifier is the name of that identifier. *)
Theorem timeframe_name_round_trip :
  (forall c, get_timeframe_constant (get_timeframe_name c) = Some c) /\
  (forall label c, get_timeframe_constant label = Some c ->
                   get_timeframe_name c = label).
Proof.
  split.
  - intros c. destruct c; vm_compute; reflexivity.
  - intros label c H. apply get_timeframe_constant_items in H.
    unfold timeframe_items in H.
    repeat (apply elem_of_cons in H as [H|H];
            [injection H as -> ->; reflexivity|]).
    by apply elem_of_nil in H.
Qed.

Lemma configured_timeframes_labels labels :
  (configured_timeframes labels).*2
  = filter (fun l => is_Some (get_timeframe_constant l)) labels.
Proof.
  induction labels as [|l labels IH]; [done|].
  cbn [configured_timeframes]. rewrite filter_cons.
  destruct (get_timeframe_constant l) as [c|] eqn:E.
  - rewrite decide_True by eauto. cbn. by rewrite IH.
  - rewrite decide_False; [done|]. by intros [? ?].
Qed.

Lemma configured_timeframes_pairs labels :
  Forall (fun p => get_timeframe_constant p.2 = Some p.1)
    (configured_timeframes labels).
Proof.
  induction labels as [|l labels IH]; [constructor|].
  cbn [configured_timeframes].
  destruct (get_timeframe_constant l) as [c|] eqn:E; [|done].
  by constructor.
Qed.

(** X2.  The configured labels are filtered, not rejected: the pairs kept
    are, in the order of the configuration, exactly the labels that have
    an identifier, each with its own identifier. *)
Theorem configured_timeframes_spec labels :
  (configured_timeframes labels).*2
  = filter (fun l => is_Some (get_timeframe_constant l)) labels /\
  Forall (fun p => get_timeframe_constant p.2 = Some p.1)
    (configured_timeframes labels).
Proof.
  split; [apply configured_timeframes_labels|].
  apply configured_timeframes_pairs.
Qed.

(** Every catalog label but ["MN1"] has a period of at least a minute. *)
Lemma catalog_label_period label c :
  get_timeframe_constant label = Some c -> label <> "MN1" ->
  exists s, get_timeframe_seconds label = Ok (Some s) /\ 60 <= s.
Proof.
  intros Hc Hne. apply get_timeframe_constant_items in Hc.
  assert (c <> TIMEFRAME_MN1).
  { intros ->. apply Hne. unfold timeframe_items in Hc.
    repeat (apply elem_of_cons in Hc as [Hc|Hc]; [by simplify_eq|]).
    by apply elem_of_nil in Hc. }
  exists (catalog_seconds c).
  split; [by apply get_timeframe_seconds_catalog|]. destruct c; cbn; lia.
Qed.

Lemma min_interval_loop_catalog labels : forall acc,
  Forall (fun l => is_Some (get_timeframe_constant l)) labels ->
  (forall m, acc = Some m -> 60 <= m) ->
  if bool_decide ("MN1" ∈ labels)
  then min_interval_loop labels acc = Raise ValueError
  else exists r, min_interval_loop labels acc = Ok r /\
                 forall m, r = Some m -> 60 <= m.
Proof.
  induction labels as [|l labels IH]; intros acc Hall Hacc.
  - rewrite bool_decide_eq_false_2 by apply not_elem_of_nil. by exists acc.
  - apply Forall_cons in Hall as [[c Hc] Hall].
    cbn [min_interval_loop].
    destruct (decide (l = "MN1")) as [->|Hne].
    + rewrite bool_decide_eq_true_2 by left. reflexivity.
    + destruct (catalog_label_period l c Hc Hne) as (s & Hs & Hge).
      rewrite Hs. cbn [mbind result_bind].
      assert (Hin : bool_decide ("MN1" ∈ l :: labels)
                    = bool_decide ("MN1" ∈ labels)).
      { apply bool_decide_ext. rewrite elem_of_cons.
        split; [intros [?|?]; [congruence | done] | by right]. }
      rewrite Hin.
      destruct (negb (s =? 0) && _).
      * apply IH; [done|]. by intros m [= <-].
      * by apply IH.
Qed.

(** X3.  At start-up the interval is computed on the labels kept from the
    configuration.  The computation raises [ValueError] exactly when the
    configuration names ["MN1"]; otherwise it returns a whole number of
    seconds between 15 and 60. *)
Theorem startup_interval labels :
  let kept := (configured_timeframes labels).*2 in
  if bool_decide ("MN1" ∈ labels)
  then calculate_update_interval kept = Raise ValueError
  else exists k, 15 <= k <= 60 /\
                 calculate_update_interval kept = Ok (inject_Z k).
Proof.
  intros kept. subst kept. rewrite configured_timeframes_labels.
  set (kept := filter _ labels).
  assert (Hall : Forall (fun l => is_Some (get_timeframe_constant l)) kept).
  { apply Forall_forall. intros l Hl. by apply list_elem_of_filter in Hl as [? _]. }
  assert (Hin : bool_decide ("MN1" ∈ labels) = bool_decide ("MN1" ∈ kept)).
  { apply bool_decide_ext. subst kept. rewrite list_elem_of_filter.
    split; [|by intros [_ ?]]. intros H. split; [|done]. by eexists. }
  rewrite Hin.
  pose proof (min_interval_loop_catalog kept None Hall) as Hloop.
  unfold calculate_update_interval.
  destruct (bool_decide ("MN1" ∈ kept)).
  - rewrite Hloop; [reflexivity | done].
  - destruct Hloop as (r & -> & Hr); [done|]. cbn [mbind result_bind].
    set (m := match r with Some m => m | None => 60 end).
    assert (Hm : 60 <= m) by (subst m; destruct r; [by apply Hr | lia]).
    exists (Z.min 60 (m / 4)).
    assert (Hk : 15 <= Z.min 60 (m / 4) <= 60).
    { split; [|apply Z.le_min_l]. apply Z.min_glb; [lia|].
      apply Z.div_le_lower_bound; lia. }
    split; [exact Hk|]. f_equal. unfold py_max.
    destruct (Qle_bool _ _) eqn:E; [|reflexivity].
    apply Qle_bool_iff in E. unfold Qle in E. cbn in E. lia.
Qed.

(** X4.  The oracle is monotone: a bar that is complete at a reference
    time is complete at every later time, and so is every bar that opened
    no later. *)
Theorem is_candle_complete_monotone (R1 R2 T1 T2 : Z) (label : string) :
  R1 <= R2 -> T2 <= T1 ->
  is_candle_complete R1 T1 label = Ok true ->
  is_candle_complete R2 T2 label = Ok true.
Proof.
  unfold is_candle_complete. intros HR HT.
  destruct (get_timeframe_seconds label) as [[G|]|e]; cbn; try done.
  intros [= H]. f_equal. apply Z.leb_le. apply Z.leb_le in H. lia.
Qed.

Lemma is_candle_complete_monotone_witness :
  is_candle_complete 300 100 "M1" = Ok true.
Proof.
  apply (is_candle_complete_monotone 160 300 100 100 "M1");
    [lia | lia | reflexivity].
Defined.

(** ** Table creation *)



Lemma created_from_refl has_flag db : created_from has_flag [] db db.
Proof.
  split; [done|]. split; [intros p Hp; by apply elem_of_nil in Hp|].
  intros name tbl H. by left.
Qed.

Lemma created_from_trans has_flag ps1 ps2 db1 db2 db3 :
  created_from has_flag ps1 db1 db2 -> created_from has_flag ps2 db2 db3 ->
  created_from has_flag (ps1 ++ ps2) db1 db3.
Proof.
  intros (Hk1 & He1 & Hn1) (Hk2 & He2 & Hn2). split; [|split].
  - intros name tbl H. by apply Hk2, Hk1.
  - intros p Hp. apply elem_of_app in Hp as [Hp|Hp]; [|by apply He2].
    destruct (He1 p Hp) as [tbl Htbl]. exists tbl. by apply Hk2.
  - intros name tbl H. destruct (Hn2 name tbl H) as [H2|(H2 & -> & p & Hp & ->)].
    + destruct (Hn1 name tbl H2) as [?|(? & -> & p & Hp & ->)]; [by left|].
      right. split; [done|]. split; [done|]. exists p.
      split; [|done]. apply elem_of_app. by left.
    + right. split.
      * destruct (db1 !! table_name p.1 p.2) as [t|] eqn:E; [|done].
        apply Hk1 in E. congruence.
      * split; [done|]. exists p. split; [|done]. apply elem_of_app. by right.
Qed.

Lemma settled_refl db : settled [] db db.
Proof. split; [intros p Hp; by apply elem_of_nil in Hp | done]. Qed.

Lemma settled_trans has_flag ps1 ps2 db1 db2 db3 :
  created_from has_flag ps1 db1 db2 -> settled ps1 db1 db2 ->
  settled ps2 db2 db3 ->
  settled (ps1 ++ ps2) db1 db3.
Proof.
  intros (Hk1 & He1 & _) (Hp1 & Hf1) (Hp2 & Hf2). split.
  - intros p Hp. apply elem_of_app in Hp as [Hp|Hp]; [|by apply Hp2].
    destruct (Hp1 p Hp) as (? & ? & ?). split; [done|]. split; [done|].
    apply Hf2; [by apply He1 | done].
  - intros table [t Ht] Hfree. apply Hf2; [|by apply Hf1; [eexists|]].
    exists t. by apply Hk1.
Qed.

Lemma create_series_table_created has_flag symbol timeframe db db' :
  create_series_table has_flag (table_name symbol timeframe) db = Some db' ->
  created_from has_flag [(symbol, timeframe)] db db' /\
  settled [(symbol, timeframe)] db db'.
Proof.
  intros H. apply create_series_table_Some in H as (Hs & Hr & -> & Hi & Hk).
  set (name := table_name symbol timeframe) in *. split.
  - destruct (db !! name) as [t|] eqn:E.
    + split; [done|]. split; [|by left].
      intros p Hp. apply list_elem_of_singleton in Hp as ->. by exists t.
    + split; [|split].
      * intros n tbl H. rewrite lookup_insert_ne; [done|]. congruence.
      * intros p Hp. apply list_elem_of_singleton in Hp as ->.
        cbn. fold name. rewrite lookup_insert_eq. by eexists.
      * intros n tbl H. destruct (decide (n = name)) as [->|Hne].
        -- rewrite lookup_insert_eq in H. injection H as <-. right.
           split; [done|]. split; [done|]. exists (symbol, timeframe).
           split; [left | done].
        -- rewrite lookup_insert_ne in H by done. by left.
  - split.
    + intros p Hp. apply list_elem_of_singleton in Hp as ->. by cbn.
    + intros table Htable Hfree. by rewrite Hk.
Qed.

Lemma create_timeframes_created has_flag symbol timeframes : forall db db',
  create_timeframes has_flag symbol timeframes db = Some db' ->
  created_from has_flag ((fun tf => (symbol, tf)) <$> timeframes) db db' /\
  settled ((fun tf => (symbol, tf)) <$> timeframes) db db'.
Proof.
  induction timeframes as [|tf rest IH]; intros db db'; cbn.
  - intros [= <-]. split; [apply created_from_refl | apply settled_refl].
  - destruct (create_series_table _ _ db) as [db1|] eqn:E; [|done]. cbn.
    intros H. apply create_series_table_created in E as [Ec Es].
    apply IH in H as [Hc Hs]. split.
    + apply (created_from_trans _ [_] _ _ _ _ Ec Hc).
    + apply (settled_trans _ [_] _ _ _ _ Ec Es Hs).
Qed.

Lemma elem_of_all_pairs symbols timeframes p :
  p ∈ all_pairs symbols timeframes <-> p.1 ∈ symbols /\ p.2 ∈ timeframes.
Proof.
  unfold all_pairs. rewrite list_elem_of_bind. split.
  - intros (s & Hp & Hs). apply list_elem_of_fmap in Hp as (tf & -> & Htf).
    by split.
  - intros [Hs Htf]. exists p.1. split; [|done].
    apply list_elem_of_fmap. exists p.2. split; [by destruct p | done].
Qed.

Lemma create_symbols_created has_flag symbols timeframes : forall db db',
  create_symbols has_flag symbols timeframes db = Some db' ->
  created_from has_flag (all_pairs symbols timeframes) db db' /\
  settled (all_pairs symbols timeframes) db db'.
Proof.
  induction symbols as [|s rest IH]; intros db db'; cbn.
  - intros [= <-]. split; [apply created_from_refl | apply settled_refl].
  - destruct (create_timeframes _ _ _ db) as [db1|] eqn:E; [|done]. cbn.
    intros H. apply create_timeframes_created in E as [Ec Es].
    apply IH in H as [Hc Hs]. split.
    + apply (created_from_trans _ _ _ _ _ _ Ec Hc).
    + apply (settled_trans _ _ _ _ _ _ Ec Es Hs).
Qed.



Lemma create_symbols_fixed has_flag symbols timeframes db db' :
  create_symbols has_flag symbols timeframes db = Some db' ->
  create_symbols has_flag symbols timeframes db' = Some db'.
Proof.
  intros H.
  pose proof (create_symbols_created _ _ _ _ _ H)
    as ((_ & Hexists & _) & (Hsettled & _)).
  assert (Hpairs : forall s tf, s ∈ symbols -> tf ∈ timeframes ->
            create_series_table has_flag (table_name s tf) db' = Some db').
  { intros s tf Hs Htf.
    assert (Hp : (s, tf) ∈ all_pairs symbols timeframes)
      by (by apply elem_of_all_pairs).
    destruct (Hsettled _ Hp) as (Hsafe & Hres & Hidx).
    destruct (Hexists _ Hp) as [t Ht]. cbn in *.
    unfold create_series_table. by rewrite Hres, Ht, Hsafe, Hidx. }
  clear H Hexists Hsettled.
  induction symbols as [|s rest IH]; [done|]. cbn.
  assert (Hs : create_timeframes has_flag s timeframes db' = Some db').
  { assert (Htfs : forall tf, tf ∈ timeframes ->
              create_series_table has_flag (table_name s tf) db' = Some db')
      by (intros tf Htf; apply Hpairs; [left | done]).
    clear -Htfs. induction timeframes as [|tf tfs IHt]; [done|]. cbn.
    rewrite Htfs by left. cbn. apply IHt. intros tf' Htf'. apply Htfs.
    by right. }
  rewrite Hs. cbn. apply IH. intros s' tf Hs' Htf. apply Hpairs; [by right | done].
Qed.

(** X5.  Where [init_database] of the live updater returns, every
    configured pair has a table; the tables that existed are left as they
    were, rows included; and every table it adds is empty and has the
    completion column. *)
Theorem init_database_tables db symbols timeframes db' :
  init_database (Some db) symbols timeframes = Initialized (Some db') ->
  (forall name tbl, db !! name = Some tbl -> db' !! name = Some tbl) /\
  (forall symbol timeframe, symbol ∈ symbols -> timeframe ∈ timeframes ->
     is_Some (db' !! table_name symbol timeframe)) /\
  (forall name tbl, db' !! name = Some tbl -> db !! name = None ->
     tbl = mkTable true 1 [] /\
     exists symbol timeframe, symbol ∈ symbols /\ timeframe ∈ timeframes /\
                              name = table_name symbol timeframe).
Proof.
  unfold init_database.
  destruct (create_symbols true symbols timeframes db) as [db1|] eqn:E;
    [|done].
  intros [= <-].
  apply create_symbols_created in E as ((Hkeep & Hex & Hnew) & _).
  split; [exact Hkeep|]. split.
  - intros s tf Hs Htf. apply (Hex (s, tf)). by apply elem_of_all_pairs.
  - intros name tbl Htbl Hnone.
    destruct (Hnew name tbl Htbl) as [?|(_ & -> & p & Hp & ->)]; [congruence|].
    split; [done|]. apply elem_of_all_pairs in Hp as [? ?]. by exists p.1, p.2.
Qed.

Lemma init_database_tables_witness :
  exists db',
    init_database (Some (Scenario.db_of Scenario.table1)) ["EURUSD"]
      ["M1"; "H1"] = Initialized (Some db') /\
    db' !! "EURUSD_M1" = Some Scenario.table1 /\
    db' !! "EURUSD_H1" = Some (mkTable true 1 []).
Proof.
  eexists. split; [vm_compute; reflexivity|].
  assert (Hinit : init_database (Some (Scenario.db_of Scenario.table1))
                    ["EURUSD"] ["M1"; "H1"]
                  = Initialized
                      (Some (<["EURUSD_H1" := mkTable true 1 []]>
                               (Scenario.db_of Scenario.table1))))
    by (vm_compute; reflexivity).
  destruct (init_database_tables _ _ _ _ Hinit) as (Hkeep & _ & Hnew).
  split.
  - apply Hkeep. vm_compute. reflexivity.
  - destruct (Hnew "EURUSD_H1" (mkTable true 1 [])) as [_ _];
      vm_compute; reflexivity.
Defined.



(** X7.  [init_database] is idempotent: run again on the database it
    returned, it returns the same database. *)
Theorem init_database_idempotent conn symbols timeframes conn' :
  init_database conn symbols timeframes = Initialized conn' ->
  init_database conn' symbols timeframes = Initialized conn'.
Proof.
  unfold init_database. destruct conn as [db|]; [|by intros [= <-]].
  destruct (create_symbols true symbols timeframes db) as [db1|] eqn:E;
    [|done].
  intros [= <-]. by rewrite (create_symbols_fixed _ _ _ _ _ E).
Qed.

Lemma init_database_idempotent_witness :
  exists conn',
    init_database (Some ∅) ["EURUSD"; "GBPUSD"] ["M1"; "H1"]
    = Initialized conn' /\
    init_database conn' ["EURUSD"; "GBPUSD"] ["M1"; "H1"]
    = Initialized conn'.
Proof.
  destruct (init_database (Some ∅) ["EURUSD"; "GBPUSD"] ["M1"; "H1"])
    as [conn'|] eqn:E; [|vm_compute in E; discriminate].
  exists conn'. split; [reflexivity|].
  by apply (init_database_idempotent (Some ∅) ["EURUSD"; "GBPUSD"] ["M1"; "H1"]).
Defined.

(** ** The reconciler on any window *)






Lemma update_database_no_column mt5 now db symbol timeframe_const
    timeframe_str lookback conn' n :
  (forall tbl, db !! table_name symbol timeframe_str = Some tbl ->
               has_is_completed tbl = false) ->
  update_database mt5 now (Some db) symbol timeframe_const timeframe_str
    lookback = Ok (conn', n) ->
  conn' = Some db /\ n = 0.
Proof.
  intros Hcol. unfold update_database.
  destruct (negb _); [by intros [= <- <-]|].
  destruct (copy_rates_from_pos _ _ _ _ _) as [[|r rates]|];
    [by intros [= <- <-]| |by intros [= <- <-]].
  destruct (build_frame _ _ _) as [df|]; [|done]. cbn [mbind result_bind].
  destruct (db !! table_name symbol timeframe_str) as [tbl|] eqn:Htbl;
    cbn [mbind option_bind]; [|by intros [= <- <-]].
  unfold select_existing. rewrite (Hcol tbl eq_refl). by intros [= <- <-].
Qed.

(** X9.  Without its table, or with a table that lacks the completion
    column, a series is not reconciled: whatever is fetched, a call that
    returns reports no update and leaves the database as it was. *)
Theorem update_database_without_column mt5 now db symbol timeframe_const
    timeframe_str lookback conn' n :
  (forall tbl, db !! table_name symbol timeframe_str = Some tbl ->
               has_is_completed tbl = false) ->
  update_database mt5 now (Some db) symbol timeframe_const timeframe_str
    lookback = Ok (conn', n) ->
  conn' = Some db /\ n = 0.
Proof. apply update_database_no_column. Qed.

Lemma update_database_without_column_witness :
  update_database (Scenario.terminal Scenario.window1) 165
    (Some {[ "EURUSD_M1" := new_table ]}) "EURUSD" TIMEFRAME_M1 "M1"
    default_lookback
  = Ok (Some {[ "EURUSD_M1" := new_table ]}, 0).
Proof.
  destruct (update_database (Scenario.terminal Scenario.window1) 165
              (Some {[ "EURUSD_M1" := new_table ]}) "EURUSD" TIMEFRAME_M1
              "M1" default_lookback) as [[conn' n]|e] eqn:E;
    [|vm_compute in E; discriminate].
  assert (Hcol : forall tbl,
    ({[ "EURUSD_M1" := new_table ]} : DB) !! table_name "EURUSD" "M1"
    = Some tbl -> has_is_completed tbl = false).
  { intros tbl H. vm_compute in H. by injection H as <-. }
  by destruct (update_database_without_column _ _ _ _ _ _ _ _ _ Hcol E)
    as [-> ->].
Defined.

(** One step of the loop never removes or renumbers a row: the identities
    and keys of the table are extended by at most one, and only then is
    the count possibly raised for an insert. *)
Lemma process_candle_extends existing tbl n c tbl' n' :
  process_candle existing (tbl, n) c = (tbl', n') ->
  exists added,
    identities tbl' = (identities tbl ++ added)%list /\
    n <= n' <= n + 1 /\
    Z.of_nat (length added) <= n' - n.
Proof.
  unfold process_candle, identities.
  assert (Hsame : exists added : list (Z * string),
    (fun r => (StoredRow.id r, StoredRow.datetime r)) <$> rows tbl
    = (((fun r => (StoredRow.id r, StoredRow.datetime r)) <$> rows tbl)
       ++ added)%list
    /\ n <= n <= n + 1 /\ Z.of_nat (length added) <= n - n)
    by (exists []; rewrite app_nil_r; cbn; repeat split; lia).
  destruct (existing !! datetime_str c) as [e|].
  - destruct (needs_update e (is_completed c)); [|by intros [= <- <-]].
    destruct (sql_update _ tbl) as [t|] eqn:Hup; [|by intros [= <- <-]].
    intros [= <- <-]. exists []. rewrite app_nil_r. cbn [length].
    split; [|lia]. unfold sql_update in Hup.
    destruct (has_is_completed tbl); [|done]. injection Hup as <-.
    cbn [rows]. rewrite <- list_fmap_compose. apply list_fmap_ext.
    intros _ r _. cbn.
    destruct (String.eqb (StoredRow.datetime r) _) eqn:E; [|done].
    apply String.eqb_eq in E. by rewrite E.
  - destruct (sql_insert _ tbl) as [t|] eqn:Hins; [|by intros [= <- <-]].
    intros [= <- <-]. unfold sql_insert in Hins.
    destruct (has_key _ tbl); [done|].
    eexists [_]. split; [|cbn [length]; lia].
    cbn [v_is_completed candle_values] in Hins.
    destruct (has_is_completed tbl); [|done].
    injection Hins as <-. cbn [rows]. rewrite fmap_app. reflexivity.
Qed.

Lemma process_candles_extends existing df : forall tbl n tbl' n',
  foldl (process_candle existing) (tbl, n) df = (tbl', n') ->
  exists added,
    identities tbl' = (identities tbl ++ added)%list /\
    n <= n' <= n + Z.of_nat (length df) /\
    Z.of_nat (length added) <= n' - n.
Proof.
  induction df as [|c df IH]; intros tbl n tbl' n'; cbn [foldl].
  - intros [= <- <-]. exists []. rewrite app_nil_r. cbn. repeat split; lia.
  - destruct (process_candle existing (tbl, n) c) as [t1 n1] eqn:E.
    intros H. apply process_candle_extends in E as (a1 & E1 & Hn1 & Hl1).
    apply IH in H as (a2 & E2 & Hn2 & Hl2).
    exists (a1 ++ a2). rewrite E2, E1, app_assoc, length_app.
    cbn [length]. repeat split; lia.
Qed.

Lemma process_candles_column existing df : forall tbl n tbl' n',
  has_is_completed tbl = true ->
  foldl (process_candle existing) (tbl, n) df = (tbl', n') ->
  has_is_completed tbl' = true.
Proof.
  induction df as [|c df IH]; intros tbl n tbl' n' Hcol; cbn [foldl].
  - by intros [= <- _].
  - destruct (process_candle existing (tbl, n) c) as [t1 n1] eqn:E.
    apply IH. unfold process_candle, sql_update, sql_insert in E.
    rewrite Hcol in E. repeat case_match; by simplify_eq.
Qed.

(** What a reconciliation that returns has done to the database, on any
    fetched window. *)
Lemma update_database_frame mt5 now db symbol timeframe_const
    timeframe_str lookback db' n :
  update_database mt5 now (Some db) symbol timeframe_const timeframe_str
    lookback = Ok (Some db', n) ->
  let name := table_name symbol timeframe_str in
  let fetched :=
    default [] (copy_rates_from_pos mt5 symbol timeframe_const 0 lookback) in
  0 <= n <= Z.of_nat (length fetched) /\
  (forall other, other <> name -> db' !! other = db !! other) /\
  match db !! name with
  | None => db' !! name = None
  | Some tbl =>
      exists tbl' added,
        db' !! name = Some tbl' /\
        identities tbl' = identities tbl ++ added /\
        Z.of_nat (length added) <= n /\
        has_is_completed tbl' = has_is_completed tbl
  end.
Proof.
  intros H name fetched. subst name fetched.
  set (name := table_name symbol timeframe_str) in *.
  apply update_database_inv in H
    as [[[= ->] ->]|(rates & df & tbl & existing & tbl' & _ & Hrates & Hne
                     & Hdf & Htbl & Hsel & _ & Hfold & [= ->])].
  { split; [lia|]. split; [done|].
    destruct (db !! name) as [tbl|] eqn:E; [|done].
    exists tbl, []. rewrite app_nil_r. cbn. repeat split; try done. }
  fold name in Htbl. rewrite Hrates, Htbl. cbn [from_option id].
  assert (Hlen : length df = length rates).
  { destruct (build_frame_inv _ _ _ _ Hdf) as [[? _]|(g & _ & ->)]; [done|].
    by rewrite length_fmap. }
  assert (Hcol : has_is_completed tbl = true).
  { unfold select_existing in Hsel. by destruct (has_is_completed tbl). }
  pose proof (process_candles_column _ _ _ _ _ _ Hcol Hfold) as Hcol'.
  apply process_candles_extends in Hfold as (added & Hids & Hn & Hadd).
  rewrite <- Hlen. split; [lia|]. split.
  - intros other Hother. by rewrite lookup_insert_ne.
  - exists tbl', added. rewrite lookup_insert_eq.
    repeat split; [done | lia | congruence].
Qed.

(** X10.  On any fetched window, duplicates included, a reconciliation
    that returns counts at most one update per fetched bar, touches no
    table but that of its series, and never removes, re-keys or renumbers
    a stored row: the row ids and keys of the table are kept in place, and
    at most as many rows are added as updates are counted. *)
Theorem update_database_keeps_rows mt5 now db symbol timeframe_const
    timeframe_str lookback db' n :
  update_database mt5 now (Some db) symbol timeframe_const timeframe_str
    lookback = Ok (Some db', n) ->
  let name := table_name symbol timeframe_str in
  let fetched :=
    default [] (copy_rates_from_pos mt5 symbol timeframe_const 0 lookback) in
  0 <= n <= Z.of_nat (length fetched) /\
  (forall other, other <> name -> db' !! other = db !! other) /\
  match db !! name with
  | None => db' !! name = None
  | Some tbl =>
      exists tbl' added,
        db' !! name = Some tbl' /\
        identities tbl' = identities tbl ++ added /\
        Z.of_nat (length added) <= n
  end.
Proof.
  intros H name fetched.
  destruct (update_database_frame _ _ _ _ _ _ _ _ _ H) as (Hn & Hother & Htbl).
  split; [exact Hn|]. split; [exact Hother|]. fold name in Htbl.
  destruct (db !! name) as [tbl|]; [|done].
  destruct Htbl as (tbl' & added & ? & ? & ? & _). by exists tbl', added.
Qed.

Lemma update_database_keeps_rows_witness :
  exists tbl' added,
    Scenario.db_of Scenario.table2 !! "EURUSD_M1" = Some tbl' /\
    identities tbl' = identities Scenario.table1 ++ added /\
    Z.of_nat (length added) <= 2.
Proof.
  pose proof (update_database_keeps_rows
                (Scenario.terminal Scenario.window2) 225
                (Scenario.db_of Scenario.table1) "EURUSD" TIMEFRAME_M1 "M1"
                default_lookback (Scenario.db_of Scenario.table2) 2
                scenario_cycle2) as (_ & _ & H).
  rewrite scenario_table1_lookup in H. exact H.
Defined.

(** ** The bulk loader on any window *)

Lemma insert_if_absent_extends existing tbl n r tbl' n' :
  insert_if_absent existing (tbl, n) r = (tbl', n') ->
  exists added,
    rows tbl' = rows tbl ++ added /\
    has_is_completed tbl' = has_is_completed tbl /\
    n' = n + Z.of_nat (length added) /\
    (length added <= 1)%nat /\
    (Strftime.format (Rate.time r) ∈ existing \/
     Strftime.format (Rate.time r) ∈ StoredRow.datetime <$> rows tbl').
Proof.
  unfold insert_if_absent. destruct (decide _) as [Hin|Hnot].
  - intros [= <- <-]. exists []. rewrite app_nil_r. cbn.
    repeat split; [lia | lia | by left].
  - unfold sql_insert. cbn [v_datetime v_is_completed].
    destruct (has_key _ tbl) eqn:Hkey.
    + intros [= <- <-]. exists []. rewrite app_nil_r. cbn.
      repeat split; [lia | lia |]. right.
      unfold has_key in Hkey. by apply bool_decide_eq_true in Hkey.
    + intros [= <- <-]. eexists [_]. cbn [rows has_is_completed].
      split; [reflexivity|]. split; [reflexivity|]. cbn [length].
      split; [lia|]. split; [lia|]. right.
      rewrite fmap_app. apply elem_of_app. right. cbn. left.
Qed.

Lemma insert_all_extends existing df : forall tbl n tbl' n',
  foldl (insert_if_absent existing) (tbl, n) df = (tbl', n') ->
  exists added,
    rows tbl' = rows tbl ++ added /\
    has_is_completed tbl' = has_is_completed tbl /\
    n' = n + Z.of_nat (length added) /\
    (length added <= length df)%nat /\
    (forall r, r ∈ df ->
       Strftime.format (Rate.time r) ∈ existing \/
       Strftime.format (Rate.time r) ∈ StoredRow.datetime <$> rows tbl').
Proof.
  induction df as [|r df IH]; intros tbl n tbl' n'; cbn [foldl].
  - intros [= <- <-]. exists []. rewrite app_nil_r. cbn.
    repeat split; [lia | lia |]. intros r Hr. by apply elem_of_nil in Hr.
  - destruct (insert_if_absent existing (tbl, n) r) as [t1 n1] eqn:E.
    intros H.
    apply insert_if_absent_extends in E as (a1 & E1 & Hc1 & Hn1 & Hl1 & Hk1).
    apply IH in H as (a2 & E2 & Hc2 & Hn2 & Hl2 & Hk2).
    exists (a1 ++ a2). rewrite length_app. cbn [length].
    split; [by rewrite E2, E1, <- app_assoc|]. split; [congruence|].
    split; [lia|]. split; [lia|].
    intros r' Hr'. apply elem_of_cons in Hr' as [->|Hr']; [|by apply Hk2].
    destruct Hk1 as [?|Hk1]; [by left|]. right.
    rewrite E2, fmap_app. apply elem_of_app. by left.
Qed.


Lemma series_table_rows db name :
  rows (series_table db name) = series_rows db name.
Proof. unfold series_table, series_rows. by destruct (db !! name). Qed.

(** X11.  The bulk loader only appends.  For a series with a label of the
    catalog whose table exists or can be created, the stored rows of the
    series are kept as they are and in place, the rows added come after
    them, the second number returned is the number of rows added and
    never exceeds the first, which is the number of fetched bars but the
    last, and no other table is touched. *)
Theorem save_to_database_appends db symbol timeframe timeframe_str data db'
    total inserted :
  get_timeframe_constant timeframe_str = Some timeframe ->
  is_Some (create_series_table false (table_name symbol timeframe_str) db) ->
  save_to_database (Some db) symbol timeframe timeframe_str data
  = Ok (Some db', (total, inserted)) ->
  let name := table_name symbol timeframe_str in
  total = Z.of_nat (length (drop_last (default [] data))) /\
  0 <= inserted <= total /\
  (exists added,
     series_rows db' name = series_rows db name ++ added /\
     inserted = Z.of_nat (length added)) /\
  (forall other, other <> name -> db' !! other = db !! other).
Proof.
  intros Hlabel Hcr H name. subst name.
  rewrite save_to_database_series in H; [|by eexists|by right]. cbv zeta in H.
  set (name := table_name symbol timeframe_str) in *.
  destruct (drop_last (default [] data)) as [|d df].
  - injection H as <- <- <-. split; [done|]. split; [lia|].
    split; [|done]. exists []. by rewrite app_nil_r.
  - destruct (loads_bind _ _); [|done].
    destruct (foldl _ _ _) as [tbl' n'] eqn:Hfold. injection H as <- <- <-.
    apply insert_all_extends in Hfold
      as (added & Hrows & _ & Hn & Hlen & _).
    cbn [length] in Hlen. split; [done|]. split; [lia|]. split.
    + exists added. split; [|lia]. unfold series_rows at 1.
      by rewrite lookup_insert_eq, Hrows, series_table_rows.
    + intros other Hne. by rewrite lookup_insert_ne.
Qed.

Lemma save_to_database_appends_witness :
  exists added,
    series_rows (<["EURUSD_M1" :=
                     mkTable true 4
                       (rows Scenario.table1
                        ++ [Scenario.row 3 220 1.75 1])]>
                   (Scenario.db_of Scenario.table1)) "EURUSD_M1"
    = series_rows (Scenario.db_of Scenario.table1) "EURUSD_M1" ++ added /\
    1 = Z.of_nat (length added).
Proof.
  assert (Hcall :
    save_to_database (Some (Scenario.db_of Scenario.table1)) "EURUSD"
      TIMEFRAME_M1 "M1"
      (Some [Scenario.bar 160 1.5; Scenario.bar 220 1.75;
             Scenario.bar 280 1.75])
    = Ok (Some (<["EURUSD_M1" :=
                    mkTable true 4
                      (rows Scenario.table1 ++ [Scenario.row 3 220 1.75 1])]>
                  (Scenario.db_of Scenario.table1)), (2, 1)))
    by (vm_compute; reflexivity).
  assert (Hcreate :
    is_Some (create_series_table false (table_name "EURUSD" "M1")
               (Scenario.db_of Scenario.table1)))
    by (vm_compute; by eexists).
  assert (Hlabel : get_timeframe_constant "M1" = Some TIMEFRAME_M1)
    by reflexivity.
  apply (save_to_database_appends _ _ _ _ _ _ _ _ Hlabel Hcreate Hcall).
Defined.



(** ** The two writers on one database *)

(** X13.  A series whose table the bulk loader created is never
    reconciled.  The table is created without the completion column;
    [init_database] of the live updater leaves it as it is; so every
    reconciliation that returns reports no update and changes nothing,
    and the chart endpoint, asked for completed bars with a limit it
    accepts, answers 500. *)
Theorem loaded_series_not_reconciled db symbol timeframe timeframe_str data
    db1 total inserted symbols timeframes db2 :
  get_timeframe_constant timeframe_str = Some timeframe ->
  is_Some (create_series_table false (table_name symbol timeframe_str) db) ->
  db !! table_name symbol timeframe_str = None ->
  save_to_database (Some db) symbol timeframe timeframe_str data
  = Ok (Some db1, (total, inserted)) ->
  0 < total ->
  init_database (Some db1) symbols timeframes = Initialized (Some db2) ->
  (forall mt5 now lookback conn' n,
     update_database mt5 now (Some db2) symbol timeframe timeframe_str
       lookback = Ok (conn', n) ->
     conn' = Some db2 /\ n = 0) /\
  (forall start_time end_time limit,
     limit <= 100000 ->
     get_ohlc_data db2 symbol timeframe_str start_time end_time limit true
     = Status 500).
Proof.
  intros Hlabel Hcr Hnew Hsave Htotal Hinit.
  rewrite save_to_database_series in Hsave; [|by eexists|by right]. cbv zeta in Hsave.
  set (name := table_name symbol timeframe_str) in *.
  destruct (drop_last (default [] data)) as [|d df];
    [injection Hsave as _ <- _; lia|].
  destruct (loads_bind _ _); [|done].
  destruct (foldl _ _ _) as [tbl' n'] eqn:Hfold. injection Hsave as <- _ _.
  apply insert_all_extends in Hfold as (added & _ & Hcol & _).
  unfold series_table in Hcol. rewrite Hnew in Hcol. cbn in Hcol.
  unfold init_database in Hinit.
  destruct (create_symbols true symbols timeframes _) as [db'|] eqn:E;
    [|done].
  injection Hinit as ->.
  apply create_symbols_created in E as ((Hkeep & _) & _).
  assert (Htbl : db2 !! name = Some tbl')
    by (apply Hkeep, lookup_insert_eq).
  split.
  - intros mt5 now lookback conn' n.
    apply update_database_no_column. fold name. rewrite Htbl.
    by intros ? [= <-].
  - intros start_time end_time limit Hlimit. unfold get_ohlc_data. fold name.
    rewrite (proj2 (Z.ltb_ge _ _) Hlimit), (find_table_series _ _ _ Htbl).
    unfold select_ohlc. by rewrite Hcol.
Qed.

Lemma loaded_series_not_reconciled_witness :
  let db1 : DB := {[ "EURUSD_M1" :=
                       mkTable false 2
                         [StoredRow.mk 1 (Strftime.format 100) 100
                            (Some 1.125%float) (Some 1.125%float)
                            (Some 1.125%float) (Some 1.125%float) 1 0 0
                            None] ]} in
  init_database (Some db1) ["EURUSD"] ["M1"] = Initialized (Some db1) /\
  get_ohlc_data db1 "EURUSD" "M1" None None 100 true = Status 500.
Proof.
  intros db1.
  assert (Hsave :
    save_to_database (Some ∅) "EURUSD" TIMEFRAME_M1 "M1"
      (Some Scenario.window1) = Ok (Some db1, (1, 1)))
    by (vm_compute; reflexivity).
  assert (Hcreate :
    is_Some (create_series_table false (table_name "EURUSD" "M1") ∅))
    by (vm_compute; by eexists).
  assert (Hinit :
    init_database (Some db1) ["EURUSD"] ["M1"] = Initialized (Some db1))
    by (vm_compute; reflexivity).
  split; [exact Hinit|].
  assert (Hlabel : get_timeframe_constant "M1" = Some TIMEFRAME_M1)
    by reflexivity.
  assert (Htotal : 0 < 1) by lia.
  assert (Hlimit : 100 <= 100000) by lia.
  by apply (loaded_series_not_reconciled ∅ "EURUSD" TIMEFRAME_M1 "M1"
              (Some Scenario.window1) db1 1 1 ["EURUSD"] ["M1"] db1
              Hlabel Hcreate (lookup_empty _) Hsave Htotal Hinit).
Defined.

(** ** A run of the bulk loader *)

Lemma appended_refl db : appended db db.
Proof. intros name tbl H. exists tbl, []. by rewrite app_nil_r. Qed.

Lemma appended_trans db1 db2 db3 :
  appended db1 db2 -> appended db2 db3 -> appended db1 db3.
Proof.
  intros H12 H23 name tbl H.
  destruct (H12 _ _ H) as (t2 & a2 & H2 & Hr2 & Hc2).
  destruct (H23 _ _ H2) as (t3 & a3 & H3 & Hr3 & Hc3).
  exists t3, (a2 ++ a3). split; [done|].
  split; [by rewrite Hr3, Hr2, <- app_assoc | congruence].
Qed.

Lemma appended_insert_new db name tbl :
  db !! name = None -> appended db (<[name := tbl]> db).
Proof.
  intros Hnone other t Hother. exists t, [].
  rewrite lookup_insert_ne by congruence. by rewrite app_nil_r.
Qed.

Lemma save_to_database_appended db symbol timeframe timeframe_str data conn'
    total inserted :
  save_to_database (Some db) symbol timeframe timeframe_str data
  = Ok (conn', (total, inserted)) ->
  exists db', conn' = Some db' /\ appended db db' /\ 0 <= inserted <= total.
Proof.
  intros H. apply save_to_database_inv in H
    as [(-> & -> & Htotal)
       |[(Hnone & -> & -> & ->)
        |(tbl & tbl' & _ & Htbl & _ & Hfold & -> & ->)]].
  - eexists. split; [reflexivity|]. split; [apply appended_refl|].
    destruct Htotal as [->| ->]; lia.
  - eexists. split; [reflexivity|].
    split; [by apply appended_insert_new | lia].
  - eexists. split; [reflexivity|].
    apply insert_all_extends in Hfold
      as (added & Hrows & Hcol & Hins & Hlen & _).
    split; [|lia].
    destruct Htbl as [Htbl|[Hnone ->]]; [|by apply appended_insert_new].
    intros name tbl0 Hname.
    destruct (decide (name = table_name symbol timeframe_str)) as [->|Hne].
    + rewrite Htbl in Hname. injection Hname as <-. exists tbl', added.
      by rewrite lookup_insert_eq.
    + exists tbl0, []. rewrite lookup_insert_ne, app_nil_r by done. done.
Qed.

Lemma load_timeframes_appended mt5 symbol timeframes : forall db totals conn'
    totals',
  AutoTrader.load_timeframes mt5 (Some db) symbol timeframes totals
  = Ok (conn', totals') ->
  exists db', conn' = Some db' /\ appended db db' /\
              0 <= totals'.2 - totals.2 <= totals'.1 - totals.1.
Proof.
  induction timeframes as [|[tf_const tf_str] rest IH];
    intros db totals conn' totals'; cbn [AutoTrader.load_timeframes].
  - intros [= <- <-]. exists db. split; [done|].
    split; [apply appended_refl | lia].
  - destruct (AutoTrader.download_data mt5 symbol tf_const) as [data|].
    + destruct (save_to_database _ _ _ _ _)
        as [[conn1 [downloaded inserted]]|e] eqn:E; [|done].
      apply save_to_database_appended in E as (db1 & -> & Happ & Hcount).
      cbn [mbind result_bind]. intros H.
      apply IH in H as (db' & -> & Happ' & Hcount').
      exists db'. split; [done|].
      split; [by eapply appended_trans|]. cbn in Hcount'. lia.
    + cbn [mbind result_bind]. apply IH.
Qed.

Lemma load_symbols_appended mt5 symbols timeframes : forall db totals conn'
    totals',
  AutoTrader.load_symbols mt5 (Some db) symbols timeframes totals
  = Ok (conn', totals') ->
  exists db', conn' = Some db' /\ appended db db' /\
              0 <= totals'.2 - totals.2 <= totals'.1 - totals.1.
Proof.
  induction symbols as [|symbol rest IH]; intros db totals conn' totals';
    cbn [AutoTrader.load_symbols].
  - intros [= <- <-]. exists db. split; [done|].
    split; [apply appended_refl | lia].
  - destruct (AutoTrader.load_timeframes _ _ _ _ _)
      as [[conn1 totals1]|e] eqn:E; [|done].
    apply load_timeframes_appended in E as (db1 & -> & Happ & Hcount).
    cbn [mbind result_bind]. intros H.
    apply IH in H as (db' & -> & Happ' & Hcount').
    exists db'. split; [done|]. split; [by eapply appended_trans | lia].
Qed.

(** X14.  A run of the bulk loader that gets past the creation of its
    tables and returns only appends: every row stored before the run is
    kept as it is and in place, in a table with the columns it had; every
    symbol has a table with every label kept from the configuration; and
    of the two totals it prints, the number of added bars is at least zero
    and at most the number of retrieved ones. *)
Theorem bulk_load_appends mt5 db symbols timeframe_strings conn' downloaded
    inserted :
  AutoTrader.main mt5 db symbols timeframe_strings
  = Some (Ok (conn', (downloaded, inserted))) ->
  exists db',
    conn' = Some db' /\
    appended db db' /\
    (forall symbol tf_str,
       symbol ∈ symbols -> tf_str ∈ timeframe_strings ->
       is_Some (get_timeframe_constant tf_str) ->
       is_Some (db' !! table_name symbol tf_str)) /\
    0 <= inserted <= downloaded.
Proof.
  unfold AutoTrader.main, AutoTrader.init_database.
  destruct (create_symbols false symbols _ db) as [db1|] eqn:E; [|done].
  intros [= H]. apply load_symbols_appended in H as (db' & -> & Happ & Hcount).
  apply create_symbols_created in E as ((Hkeep & Hex & _) & _).
  exists db'. split; [done|]. split; [|split; [|cbn in Hcount; lia]].
  - intros name tbl Hname. apply Happ. by apply Hkeep.
  - intros symbol tf_str Hs Htf Hlabel.
    assert (Hp : (symbol, tf_str)
                 ∈ all_pairs symbols (configured_timeframes timeframe_strings).*2).
    { apply elem_of_all_pairs. split; [done|]. cbn.
      rewrite configured_timeframes_labels. by apply list_elem_of_filter. }
    destruct (Hex _ Hp) as [t Ht]. cbn in Ht.
    destruct (Happ _ _ Ht) as (t' & ? & Ht' & _). by exists t'.
Qed.

Lemma bulk_load_appends_witness :
  exists db',
    appended (Scenario.db_of Scenario.table1) db' /\
    is_Some (db' !! table_name "EURUSD" "M1").
Proof.
  destruct (AutoTrader.main (Scenario.terminal Scenario.window2)
              (Scenario.db_of Scenario.table1) ["EURUSD"] ["M1"; "M7"])
    as [[[conn' [downloaded inserted]]|e]|] eqn:E;
    [|vm_compute in E; discriminate..].
  destruct (bulk_load_appends _ _ _ _ _ _ _ E)
    as (db' & _ & Happ & Hex & _).
  exists db'. split; [exact Happ|].
  apply Hex; [left | left | by eexists].
Defined.

(** ** A pass of the live updater *)

Lemma extended_refl db : extended db db.
Proof.
  intros name. destruct (db !! name) as [tbl|] eqn:E; [|done].
  exists tbl, []. by rewrite app_nil_r.
Qed.

Lemma extended_trans db1 db2 db3 :
  extended db1 db2 -> extended db2 db3 -> extended db1 db3.
Proof.
  intros H12 H23 name. specialize (H12 name). specialize (H23 name).
  destruct (db1 !! name) as [t1|].
  - destruct H12 as (t2 & a2 & H2 & Hi2 & Hc2). rewrite H2 in H23.
    destruct H23 as (t3 & a3 & H3 & Hi3 & Hc3).
    exists t3, (a2 ++ a3). split; [done|].
    split; [by rewrite Hi3, Hi2, <- app_assoc | congruence].
  - by rewrite H12 in H23.
Qed.

Lemma update_database_extended mt5 now db symbol timeframe_const
    timeframe_str lookback conn' n :
  update_database mt5 now (Some db) symbol timeframe_const timeframe_str
    lookback = Ok (conn', n) ->
  exists db', conn' = Some db' /\ extended db db' /\ 0 <= n.
Proof.
  intros H. destruct (update_database_Some _ _ _ _ _ _ _ _ _ H) as [db' ->].
  apply update_database_frame in H as (Hn & Hother & Htbl).
  exists db'. split; [done|]. split; [|lia]. intros name.
  destruct (decide (name = table_name symbol timeframe_str)) as [->|Hne].
  - destruct (db !! table_name symbol timeframe_str) as [tbl|]; [|done].
    destruct Htbl as (tbl' & added & ? & ? & _ & ?). by exists tbl', added.
  - rewrite (Hother _ Hne). destruct (db !! name) as [tbl|]; [|done].
    exists tbl, []. by rewrite app_nil_r.
Qed.

Lemma update_timeframes_extended mt5 clock symbol timeframes : forall db
    total conn' total',
  update_timeframes mt5 clock (Some db) symbol timeframes total
  = Ok (conn', total') ->
  exists db', conn' = Some db' /\ extended db db' /\ total <= total'.
Proof.
  induction timeframes as [|[tf_const tf_str] rest IH];
    intros db total conn' total'; cbn [update_timeframes].
  - intros [= <- <-]. exists db. split; [done|].
    split; [apply extended_refl | lia].
  - destruct (update_database _ _ _ _ _ _ _) as [[conn1 updates]|] eqn:E;
      [|done].
    apply update_database_extended in E as (db1 & -> & Hext & Hn).
    cbn [mbind result_bind]. intros H.
    apply IH in H as (db' & -> & Hext' & Hle).
    exists db'. split; [done|]. split; [by eapply extended_trans | lia].
Qed.

Lemma update_symbols_extended mt5 clock symbols timeframes : forall db total
    conn' total',
  update_symbols mt5 clock (Some db) symbols timeframes total
  = Ok (conn', total') ->
  exists db', conn' = Some db' /\ extended db db' /\ total <= total'.
Proof.
  induction symbols as [|symbol rest IH]; intros db total conn' total';
    cbn [update_symbols].
  - intros [= <- <-]. exists db. split; [done|].
    split; [apply extended_refl | lia].
  - destruct (update_timeframes _ _ _ _ _ _) as [[conn1 total1]|] eqn:E;
      [|done].
    apply update_timeframes_extended in E as (db1 & -> & Hext & Hn).
    cbn [mbind result_bind]. intros H.
    apply IH in H as (db' & -> & Hext' & Hle).
    exists db'. split; [done|]. split; [by eapply extended_trans | lia].
Qed.

(** X15.  A pass of the live updater over all symbols and labels never
    deletes, re-keys or renumbers a stored row and creates or drops no
    table: after the pass every table is there with the columns it had,
    and the ids and keys of its rows are in place before those of the
    rows added.  The number of updates it reports is not negative. *)
Theorem main_cycle_extends mt5 clock db symbols timeframes update_interval
    elapsed cycle :
  main_cycle mt5 clock (Some db) symbols timeframes update_interval elapsed
  = Ok cycle ->
  exists db',
    cycle_conn cycle = Some db' /\ extended db db' /\
    0 <= total_updates cycle.
Proof.
  unfold main_cycle.
  destruct (update_symbols _ _ _ _ _ _) as [[conn' total]|] eqn:E; [|done].
  cbn [mbind result_bind]. intros [= <-]. cbn.
  by apply update_symbols_extended in E.
Qed.

Lemma main_cycle_extends_witness :
  exists db',
    extended (Scenario.db_of Scenario.table1) db' /\
    db' !! "EURUSD_M1" = Some Scenario.table2.
Proof.
  assert (Hcycle :
    main_cycle (Scenario.terminal Scenario.window2) (fun _ _ => 225)
      (Some (Scenario.db_of Scenario.table1)) ["EURUSD"]
      [(TIMEFRAME_M1, "M1")] 15 1
    = Ok (mkCycle (Some (Scenario.db_of Scenario.table2)) 2 14 (1 # 10)))
    by (vm_compute; reflexivity).
  destruct (main_cycle_extends _ _ _ _ _ _ _ _ Hcycle)
    as (db' & Hconn & Hext & _).
  cbn in Hconn. injection Hconn as <-.
  exists (Scenario.db_of Scenario.table2). split; [exact Hext|].
  vm_compute. reflexivity.
Defined.








(** ** The read API *)

Lemma split_nonempty sep s : split sep s <> [].
Proof.
  destruct s as [|c s]; [done|]. cbn.
  destruct (Ascii.eqb c sep); [done|]. by destruct (split sep s).
Qed.

Lemma join_String sep c part parts :
  join sep (String c part :: parts) = String c (join sep (part :: parts)).
Proof. by destruct parts. Qed.

Lemma join_split sep s : join sep (split sep s) = s.
Proof.
  induction s as [|c s IH]; [done|]. cbn [split].
  pose proof (split_nonempty sep s) as Hne.
  destruct (Ascii.eqb c sep) eqn:E.
  - apply Ascii.eqb_eq in E as ->.
    destruct (split sep s) as [|p ps]; [done|].
    change (join sep ("" :: p :: ps))
      with ("" +:+ String sep (join sep (p :: ps))).
    by rewrite IH.
  - destruct (split sep s) as [|p ps]; [done|]. by rewrite join_String, IH.
Qed.

Lemma split_head sep s : forall p rest,
  split sep s = p :: rest -> contains sep p = false.
Proof.
  induction s as [|c s IH]; intros p rest; cbn [split].
  - by intros [= <- _].
  - destruct (Ascii.eqb c sep) eqn:E; [by intros [= <- _]|].
    pose proof (split_nonempty sep s) as Hne.
    destruct (split sep s) as [|q qs]; [done|].
    intros [= <- _]. cbn [contains]. rewrite E. by apply (IH q qs).
Qed.

Lemma split_app_sep sep a b :
  contains sep a = false ->
  split sep (a +:+ String sep b) = a :: split sep b.
Proof.
  induction a as [|c a IH]; intros Ha.
  - change ("" +:+ String sep b) with (String sep b). cbn [split].
    by rewrite (proj2 (Ascii.eqb_eq sep sep) eq_refl).
  - cbn [contains] in Ha. apply orb_false_iff in Ha as [Hc Ha].
    change (String c a +:+ String sep b) with (String c (a +:+ String sep b)).
    cbn [split]. by rewrite Hc, IH.
Qed.

Lemma name_parts_Some table symbol timeframe :
  name_parts table = Some (symbol, timeframe) ->
  table = table_name symbol timeframe /\ contains "_" symbol = false.
Proof.
  unfold name_parts. pose proof (join_split "_" table) as Hjoin.
  destruct (split "_" table) as [|p [|q rest]] eqn:E; [done..|].
  intros [= <- <-]. split; [|by apply (split_head _ _ _ _ E)].
  rewrite <- Hjoin. reflexivity.
Qed.

Lemma name_parts_table_name symbol timeframe :
  contains "_" symbol = false ->
  name_parts (table_name symbol timeframe) = Some (symbol, timeframe).
Proof.
  intros H. unfold name_parts, table_name.
  change ("_" +:+ timeframe) with (String "_" timeframe).
  rewrite (split_app_sep _ _ _ H).
  pose proof (join_split "_" timeframe) as Hjoin.
  pose proof (split_nonempty "_" timeframe) as Hne.
  destruct (split "_" timeframe) as [|q rest]; [done|].
  by rewrite Hjoin.
Qed.

(** X17.  The parse of a table name by the endpoints inverts the naming
    of the writers exactly for the symbols without an underscore: the two
    parts it gives always form the name again, the first part has no
    underscore, and the name of a symbol without underscore is parsed
    into the symbol and the label. *)
Theorem name_parts_round_trip :
  (forall table symbol timeframe,
     name_parts table = Some (symbol, timeframe) ->
     table = table_name symbol timeframe /\ contains "_" symbol = false) /\
  (forall symbol timeframe,
     contains "_" symbol = false ->
     name_parts (table_name symbol timeframe) = Some (symbol, timeframe)).
Proof. split; [apply name_parts_Some | apply name_parts_table_name]. Qed.

(** The tables that are listed under a symbol. *)
Lemma listed_table db symbol timeframe :
  (exists table, table ∈ master_tables db /\
                 name_parts table = Some (symbol, timeframe)) <->
  contains "_" symbol = false /\
  table_name symbol timeframe ∈ master_tables db.
Proof.
  split.
  - intros (table & Hin & Hparts).
    apply name_parts_Some in Hparts as [-> ?]. by split.
  - intros [Hsym Hin]. exists (table_name symbol timeframe).
    split; [done|]. by apply name_parts_table_name.
Qed.

Lemma get_symbols_elem db symbol :
  symbol ∈ get_symbols db <->
  contains "_" symbol = false /\
  exists timeframe, table_name symbol timeframe ∈ master_tables db.
Proof.
  unfold get_symbols. rewrite merge_sort_Permutation, elem_of_elements,
    elem_of_list_to_set, list_elem_of_omap.
  split.
  - intros (table & Hin & Hfst).
    destruct (name_parts table) as [[s tf]|] eqn:E; [|done].
    injection Hfst as ->.
    destruct (proj1 (listed_table db symbol tf)) as [? ?]; [by eexists|].
    split; [done|]. by exists tf.
  - intros [Hsym [tf Hin]].
    destruct (proj2 (listed_table db symbol tf)) as (table & ? & Hparts);
      [done|].
    exists table. split; [done|]. by rewrite Hparts.
Qed.

(** X18.  The list of symbols is sorted and without repetition, and it
    holds exactly the symbols without an underscore that have a table:
    a symbol with an underscore is never listed, whatever is stored for
    it. *)
Theorem get_symbols_spec db :
  StronglySorted String.le (get_symbols db) /\
  NoDup (get_symbols db) /\
  forall symbol,
    symbol ∈ get_symbols db <->
    contains "_" symbol = false /\
    exists timeframe, table_name symbol timeframe ∈ master_tables db.
Proof.
  split; [|split].
  - apply StronglySorted_merge_sort; apply _.
  - unfold get_symbols. rewrite merge_sort_Permutation. apply NoDup_elements.
  - apply get_symbols_elem.
Qed.

Lemma get_timeframes_elem db symbol :
  let listed tf :=
    contains "_" symbol = false /\
    table_name symbol tf ∈ master_tables db in
  match get_timeframes db symbol with
  | Body timeframes =>
      timeframes <> [] /\ forall tf, tf ∈ timeframes <-> listed tf
  | Status code => code = 404 /\ forall tf, ~ listed tf
  end.
Proof.
  intros listed. unfold get_timeframes.
  set (timeframes := omap _ (master_tables db)).
  assert (Helem : forall tf, tf ∈ timeframes <-> listed tf).
  { intros tf. subst timeframes listed. cbv beta.
    rewrite <- listed_table, list_elem_of_omap. split.
    - intros (table & Hin & Hf). exists table. split; [done|].
      destruct (name_parts table) as [[s t]|]; [|done].
      destruct (String.eqb s symbol) eqn:E; [|done].
      apply String.eqb_eq in E. by simplify_eq.
    - intros (table & Hin & Hparts). exists table. split; [done|].
      rewrite Hparts. by rewrite (proj2 (String.eqb_eq symbol symbol) eq_refl). }
  destruct timeframes as [|tf0 rest] eqn:E.
  - split; [done|]. intros tf Htf. apply Helem in Htf.
    by apply elem_of_nil in Htf.
  - split; [done|]. exact Helem.
Qed.

(** X19.  The labels listed for a symbol are exactly those with which
    the symbol, if it has no underscore, names a table; the answer is 404
    exactly when there is none.  A symbol with an underscore always gets
    404. *)
Theorem get_timeframes_spec db symbol :
  let listed tf :=
    contains "_" symbol = false /\
    table_name symbol tf ∈ master_tables db in
  match get_timeframes db symbol with
  | Body timeframes =>
      timeframes <> [] /\ forall tf, tf ∈ timeframes <-> listed tf
  | Status code => code = 404 /\ forall tf, ~ listed tf
  end.
Proof. apply get_timeframes_elem. Qed.

Lemma find_table_internal (db : DB) :
  db <> ∅ -> db !! "sqlite_sequence" = None ->
  find_table db (table_name "sqlite" "sequence") = Internal.
Proof.
  intros Hne Hnone. unfold find_table.
  change (table_name "sqlite" "sequence") with "sqlite_sequence".
  rewrite Hnone, bool_decide_eq_true_2; [done|].
  apply elem_of_master_tables. split; [done | by left].
Qed.

(** X20.  Once the database has a table, the table SQLite keeps for the
    AUTOINCREMENT keys is served as a series: ["sqlite"] is listed among
    the symbols with the label ["sequence"], and the two candle endpoints
    answer 500 for the pair. *)
Theorem internal_table_listed (db : DB) :
  db <> ∅ -> db !! "sqlite_sequence" = None ->
  "sqlite" ∈ get_symbols db /\
  (exists timeframes,
     get_timeframes db "sqlite" = Body timeframes /\
     "sequence" ∈ timeframes) /\
  (forall start_time end_time limit completed_only,
     limit <= 100000 ->
     get_candles db "sqlite" "sequence" start_time end_time limit
       completed_only = Status 500) /\
  get_latest_candle db "sqlite" "sequence" = Status 500.
Proof.
  intros Hne Hnone.
  assert (Hin : table_name "sqlite" "sequence" ∈ master_tables db)
    by (apply elem_of_master_tables; split; [done | by left]).
  split; [|split; [|split]].
  - apply get_symbols_elem. split; [reflexivity|]. by exists "sequence".
  - pose proof (get_timeframes_elem db "sqlite") as H. cbv zeta in H.
    destruct (get_timeframes db "sqlite") as [tfs|code].
    + exists tfs. split; [done|]. by apply H.
    + destruct H as [_ H]. by destruct (H "sequence").
  - intros start_time end_time limit completed_only Hlimit.
    unfold get_candles. rewrite (proj2 (Z.ltb_ge _ _) Hlimit).
    by rewrite find_table_internal.
  - unfold get_latest_candle. by rewrite find_table_internal.
Qed.

Lemma internal_table_listed_witness :
  "sqlite" ∈ get_symbols (Scenario.db_of Scenario.table1) /\
  get_latest_candle (Scenario.db_of Scenario.table1) "sqlite" "sequence"
  = Status 500.
Proof.
  assert (Hne : Scenario.db_of Scenario.table1 <> ∅).
  { intros H. apply (f_equal (fun m : DB => m !! "EURUSD_M1")) in H.
    vm_compute in H. discriminate. }
  assert (Hnone : Scenario.db_of Scenario.table1 !! "sqlite_sequence" = None)
    by (vm_compute; reflexivity).
  destruct (internal_table_listed _ Hne Hnone) as (H1 & _ & _ & H2).
  by split.
Defined.

(** *** The candle endpoints *)

(** A row passes the validation of the response when it has its four
    prices and its flag, and the candle then carries its fields. *)
Lemma candle_data_Some r c :
  candle_data r = Some c <->
  exists open high low close flag,
    StoredRow.open r = Some open /\ StoredRow.high r = Some high /\
    StoredRow.low r = Some low /\ StoredRow.close r = Some close /\
    StoredRow.is_completed r = Some flag /\
    c = CandleData.mk (StoredRow.datetime r) (StoredRow.time r) open high
          low close (StoredRow.tick_volume r) (StoredRow.spread r)
          (StoredRow.real_volume r) flag.
Proof.
  unfold candle_data. split.
  - destruct (StoredRow.open r) as [o|], (StoredRow.high r) as [h|],
      (StoredRow.low r) as [l|], (StoredRow.close r) as [cl|],
      (StoredRow.is_completed r) as [f|]; cbn; try done.
    intros [= <-]. by exists o, h, l, cl, f.
  - intros (o & h & l & cl & f & -> & -> & -> & -> & -> & ->). reflexivity.
Qed.

Lemma candle_data_time r c :
  candle_data r = Some c -> CandleData.time c = StoredRow.time r.
Proof.
  intros H. apply candle_data_Some in H
    as (? & ? & ? & ? & ? & _ & _ & _ & _ & _ & ->).
  reflexivity.
Qed.

Lemma mapM_elem_of_l {A B} (f : A -> option B) l k x :
  mapM f l = Some k -> x ∈ l -> exists y, y ∈ k /\ f x = Some y.
Proof.
  intros H%mapM_Some_1. induction H as [|x' y' l k Hxy H IH].
  - by intros ?%elem_of_nil.
  - intros [->|Hx]%elem_of_cons.
    + exists y'. split; [left | done].
    + destruct (IH Hx) as (y & ? & ?). exists y. split; [by right | done].
Qed.

Lemma mapM_elem_of_r {A B} (f : A -> option B) l k y :
  mapM f l = Some k -> y ∈ k -> exists x, x ∈ l /\ f x = Some y.
Proof.
  intros H%mapM_Some_1. induction H as [|x' y' l k Hxy H IH].
  - by intros ?%elem_of_nil.
  - intros [->|Hy]%elem_of_cons.
    + exists x'. split; [left | done].
    + destruct (IH Hy) as (x & ? & ?). exists x. split; [by right | done].
Qed.

Lemma mapM_candle_data_sorted sel body :
  mapM candle_data sel = Some body ->
  StronglySorted time_desc sel ->
  StronglySorted (fun c1 c2 => CandleData.time c2 <= CandleData.time c1) body.
Proof.
  intros H%mapM_Some_1. induction H as [|r c sel body Hrc H IH].
  - constructor.
  - intros [Hs Hall]%StronglySorted_inv. constructor; [by apply IH|].
    apply Forall_forall. intros c' Hc'.
    destruct (mapM_elem_of_r candle_data sel body c') as (r' & Hr' & Hv);
      [by apply mapM_Some_2 | done |].
    apply (proj1 (Forall_forall _ _) Hall) in Hr'. unfold time_desc in Hr'.
    by rewrite (candle_data_time _ _ Hrc), (candle_data_time _ _ Hv).
Qed.

Lemma get_candles_Body db symbol timeframe start_time end_time limit
    completed_only body :
  get_candles db symbol timeframe start_time end_time limit completed_only
  = Body body ->
  limit <= 100000 /\
  exists tbl sel,
    db !! table_name symbol timeframe = Some tbl /\
    select_ohlc tbl start_time end_time completed_only limit = Some sel /\
    mapM candle_data sel = Some body.
Proof.
  unfold get_candles. destruct (100000 <? limit) eqn:Hlimit; [done|].
  apply Z.ltb_ge in Hlimit. unfold find_table.
  destruct (db !! table_name symbol timeframe) as [tbl|];
    [|by case_bool_decide].
  destruct (select_ohlc _ _ _ _ _) as [sel|] eqn:Hsel; [|done].
  destruct (mapM candle_data sel) as [result|] eqn:E; [|done].
  intros [= <-]. split; [done|]. by exists tbl, sel.
Qed.

(** X21.  What [/candles] answers with a body: the table exists; the
    candles are stored rows that pass the filters, newest first; their
    number is that of the rows that pass the filters, cut at [limit] when
    the limit is not negative, so that a negative limit lifts the bound
    of 100000; and a row that is left out is no newer than any candle of
    the answer. *)
Theorem get_candles_spec db symbol timeframe start_time end_time limit
    completed_only body :
  get_candles db symbol timeframe start_time end_time limit completed_only
  = Body body ->
  exists tbl,
    db !! table_name symbol timeframe = Some tbl /\
    let matching :=
      filter (fun r => matches start_time end_time completed_only r = true)
        (rows tbl) in
    StronglySorted (fun c1 c2 => CandleData.time c2 <= CandleData.time c1)
      body /\
    (forall c, c ∈ body ->
       exists r, r ∈ matching /\ candle_data r = Some c) /\
    Z.of_nat (length body)
    = (if limit <? 0 then Z.of_nat (length matching)
       else Z.min limit (Z.of_nat (length matching))) /\
    (forall r, r ∈ matching ->
       (forall c, c ∈ body -> candle_data r <> Some c) ->
       forall c, c ∈ body -> StoredRow.time r <= CandleData.time c).
Proof.
  intros H. apply get_candles_Body in H as (_ & tbl & sel & Htbl & Hsel & Hmap).
  exists tbl. split; [done|]. intros matching.
  unfold select_ohlc in Hsel.
  destruct (completed_only && negb (has_is_completed tbl)); [done|].
  injection Hsel as Hsel. fold matching in Hsel.
  set (sorted := merge_sort time_desc matching) in *.
  assert (Hperm : sorted ≡ₚ matching) by apply merge_sort_Permutation.
  assert (Hsorted : StronglySorted time_desc sorted)
    by (apply StronglySorted_merge_sort;
        [apply time_desc_trans | apply time_desc_total]).
  assert (Hsub : sel `sublist_of` sorted)
    by (rewrite <- Hsel; apply sql_limit_sublist).
  split; [|split; [|split]].
  - apply (mapM_candle_data_sorted sel); [done|].
    by apply (StronglySorted_sublist _ _ _ Hsub).
  - intros c Hc.
    destruct (mapM_elem_of_r _ _ _ _ Hmap Hc) as (r & Hr & Hv).
    exists r. split; [|done]. rewrite <- Hperm.
    by apply (sublist_subseteq _ _ Hsub).
  - rewrite <- (length_mapM _ _ _ Hmap), <- Hsel, <- (Permutation_length Hperm).
    unfold sql_limit. destruct (limit <? 0) eqn:Hneg; [done|].
    apply Z.ltb_ge in Hneg. rewrite length_take. lia.
  - intros r Hr Hout c Hc. rewrite <- Hperm in Hr.
    destruct (mapM_elem_of_r _ _ _ _ Hmap Hc) as (r' & Hr' & Hv').
    rewrite (candle_data_time _ _ Hv').
    assert (Hnot : r ∉ sel).
    { intros Hin. destruct (mapM_elem_of_l _ _ _ _ Hmap Hin) as (c' & ? & ?).
      by apply (Hout c'). }
    revert Hr' Hnot. rewrite <- Hsel. unfold sql_limit.
    destruct (limit <? 0); [done|]. intros Hr' Hnot.
    rewrite <- (take_drop (Z.to_nat limit) sorted) in Hr, Hsorted.
    apply elem_of_app in Hr as [Hr|Hr]; [done|].
    apply (StronglySorted_app_1_elem_of _ _ _ _ _ Hsorted Hr' Hr).
Qed.

Lemma get_candles_spec_witness :
  exists tbl,
    Scenario.db_of Scenario.table2 !! table_name "EURUSD" "M1" = Some tbl /\
    Z.of_nat (length
                [CandleData.mk (Strftime.format 220) 220 1.75 1.75 1.75 1.75
                   1 0 0 0;
                 CandleData.mk (Strftime.format 160) 160 1.5 1.5 1.5 1.5
                   1 0 0 1])
    = Z.min 2 (Z.of_nat (length (rows tbl))).
Proof.
  assert (Hcall :
    get_candles (Scenario.db_of Scenario.table2) "EURUSD" "M1" None None 2
      false
    = Body [CandleData.mk (Strftime.format 220) 220 1.75 1.75 1.75 1.75
              1 0 0 0;
            CandleData.mk (Strftime.format 160) 160 1.5 1.5 1.5 1.5
              1 0 0 1])
    by (vm_compute; reflexivity).
  destruct (get_candles_spec _ _ _ _ _ _ _ _ Hcall)
    as (tbl & Htbl & _ & _ & Hlen & _).
  exists tbl. split; [exact Htbl|].
  assert (Hall : filter (fun r => matches None None false r = true) (rows tbl)
                 = rows tbl).
  { clear. induction (rows tbl) as [|r l IH]; [done|].
    rewrite filter_cons_True by reflexivity. by rewrite IH. }
  rewrite Hall in Hlen. exact Hlen.
Defined.

Lemma filter_matches_all (l : list StoredRow.t) :
  filter (fun r => matches None None false r = true) l = l.
Proof.
  induction l as [|r l IH]; [done|].
  rewrite filter_cons_True by reflexivity. by rewrite IH.
Qed.

Lemma latest_row tbl r rest :
  sql_limit 1 (merge_sort time_desc (rows tbl)) = r :: rest ->
  rest = [] /\ r ∈ rows tbl /\
  forall r', r' ∈ rows tbl -> StoredRow.time r' <= StoredRow.time r.
Proof.
  assert (Hperm : merge_sort time_desc (rows tbl) ≡ₚ rows tbl)
    by apply merge_sort_Permutation.
  assert (Hsorted : StronglySorted time_desc (merge_sort time_desc (rows tbl)))
    by (apply StronglySorted_merge_sort;
        [apply time_desc_trans | apply time_desc_total]).
  unfold sql_limit. cbn.
  destruct (merge_sort time_desc (rows tbl)) as [|r0 sorted]; [done|].
  cbn. intros [= <- <-]. split; [done|].
  split; [rewrite <- Hperm; left|].
  intros r' Hr'. rewrite <- Hperm in Hr'.
  apply StronglySorted_inv in Hsorted as [_ Hall].
  apply elem_of_cons in Hr' as [->|Hr']; [lia|].
  by apply (proj1 (Forall_forall _ _) Hall) in Hr'.
Qed.

(** X22.  What [/latest] answers with a body is a stored row of the
    series than which no row is newer, and it is the one candle that
    [/candles] answers for a limit of one. *)
Theorem get_latest_candle_spec db symbol timeframe c :
  get_latest_candle db symbol timeframe = Body c ->
  exists tbl r,
    db !! table_name symbol timeframe = Some tbl /\
    r ∈ rows tbl /\ candle_data r = Some c /\
    (forall r', r' ∈ rows tbl -> StoredRow.time r' <= StoredRow.time r) /\
    get_candles db symbol timeframe None None 1 false = Body [c].
Proof.
  unfold get_latest_candle, get_candles, find_table.
  destruct (db !! table_name symbol timeframe) as [tbl|];
    [|by case_bool_decide].
  destruct (sql_limit 1 _) as [|r rest] eqn:E; [done|].
  destruct (candle_data r) as [c'|] eqn:Hc; [|done]. intros [= <-].
  destruct (latest_row _ _ _ E) as (-> & Hin & Hmax).
  exists tbl, r. repeat split; try done.
  unfold select_ohlc. cbn [andb]. rewrite filter_matches_all, E.
  cbn. by rewrite Hc.
Qed.

Lemma get_latest_candle_spec_witness :
  get_candles (Scenario.db_of Scenario.table2) "EURUSD" "M1" None None 1
    false
  = Body [CandleData.mk (Strftime.format 220) 220 1.75 1.75 1.75 1.75
            1 0 0 0].
Proof.
  assert (Hcall :
    get_latest_candle (Scenario.db_of Scenario.table2) "EURUSD" "M1"
    = Body (CandleData.mk (Strftime.format 220) 220 1.75 1.75 1.75 1.75
              1 0 0 0))
    by (vm_compute; reflexivity).
  destruct (get_latest_candle_spec _ _ _ _ Hcall) as (_ & _ & _ & _ & _ & _ & H).
  exact H.
Defined.

Lemma mapM_candle_data_fmap {A} sel body (f : StoredRow.t -> A)
    (g : CandleData.t -> A) :
  (forall r c, candle_data r = Some c -> g c = f r) ->
  mapM candle_data sel = Some body -> g <$> body = f <$> sel.
Proof.
  intros Hfg H%mapM_Some_1. induction H as [|r c sel body Hrc H IH]; [done|].
  cbn. by rewrite IH, (Hfg _ _ Hrc).
Qed.

(** X23.  [/ohlc] and [/candles] answer the same selection.  Where
    [/candles] answers with candles, [/ohlc] answers with their columns
    in the reverse order, the times in milliseconds; where [/candles]
    answers with the empty list, [/ohlc] answers 404. *)
Theorem ohlc_of_candles db symbol timeframe start_time end_time limit
    completed_only body :
  get_candles db symbol timeframe start_time end_time limit completed_only
  = Body body ->
  match body with
  | [] =>
      get_ohlc_data db symbol timeframe start_time end_time limit
        completed_only = Status 404
  | _ =>
      exists resp,
        get_ohlc_data db symbol timeframe start_time end_time limit
          completed_only = Body resp /\
        Ohlc.t resp = reverse ((fun c => CandleData.time c * 1000) <$> body) /\
        Ohlc.o resp = reverse ((fun c => Some (CandleData.open c)) <$> body) /\
        Ohlc.h resp = reverse ((fun c => Some (CandleData.high c)) <$> body) /\
        Ohlc.l resp = reverse ((fun c => Some (CandleData.low c)) <$> body) /\
        Ohlc.c resp = reverse ((fun c => Some (CandleData.close c)) <$> body) /\
        Ohlc.v resp = reverse (CandleData.tick_volume <$> body)
  end.
Proof.
  intros H.
  apply get_candles_Body in H as (Hlimit & tbl & sel & Htbl & Hsel & Hmap).
  unfold get_ohlc_data.
  rewrite (proj2 (Z.ltb_ge _ _) Hlimit), (find_table_series _ _ _ Htbl), Hsel.
  pose proof (length_mapM _ _ _ Hmap) as Hlen.
  destruct body as [|c body]; [by destruct sel|].
  destruct sel as [|r sel]; [done|]. eexists. split; [reflexivity|].
  cbn [Ohlc.t Ohlc.o Ohlc.h Ohlc.l Ohlc.c Ohlc.v].
  assert (Hview : forall r c, candle_data r = Some c ->
            CandleData.time c = StoredRow.time r /\
            Some (CandleData.open c) = StoredRow.open r /\
            Some (CandleData.high c) = StoredRow.high r /\
            Some (CandleData.low c) = StoredRow.low r /\
            Some (CandleData.close c) = StoredRow.close r /\
            CandleData.tick_volume c = StoredRow.tick_volume r).
  { intros r' c' Hv. apply candle_data_Some in Hv
      as (? & ? & ? & ? & ? & -> & -> & -> & -> & _ & ->).
    by repeat split. }
  repeat split; f_equal; symmetry;
    apply (mapM_candle_data_fmap _ _ _ _); try done;
    intros r' c' Hv; destruct (Hview _ _ Hv) as (? & ? & ? & ? & ? & ?);
    congruence.
Qed.

Lemma ohlc_of_candles_witness :
  exists resp,
    get_ohlc_data (Scenario.db_of Scenario.table2) "EURUSD" "M1" None None 2
      false = Body resp /\
    Ohlc.t resp = [160000; 220000].
Proof.
  assert (Hcall :
    get_candles (Scenario.db_of Scenario.table2) "EURUSD" "M1" None None 2
      false
    = Body [CandleData.mk (Strftime.format 220) 220 1.75 1.75 1.75 1.75
              1 0 0 0;
            CandleData.mk (Strftime.format 160) 160 1.5 1.5 1.5 1.5
              1 0 0 1])
    by (vm_compute; reflexivity).
  destruct (ohlc_of_candles _ _ _ _ _ _ _ _ Hcall) as (resp & Hr & Ht & _).
  exists resp. split; [exact Hr | exact Ht].
Defined.

(** *** The candle endpoints and the two writers *)

Lemma insert_all_flagless existing df : forall tbl n tbl' n',
  has_is_completed tbl = false ->
  Forall (fun r => StoredRow.is_completed r = None) (rows tbl) ->
  foldl (insert_if_absent existing) (tbl, n) df = (tbl', n') ->
  Forall (fun r => StoredRow.is_completed r = None) (rows tbl').
Proof.
  induction df as [|d df IH]; intros tbl n tbl' n' Hcol Hrows; cbn [foldl].
  - by intros [= <- _].
  - destruct (insert_if_absent existing (tbl, n) d) as [t1 n1] eqn:E.
    unfold insert_if_absent, sql_insert in E. rewrite Hcol in E.
    cbn [v_is_completed] in E.
    destruct (decide _); [injection E as <- <-; by apply IH|].
    destruct (has_key _ tbl); [injection E as <- <-; by apply IH|].
    injection E as <- <-. apply IH; [done|]. cbn [rows].
    apply Forall_app. split; [done|]. by repeat constructor.
Qed.

Lemma sorted_rows_nonempty (l : list StoredRow.t) :
  l <> [] -> exists r rest, merge_sort time_desc l = r :: rest /\ r ∈ l.
Proof.
  intros Hne.
  assert (Hperm : merge_sort time_desc l ≡ₚ l) by apply merge_sort_Permutation.
  destruct (merge_sort time_desc l) as [|r rest].
  - apply Permutation_nil_l in Hperm. by destruct Hne.
  - exists r, rest. split; [done|]. rewrite <- Hperm. left.
Qed.

(** X24.  A series loaded by the bulk loader into a table of its own is
    not served by the candle endpoints: its rows have no flag, the
    response model requires one, and [/latest] and, for any limit but
    zero, [/candles] answer 500. *)
Theorem loaded_series_not_served db symbol timeframe timeframe_str data db1
    total inserted :
  get_timeframe_constant timeframe_str = Some timeframe ->
  is_Some (create_series_table false (table_name symbol timeframe_str) db) ->
  db !! table_name symbol timeframe_str = None ->
  save_to_database (Some db) symbol timeframe timeframe_str data
  = Ok (Some db1, (total, inserted)) ->
  0 < inserted ->
  get_latest_candle db1 symbol timeframe_str = Status 500 /\
  forall limit, limit <= 100000 -> limit <> 0 ->
    get_candles db1 symbol timeframe_str None None limit false = Status 500.
Proof.
  intros Hlabel Hcr Hnew Hsave Hins.
  assert (Htbl : exists tbl',
    db1 !! table_name symbol timeframe_str = Some tbl' /\
    rows tbl' <> [] /\
    Forall (fun r => StoredRow.is_completed r = None) (rows tbl')).
  { rewrite save_to_database_series in Hsave; [|by eexists|by right].
    cbv zeta in Hsave.
    destruct (drop_last (default [] data)) as [|d df];
      [injection Hsave as _ _ <-; lia|].
    destruct (loads_bind _ _); [|done].
    unfold series_table in Hsave. rewrite Hnew in Hsave.
    destruct (foldl _ _ _) as [tbl' n'] eqn:Hfold.
    injection Hsave as <- _ <-. exists tbl'.
    split; [by rewrite lookup_insert_eq|]. split.
    - apply insert_all_extends in Hfold as (added & Hrows & _ & Hn & _).
      rewrite Hrows. cbn. intros ->. cbn in Hn. lia.
    - eapply insert_all_flagless; [| |exact Hfold]; [done | constructor]. }
  destruct Htbl as (tbl' & Htbl & Hne & Hnone).
  destruct (sorted_rows_nonempty _ Hne) as (r & rest & Hsorted & Hr).
  assert (Hview : candle_data r = None).
  { destruct (candle_data r) as [c|] eqn:E; [|done].
    apply candle_data_Some in E as (? & ? & ? & ? & ? & _ & _ & _ & _ & E & _).
    by rewrite (proj1 (Forall_forall _ _) Hnone r Hr) in E. }
  split.
  - unfold get_latest_candle, find_table. rewrite Htbl, Hsorted.
    change (sql_limit 1 (r :: rest)) with [r]. cbv beta iota.
    by rewrite Hview.
  - intros limit Hmax Hnz. unfold get_candles, find_table.
    rewrite (proj2 (Z.ltb_ge _ _) Hmax), Htbl. unfold select_ohlc.
    cbn [andb]. rewrite filter_matches_all, Hsorted.
    assert (Hsel : exists sel, sql_limit limit (r :: rest) = r :: sel).
    { unfold sql_limit. destruct (limit <? 0) eqn:Hneg; [by eexists|].
      apply Z.ltb_ge in Hneg.
      destruct (Z.to_nat limit) as [|k] eqn:Hk; [lia|]. by eexists. }
    destruct Hsel as [sel ->].
    by rewrite (mapM_None_2 candle_data (r :: sel)) by (by left).
Qed.

Lemma loaded_series_not_served_witness :
  let db1 : DB := {[ "EURUSD_M1" :=
                       mkTable false 2
                         [StoredRow.mk 1 (Strftime.format 100) 100
                            (Some 1.125%float) (Some 1.125%float)
                            (Some 1.125%float) (Some 1.125%float) 1 0 0
                            None] ]} in
  get_latest_candle db1 "EURUSD" "M1" = Status 500.
Proof.
  intros db1.
  assert (Hsave :
    save_to_database (Some ∅) "EURUSD" TIMEFRAME_M1 "M1"
      (Some Scenario.window1) = Ok (Some db1, (1, 1)))
    by (vm_compute; reflexivity).
  assert (Hcreate :
    is_Some (create_series_table false (table_name "EURUSD" "M1") ∅))
    by (vm_compute; by eexists).
  assert (Hlabel : get_timeframe_constant "M1" = Some TIMEFRAME_M1)
    by reflexivity.
  assert (Hins : 0 < 1) by lia.
  apply (loaded_series_not_served ∅ "EURUSD" TIMEFRAME_M1 "M1"
           (Some Scenario.window1) db1 1 1 Hlabel Hcreate (lookup_empty _)
           Hsave Hins).
Defined.

Lemma process_candles_flagged existing df : forall tbl n tbl' n',
  flagged tbl ->
  foldl (process_candle existing) (tbl, n) df = (tbl', n') ->
  flagged tbl'.
Proof.
  induction df as [|c df IH]; intros tbl n tbl' n' Hfl; cbn [foldl].
  - by intros [= <- _].
  - destruct (process_candle existing (tbl, n) c) as [t1 n1] eqn:E.
    apply IH. destruct Hfl as [Hcol Hrows].
    unfold process_candle, sql_update, sql_insert in E. rewrite Hcol in E.
    cbn [v_is_completed candle_values] in E.
    destruct (existing !! datetime_str c) as [e|].
    + destruct (needs_update e (is_completed c));
        [|injection E as <- <-; by split].
      injection E as <- <-. split; [done|]. cbn [rows].
      apply Forall_fmap, Forall_forall. intros r Hr. cbn.
      destruct (String.eqb _ _); [by eexists|].
      by apply (proj1 (Forall_forall _ _) Hrows).
    + destruct (has_key _ tbl); [injection E as <- <-; by split|].
      injection E as <- <-. split; [done|]. cbn [rows].
      apply Forall_app. split; [done|]. repeat constructor. by eexists.
Qed.

Lemma update_database_served mt5 now db symbol timeframe_const timeframe_str
    lookback db' n :
  served db ->
  update_database mt5 now (Some db) symbol timeframe_const timeframe_str
    lookback = Ok (Some db', n) ->
  served db'.
Proof.
  intros Hdb H.
  apply update_database_inv in H
    as [[[= ->] _]|(rates & df & tbl & existing & tbl' & _ & _ & _ & _
                    & Htbl & _ & _ & Hfold & [= ->])]; [done|].
  intros name t Hname.
  destruct (decide (name = table_name symbol timeframe_str)) as [->|Hne].
  - rewrite lookup_insert_eq in Hname. injection Hname as <-.
    eapply process_candles_flagged; [|exact Hfold]. by apply (Hdb _ _ Htbl).
  - rewrite lookup_insert_ne in Hname by done. by apply (Hdb _ _ Hname).
Qed.

Lemma update_timeframes_served mt5 clock symbol timeframes : forall db total
    db' total',
  served db ->
  update_timeframes mt5 clock (Some db) symbol timeframes total
  = Ok (Some db', total') ->
  served db'.
Proof.
  induction timeframes as [|[tf_const tf_str] rest IH];
    intros db total db' total' Hdb; cbn [update_timeframes].
  - by intros [= <- _].
  - destruct (update_database _ _ _ _ _ _ _) as [[conn1 updates]|] eqn:E;
      [|done].
    destruct (update_database_Some _ _ _ _ _ _ _ _ _ E) as [db1 ->].
    cbn [mbind result_bind]. apply IH.
    by eapply update_database_served.
Qed.

Lemma update_symbols_served mt5 clock symbols timeframes : forall db total
    db' total',
  served db ->
  update_symbols mt5 clock (Some db) symbols timeframes total
  = Ok (Some db', total') ->
  served db'.
Proof.
  induction symbols as [|symbol rest IH]; intros db total db' total' Hdb;
    cbn [update_symbols].
  - by intros [= <- _].
  - destruct (update_timeframes _ _ _ _ _ _) as [[conn1 total1]|] eqn:E;
      [|done].
    destruct (update_timeframes_extended _ _ _ _ _ _ _ _ E)
      as (db1 & -> & _ & _).
    cbn [mbind result_bind]. apply IH.
    by eapply update_timeframes_served.
Qed.

(** X25.  A database written by the live updater alone stays one whose
    every table has the completion column and whose every row has a flag:
    [init_database] and every pass of the loop keep it so. *)
Theorem live_updater_keeps_served mt5 clock db symbols timeframe_strings
    timeframes db1 update_interval elapsed cycle :
  served db ->
  init_database (Some db) symbols timeframe_strings
  = Initialized (Some db1) ->
  main_cycle mt5 clock (Some db1) symbols timeframes update_interval elapsed
  = Ok cycle ->
  served db1 /\ exists db2, cycle_conn cycle = Some db2 /\ served db2.
Proof.
  intros Hdb Hinit Hcycle. unfold init_database in Hinit.
  destruct (create_symbols true symbols timeframe_strings db) as [db'|] eqn:E;
    [|done].
  injection Hinit as ->.
  apply create_symbols_created in E as ((_ & _ & Hnew) & _).
  assert (Hdb1 : served db1).
  { intros name tbl Hname.
    destruct (Hnew _ _ Hname) as [Hold|(_ & -> & _)]; [by apply (Hdb _ _ Hold)|].
    split; [done | constructor]. }
  split; [done|]. unfold main_cycle in Hcycle.
  destruct (update_symbols _ _ _ _ _ _) as [[conn' total]|] eqn:E; [|done].
  cbn [mbind result_bind] in Hcycle. injection Hcycle as <-. cbn.
  destruct (update_symbols_extended _ _ _ _ _ _ _ _ E) as (db2 & -> & _ & _).
  exists db2. split; [done|]. by eapply update_symbols_served.
Qed.

Lemma live_updater_keeps_served_witness :
  served (Scenario.db_of Scenario.table2).
Proof.
  assert (Hdb : served (Scenario.db_of Scenario.table1)).
  { intros name tbl H. unfold Scenario.db_of in H.
    apply lookup_singleton_Some in H as [_ <-].
    split; [done|]. repeat constructor; by eexists. }
  assert (Hinit :
    init_database (Some (Scenario.db_of Scenario.table1)) ["EURUSD"] ["M1"]
    = Initialized (Some (Scenario.db_of Scenario.table1)))
    by (vm_compute; reflexivity).
  assert (Hcycle :
    main_cycle (Scenario.terminal Scenario.window2) (fun _ _ => 225)
      (Some (Scenario.db_of Scenario.table1)) ["EURUSD"]
      [(TIMEFRAME_M1, "M1")] 15 1
    = Ok (mkCycle (Some (Scenario.db_of Scenario.table2)) 2 14 (1 # 10)))
    by (vm_compute; reflexivity).
  destruct (live_updater_keeps_served _ _ _ _ _ _ _ _ _ _ Hdb Hinit Hcycle)
    as (_ & db2 & Hconn & Hserved).
  cbn in Hconn. by injection Hconn as <-.
Defined.




(** *** The summary endpoint *)

Lemma master_entries_names db : (master_entries db).*1 = master_tables db.
Proof.
  unfold master_entries, master_tables. destruct (decide (db = ∅)); [done|].
  cbn. f_equal. rewrite <- list_fmap_compose. by apply list_fmap_ext.
Qed.

Lemma count_loop_total db (tables : list (string * option Table)) :
  forall total oldest newest,
    (foldl (fun '(total, oldest_datetime, newest_datetime) table =>
              let count := count_rows db table in
              let total := total + count in
              if 0 <? count then
                match oldest_newest table with
                | Some (oldest, newest) =>
                    (total,
                     match oldest_datetime with
                     | Some d => if String.ltb oldest d then Some oldest
                                 else Some d
                     | None => Some oldest
                     end,
                     match newest_datetime with
                     | Some d => if String.ltb d newest then Some newest
                                 else Some d
                     | None => Some newest
                     end)
                | None => (total, oldest_datetime, newest_datetime)
                end
              else (total, oldest_datetime, newest_datetime))
       (total, oldest, newest) tables).1.1
    = total + foldr (fun table acc => count_rows db table + acc) 0 tables.
Proof.
  induction tables as [|table tables IH]; intros total oldest newest.
  - cbn. lia.
  - cbn [foldl foldr].
    destruct (0 <? count_rows db table);
      [destruct (oldest_newest table) as [[o n]|]|]; rewrite IH; lia.
Qed.

Lemma count_series_tables db (l : list (string * Table)) :
  foldr (fun table acc => count_rows db table + acc) 0
    ((fun p => (p.1, Some p.2)) <$> l)
  = Z.of_nat (sum_list_with (fun p => length (rows p.2)) l).
Proof.
  induction l as [|p l IH]; [done|]. cbn [fmap list_fmap foldr sum_list_with].
  rewrite IH. unfold count_rows. cbn. lia.
Qed.

(** X27.  The summary of [/info] counts the table SQLite keeps for the
    AUTOINCREMENT keys: on a database with a table, [total_tables] is one
    more than the number of series tables, and [total_candles] exceeds
    the number of stored candles by the number of series tables that
    hold a row. *)
Theorem get_database_info_totals db :
  let info := get_database_info db in
  DatabaseInfo.total_tables info
  = Z.of_nat (size db) + (if decide (db = ∅) then 0 else 1) /\
  DatabaseInfo.total_candles info = stored_rows db + sequence_rows db.
Proof.
  unfold get_database_info.
  match goal with
  | |- context [foldl ?f (0, None, None) (master_entries db)] =>
      pose proof (count_loop_total db (master_entries db) 0 None None) as H;
      destruct (foldl f (0, None, None) (master_entries db))
        as [[total oldest] newest]
  end.
  cbn [fst] in H. cbv zeta. cbn [DatabaseInfo.total_tables
                                  DatabaseInfo.total_candles].
  unfold master_entries in *. destruct (decide (db = ∅)) as [->|Hne].
  - split; [done|]. rewrite H. reflexivity.
  - split.
    + cbn [length]. rewrite length_fmap, length_map_to_list. lia.
    + rewrite H. cbn [foldr]. rewrite count_series_tables.
      unfold stored_rows, count_rows. cbn. lia.
Qed.

Lemma dict_lookup_elem d symbol timeframes :
  NoDup d.*1 ->
  (symbol, timeframes) ∈ d <-> dict_lookup d symbol = Some timeframes.
Proof.
  induction d as [|[s v] d IH]; intros Hnd.
  - split; [by intros ?%elem_of_nil | done].
  - cbn in Hnd. apply NoDup_cons in Hnd as [Hs Hnd]. cbn [dict_lookup].
    rewrite elem_of_cons, (IH Hnd).
    destruct (String.eqb s symbol) eqn:E.
    + apply String.eqb_eq in E as ->. split.
      * intros [[= ->]|H]; [done|]. destruct Hs.
        apply list_elem_of_fmap. exists (symbol, timeframes).
        split; [done|]. by apply (IH Hnd).
      * intros [= ->]. by left.
    + apply String.eqb_neq in E. split; [|by right].
      intros [[= <- _]|H]; [done | done].
Qed.

Lemma dict_lookup_None d symbol :
  dict_lookup d symbol = None <-> symbol ∉ d.*1.
Proof.
  induction d as [|[s v] d IH]; cbn.
  - split; [intros _; apply not_elem_of_nil | done].
  - rewrite not_elem_of_cons. destruct (String.eqb s symbol) eqn:E.
    + apply String.eqb_eq in E as ->. split; [done | by intros [? _]].
    + apply String.eqb_neq in E. rewrite IH. split; [|by intros [_ ?]].
      intros ?. split; [congruence | done].
Qed.

Lemma add_timeframe_lookup s0 tf0 d symbol :
  dict_lookup (add_timeframe s0 tf0 d) symbol
  = if String.eqb s0 symbol
    then Some (default [] (dict_lookup d s0) ++ [tf0])
    else dict_lookup d symbol.
Proof.
  induction d as [|[s v] d IH]; cbn [add_timeframe dict_lookup].
  - by destruct (String.eqb s0 symbol).
  - destruct (String.eqb s s0) eqn:E0; cbn [dict_lookup].
    + apply String.eqb_eq in E0 as ->.
      by destruct (String.eqb s0 symbol).
    + rewrite IH. destruct (String.eqb s0 symbol) eqn:E1; [|done].
      apply String.eqb_eq in E1 as <-. by rewrite E0.
Qed.

Lemma add_timeframe_NoDup s0 tf0 d :
  NoDup d.*1 -> NoDup (add_timeframe s0 tf0 d).*1.
Proof.
  induction d as [|[s v] d IH]; intros Hnd; cbn [add_timeframe].
  - cbn. apply NoDup_singleton.
  - cbn in Hnd. apply NoDup_cons in Hnd as [Hs Hnd].
    destruct (String.eqb s s0) eqn:E0; cbn; apply NoDup_cons.
    + by split.
    + split; [|by apply IH]. apply dict_lookup_None.
      rewrite add_timeframe_lookup.
      apply String.eqb_neq in E0.
      destruct (String.eqb s0 s) eqn:E1;
        [apply String.eqb_eq in E1; congruence|].
      by apply dict_lookup_None.
Qed.

Lemma symbols_dict_spec tables : forall d,
  NoDup d.*1 ->
  let d' :=
    foldl (fun d table =>
             match name_parts table with
             | Some (symbol, timeframe) => add_timeframe symbol timeframe d
             | None => d
             end) d tables in
  NoDup d'.*1 /\
  forall symbol,
    dict_lookup d' symbol
    = match dict_lookup d symbol, timeframes_of symbol tables with
      | None, [] => None
      | found, timeframes => Some (default [] found ++ timeframes)
      end.
Proof.
  induction tables as [|table tables IH]; intros d Hnd; cbn [foldl].
  - split; [done|]. intros symbol. cbn.
    destruct (dict_lookup d symbol); [by rewrite app_nil_r | done].
  - unfold timeframes_of. cbn [omap list_omap].
    destruct (name_parts table) as [[s0 tf0]|].
    + destruct (IH _ (add_timeframe_NoDup s0 tf0 d Hnd)) as [Hnd' Hlook].
      split; [done|]. intros symbol.
      rewrite Hlook, add_timeframe_lookup. unfold timeframes_of.
      destruct (String.eqb s0 symbol) eqn:E.
      * apply String.eqb_eq in E as ->.
        destruct (dict_lookup d symbol); cbn;
          destruct (omap _ tables); cbn; by rewrite <- ?app_assoc.
      * done.
    + destruct (IH d Hnd) as [Hnd' Hlook]. split; [done|]. exact Hlook.
Qed.

Lemma get_timeframes_Body db symbol timeframes :
  get_timeframes db symbol = Body timeframes <->
  timeframes = timeframes_of symbol (master_tables db) /\ timeframes <> [].
Proof.
  unfold get_timeframes. fold (timeframes_of symbol (master_tables db)).
  destruct (timeframes_of symbol (master_tables db)) as [|tf tfs].
  - split; [done | by intros [-> ?]].
  - split; [by intros [= <-] | by intros [-> _]].
Qed.

(** X28.  The summary agrees with the two listing endpoints: its symbols
    are pairwise distinct, they are the symbols [/symbols] lists, and
    each comes with exactly the list of labels [/timeframes] answers for
    it. *)
Theorem info_symbols_agree db :
  let info := get_database_info db in
  NoDup (DatabaseInfo.symbols info).*1 /\
  (forall symbol timeframes,
     (symbol, timeframes) ∈ DatabaseInfo.symbols info <->
     get_timeframes db symbol = Body timeframes) /\
  (forall symbol,
     symbol ∈ (DatabaseInfo.symbols info).*1 <-> symbol ∈ get_symbols db).
Proof.
  unfold get_database_info.
  destruct (foldl _ (0, None, None) (master_entries db))
    as [[total oldest] newest].
  cbv zeta. cbn [DatabaseInfo.symbols]. rewrite master_entries_names.
  destruct (symbols_dict_spec (master_tables db) [] (NoDup_nil_2))
    as [Hnd Hlook].
  cbv zeta in Hnd, Hlook. set (d := foldl _ [] (master_tables db)) in *.
  assert (Helem : forall symbol timeframes,
    (symbol, timeframes) ∈ d <-> get_timeframes db symbol = Body timeframes).
  { intros symbol timeframes.
    rewrite (dict_lookup_elem _ _ _ Hnd), Hlook, get_timeframes_Body. cbn.
    destruct (timeframes_of symbol (master_tables db)) as [|tf tfs].
    - split; [done | by intros [-> ?]].
    - split; [by intros [= <-] | by intros [-> _]]. }
  split; [done|]. split; [done|]. intros symbol.
  rewrite get_symbols_elem. split.
  - intros ([s tfs] & -> & Hin)%list_elem_of_fmap. cbn.
    apply Helem in Hin.
    pose proof (get_timeframes_elem db s) as H. cbv zeta in H.
    rewrite Hin in H. destruct H as [Hne H].
    destruct tfs as [|tf tfs]; [done|].
    destruct (proj1 (H tf)) as [? ?]; [left|]. split; [done|]. by exists tf.
  - intros [Hsym [tf Hin]].
    pose proof (get_timeframes_elem db symbol) as H. cbv zeta in H.
    destruct (get_timeframes db symbol) as [tfs|code] eqn:E.
    + apply list_elem_of_fmap. exists (symbol, tfs). split; [done|].
      by apply Helem.
    + destruct H as [_ H]. by destruct (H tf).
Qed.
